(** * InvoicePro: the invoice calculator and the invoice record manager

    A shallow embedding of [src/utils/calculations.ts] (the calculator) and of
    [src/hooks/useInvoices.ts] (the record manager), with the parts of the
    database schema ([supabase/migrations], the initial schema) the record
    manager relies on.

    TypeScript's [number] is an IEEE-754 binary64 value.  The calculator is
    written once over an interface of the arithmetic it uses and read at two
    instances: [binary64] (Rocq's primitive floats: what the program computes)
    and [exact] (the rationals: the arithmetic the formulas of the
    specification are written in). *)

From Stdlib Require Import Bool List String Ascii ZArith NArith QArith Qfield Lqa Lia.
From Stdlib Require Import Permutation Floats DecimalString.
Import ListNotations.



(* ================================================================= *)
(** ** Numbers *)

(** The operations on [number] the calculator uses.  [num_truthy] is
    JavaScript's ToBoolean on a number ([x || y] yields [y] when it fails):
    false on [0], [-0] and [NaN]. *)
Class Number (N : Type) : Type := {
  num_zero : N;
  num_one : N;
  num_hundred : N;
  num_add : N -> N -> N;
  num_sub : N -> N -> N;
  num_mul : N -> N -> N;
  num_div : N -> N -> N;
  num_truthy : N -> bool
}.

Declare Scope num_scope.
Delimit Scope num_scope with num.
Infix "+" := num_add : num_scope.
Infix "-" := num_sub : num_scope.
Infix "*" := num_mul : num_scope.
Infix "/" := num_div : num_scope.

(** IEEE-754 binary64, round to nearest even: the [number] of the program. *)
#[export] Instance binary64 : Number float := {
  num_zero := 0%float;
  num_one := 1%float;
  num_hundred := 100%float;
  num_add := PrimFloat.add;
  num_sub := PrimFloat.sub;
  num_mul := PrimFloat.mul;
  num_div := PrimFloat.div;
  num_truthy := fun x => negb (PrimFloat.eqb x 0%float || PrimFloat.is_nan x)
}.

(** Exact arithmetic on the rationals (division by zero is not reached: the
    only divisor is [100]). *)
#[export] Instance exact : Number Q := {
  num_zero := 0%Q;
  num_one := 1%Q;
  num_hundred := 100%Q;
  num_add := Qplus;
  num_sub := Qminus;
  num_mul := Qmult;
  num_div := Qdiv;
  num_truthy := fun x => negb (Qeq_bool x 0)
}.

(* ================================================================= *)
(** ** The calculator: [src/utils/calculations.ts] *)

Section Calculator.
Context {N : Type} `{Number N}.
Local Open Scope num_scope.

(** [InvoiceItem] of [src/types/index.ts]; [description] and [discount]
    are optional. *)
Record InvoiceItem : Type := {
  id : string;
  name : string;
  description : option string;
  quantity : N;
  price : N;
  discount : option N
}.

(** [item.discount || 0] *)
Definition discount_or_zero (item : InvoiceItem) : N :=
  match discount item with
  | Some d => if num_truthy d then d else num_zero
  | None => num_zero
  end.

Definition calculateItemTotal (item : InvoiceItem) : N :=
  let subtotal := quantity item * price item in
  let discountAmount := discount_or_zero item / num_hundred * subtotal in
  subtotal - discountAmount.

(** [items.reduce((sum, item) => sum + calculateItemTotal(item), 0)] *)
Definition calculateInvoiceSubtotal (items : list InvoiceItem) : N :=
  fold_left (fun sum item => sum + calculateItemTotal item) items num_zero.

Definition calculateTaxAmount (subtotal taxRate : N) : N :=
  (subtotal * taxRate) / num_hundred.

Record InvoiceTotal : Type := {
  discountAmount : N;
  taxAmount : N;
  total : N
}.

Definition calculateInvoiceTotal (subtotal discount taxRate : N) : InvoiceTotal :=
  let discountAmount := (discount / num_hundred) * subtotal in
  let discountedSubtotal := subtotal - discountAmount in
  let taxAmount := calculateTaxAmount discountedSubtotal taxRate in
  let total := discountedSubtotal + taxAmount in
  {| discountAmount := discountAmount; taxAmount := taxAmount; total := total |}.

(** The sum of a list of numbers, added left to right from [0]. *)
Definition sum_left (xs : list N) : N := fold_left num_add xs num_zero.

End Calculator.

Arguments InvoiceItem N : clear implicits.
Arguments InvoiceTotal N : clear implicits.
Arguments calculateItemTotal {N _} item : simpl never.

(** An item as the form builds it: every field present. *)
Definition mkItem {N : Type} (q p : N) (d : option N) : InvoiceItem N :=
  {| id := ""; name := ""; description := None;
     quantity := q; price := p; discount := d |}.

(** The discount of an item, [0] when it is omitted. *)
Definition discount_of (item : InvoiceItem Q) : Q :=
  match discount item with Some d => d | None => 0%Q end.

(** The range of a line item: quantity at least 1, price at least 0,
    discount omitted or between 0 and 100. *)
Definition item_in_range (item : InvoiceItem Q) : Prop :=
  (1 <= quantity item)%Q /\ (0 <= price item)%Q /\
  match discount item with Some d => (0 <= d <= 100)%Q | None => True end.

(** The same range, decided on binary64 values. *)
Definition item_in_range64 (item : InvoiceItem float) : bool :=
  PrimFloat.leb 1 (quantity item) && PrimFloat.leb 0 (price item) &&
  match discount item with
  | Some d => PrimFloat.leb 0 d && PrimFloat.leb d 100
  | None => true
  end.

(* ================================================================= *)
(** ** Rounding *)

(** [SpecFloat] shifts a mantissa to the right through a record that keeps
    the shifted mantissa [shr_m], the last bit shifted out [shr_r] and
    whether any bit before it was set [shr_s].  The record is inexact when
    one of the two is set. *)
Definition inexact (mrs : shr_record) : bool := shr_r mrs || shr_s mrs.

(** [mrs'] is [mrs] shifted right by [n] bits: the mantissa is divided by
    [2^n], and the result is inexact when [mrs] was or a bit was lost. *)
Definition shifted (n : Z) (mrs mrs' : shr_record) : Prop :=
  (shr_m mrs' = shr_m mrs / 2 ^ n)%Z /\
  inexact mrs' = inexact mrs || negb (shr_m mrs mod 2 ^ n =? 0)%Z.

(* ================================================================= *)
(** ** The data model: [src/types/database.ts] and the initial schema *)

Local Open Scope string_scope.

Inductive Status : Type := draft | sent | paid | overdue.

(** The string a status is stored as. *)
Definition status_string (s : Status) : string :=
  match s with
  | draft => "draft"
  | sent => "sent"
  | paid => "paid"
  | overdue => "overdue"
  end.

Definition number : Type := float.

(** A row of [invoices].  A field whose column admits [NULL] is an [option]:
    [None] is an absent key ([undefined], which the demo path of
    [createInvoice] leaves behind) or [null].  These are the fields [Insert]
    marks optional, and [subtotal]. *)
Record InvoiceRow : Type := {
  inv_id : string;
  inv_user_id : string;
  inv_client_id : string;
  inv_invoice_number : string;
  inv_status : option Status;
  inv_subtotal : option number;
  inv_discount : option number;
  inv_tax_rate : option number;
  inv_tax_amount : option number;
  inv_total : number;
  inv_currency : option string;
  inv_issue_date : string;
  inv_due_date : string;
  inv_notes : option string;
  inv_terms : option string;
  inv_payment_link : option string;
  inv_created_at : string;
  inv_updated_at : string
}.

(** A row of [invoice_items]. *)
Record InvoiceItemRow : Type := {
  item_id : string;
  item_invoice_id : string;
  item_name : string;
  item_description : option string;
  item_quantity : number;
  item_price : number;
  item_discount : option number;
  item_created_at : string
}.

(** [Invoice] of the hook: a row with its items attached.  The attached
    [client] record is carried along unchanged by every operation modelled
    here and is left out. *)
Record Invoice : Type := {
  inv_row :> InvoiceRow;
  invoice_items : list InvoiceItemRow
}.

(** [Omit<InvoiceUpdate, 'id' | 'user_id'>]: a partial row. *)
Record InvoiceUpdate : Type := {
  upd_client_id : option string;
  upd_invoice_number : option string;
  upd_status : option Status;
  upd_subtotal : option number;
  upd_discount : option number;
  upd_tax_rate : option number;
  upd_tax_amount : option number;
  upd_total : option number;
  upd_currency : option string;
  upd_issue_date : option string;
  upd_due_date : option string;
  upd_notes : option (option string);
  upd_terms : option (option string);
  upd_payment_link : option (option string);
  upd_created_at : option string;
  upd_updated_at : option string
}.

(** The empty patch [{}]. *)
Definition no_update : InvoiceUpdate :=
  {| upd_client_id := None; upd_invoice_number := None; upd_status := None;
     upd_subtotal := None; upd_discount := None; upd_tax_rate := None;
     upd_tax_amount := None; upd_total := None; upd_currency := None;
     upd_issue_date := None; upd_due_date := None; upd_notes := None;
     upd_terms := None; upd_payment_link := None; upd_created_at := None;
     upd_updated_at := None |}.

(** [Omit<InvoiceInsert, 'user_id' | 'client_id' | 'invoice_number'>] *)
Record InvoiceInsert : Type := {
  ins_id : option string;
  ins_status : option Status;
  ins_subtotal : number;
  ins_discount : option number;
  ins_tax_rate : option number;
  ins_tax_amount : option number;
  ins_total : number;
  ins_currency : option string;
  ins_issue_date : string;
  ins_due_date : string;
  ins_notes : option string;
  ins_terms : option string;
  ins_payment_link : option string;
  ins_created_at : option string;
  ins_updated_at : option string
}.

(** [Omit<InvoiceItemInsert, 'invoice_id'>] *)
Record InvoiceItemInsert : Type := {
  new_item_id : option string;
  new_item_name : string;
  new_item_description : option string;
  new_item_quantity : number;
  new_item_price : number;
  new_item_discount : option number;
  new_item_created_at : option string
}.

(** A present key of the patch replaces the field: [{...invoice, ...invoiceData}]. *)
Definition or_else {A : Type} (o : option A) (d : A) : A :=
  match o with Some v => v | None => d end.

Definition or_keep {A : Type} (o d : option A) : option A :=
  match o with Some v => Some v | None => d end.

Definition spread_update (r : InvoiceRow) (p : InvoiceUpdate) : InvoiceRow :=
  {| inv_id := inv_id r;
     inv_user_id := inv_user_id r;
     inv_client_id := or_else (upd_client_id p) (inv_client_id r);
     inv_invoice_number := or_else (upd_invoice_number p) (inv_invoice_number r);
     inv_status := or_keep (upd_status p) (inv_status r);
     inv_subtotal := or_keep (upd_subtotal p) (inv_subtotal r);
     inv_discount := or_keep (upd_discount p) (inv_discount r);
     inv_tax_rate := or_keep (upd_tax_rate p) (inv_tax_rate r);
     inv_tax_amount := or_keep (upd_tax_amount p) (inv_tax_amount r);
     inv_total := or_else (upd_total p) (inv_total r);
     inv_currency := or_keep (upd_currency p) (inv_currency r);
     inv_issue_date := or_else (upd_issue_date p) (inv_issue_date r);
     inv_due_date := or_else (upd_due_date p) (inv_due_date r);
     inv_notes := or_else (upd_notes p) (inv_notes r);
     inv_terms := or_else (upd_terms p) (inv_terms r);
     inv_payment_link := or_else (upd_payment_link p) (inv_payment_link r);
     inv_created_at := or_else (upd_created_at p) (inv_created_at r);
     inv_updated_at := or_else (upd_updated_at p) (inv_updated_at r) |}.

Definition set_updated_at (t : string) (r : InvoiceRow) : InvoiceRow :=
  {| inv_id := inv_id r;
     inv_user_id := inv_user_id r;
     inv_client_id := inv_client_id r;
     inv_invoice_number := inv_invoice_number r;
     inv_status := inv_status r;
     inv_subtotal := inv_subtotal r;
     inv_discount := inv_discount r;
     inv_tax_rate := inv_tax_rate r;
     inv_tax_amount := inv_tax_amount r;
     inv_total := inv_total r;
     inv_currency := inv_currency r;
     inv_issue_date := inv_issue_date r;
     inv_due_date := inv_due_date r;
     inv_notes := inv_notes r;
     inv_terms := inv_terms r;
     inv_payment_link := inv_payment_link r;
     inv_created_at := inv_created_at r;
     inv_updated_at := t |}.

(* ================================================================= *)
(** ** Strings of the template literals *)

(** [n.toString()] of a non-negative integer. *)
Definition toString (n : N) : string := NilEmpty.string_of_uint (N.to_uint n).

(** The first [n] characters of [pad] repeated. *)
Definition fill_string (n : nat) (pad : string) : string :=
  substring 0 n (String.concat "" (repeat pad n)).

(** [s.padStart(targetLength, padString)] *)
Definition padStart (s : string) (targetLength : nat) (padString : string) : string :=
  if (targetLength <=? String.length s)%nat then s
  else if (String.length padString =? 0)%nat then s
  else fill_string (targetLength - String.length s) padString ++ s.




(** The invoice number in the words of the specification,
    [INV-<year>-<4-digit-sequence>] with sequence = existing invoice count + 1:
    the decimal digits of the sequence number behind as many zeros as bring
    them to four characters. *)
Definition zero_padded4 (k : N) : string :=
  String.concat "" (repeat "0" (4 - String.length (toString k))) ++ toString k.

Definition spec_invoice_number (year : N) (existing : nat) : string :=
  "INV-" ++ toString year ++ "-" ++ zero_padded4 (N.of_nat existing + 1).
(* ================================================================= *)
(** ** The remote store: the tables of the initial schema

    The hook reaches the store through [supabase.from(table)] requests.  A
    request is answered with data or with an error; a refused request leaves
    the tables as they were.  [refused] stands for every cause this model
    does not follow (network, session, the foreign keys to [users] and
    [clients], a value its column cannot take); the primary keys,
    [UNIQUE (invoice_number)], the foreign key of [invoice_items] with its
    [ON DELETE CASCADE], the row-level policies ([auth.uid() = user_id]), the
    [updated_at] trigger and the conversion of numbers, dates and timestamps
    to the type of their column are modelled.  Identifiers and texts are
    held as the strings the store returns.  A request made with no user
    signed in (its filter is [user_id = undefined]) is refused. *)

Record Store : Type := {
  invoices_table : list InvoiceRow;
  invoice_items_table : list InvoiceItemRow
}.

(** The column types of the schema that can hold another value than the one
    written to them. *)
Inductive SqlType : Type :=
| decimal_10_2     (* decimal(10,2): subtotal, discount, tax_amount, total, price *)
| decimal_5_2      (* decimal(5,2): tax_rate, discount of an item *)
| integer          (* integer: quantity *)
| date             (* date: issue_date, due_date *)
| timestamptz.     (* timestamptz: created_at, updated_at *)

(** What a call reads from its environment.  The clock is read anew by each
    [Date.now()] and each [new Date()]: [now_ms k] and [now_iso k] are the
    [k]-th such readings of the call, in the order in which the call makes
    them.  The store has its own clock, read once per request, and its own
    column types: [db_number ty x] is the number read back from a column of
    type [ty] that [x] was written to ([decimal(10,2)] keeps two decimals),
    and [db_string ty s] the same for a date or a timestamp. *)
Record Env : Type := {
  now_ms : nat -> N;                       (* the k-th Date.now() *)
  now_iso : nat -> string;                 (* the k-th new Date().toISOString() *)
  full_year : N;                           (* new Date().getFullYear() *)
  origin : string;                         (* window.location.origin *)
  refused : nat -> bool;                   (* the k-th request of the call is answered with an error *)
  db_now : nat -> string;                  (* now() of the store in the k-th request *)
  db_uuid : nat -> string;                 (* gen_random_uuid(), per inserted row *)
  db_number : SqlType -> number -> number;
  db_string : SqlType -> string -> string
}.

(** A number as a request carries it: [JSON.stringify] writes [NaN] and the
    infinities as [null]. *)
Definition json_number (x : number) : option number :=
  if PrimFloat.is_nan x || PrimFloat.is_infinity x then None else Some x.

(** What a column that admits [NULL] holds after [x] was written to it. *)
Definition db_nullable (e : Env) (ty : SqlType) (x : number) : option number :=
  option_map (db_number e ty) (json_number x).

(** A key of a request: when present its value is written, through [f]. *)
Definition written {A B : Type} (o : option A) (f : A -> B) (old : B) : B :=
  match o with Some v => f v | None => old end.

Definition owned_by (u : string) (r : InvoiceRow) : bool := inv_user_id r =? u.

Definition has_id (i : string) (r : InvoiceRow) : bool := inv_id r =? i.

(** The counting select of [generateInvoiceNumber]:
    [{ count: 'exact', head: true }] with [.eq('user_id', uid)] *)
Definition count_invoices (fail : bool) (uid : option string) (s : Store) : option nat :=
  if fail then None
  else match uid with
       | None => None
       | Some u => Some (List.length (filter (owned_by u) (invoices_table s)))
       end.

(** The embedded [invoice_items] of the select: the items that reference the row. *)
Definition attach_items (s : Store) (r : InvoiceRow) : Invoice :=
  {| inv_row := r;
     invoice_items :=
       filter (fun it => item_invoice_id it =? inv_id r) (invoice_items_table s) |}.

Fixpoint insert_by_created_at_desc (x : Invoice) (l : list Invoice) : list Invoice :=
  match l with
  | [] => [x]
  | y :: l' =>
      if String.ltb (inv_created_at y) (inv_created_at x) then x :: y :: l'
      else y :: insert_by_created_at_desc x l'
  end.

(** [.order('created_at', { ascending: false })] *)
Definition order_by_created_at_desc (l : list Invoice) : list Invoice :=
  fold_right insert_by_created_at_desc [] l.

(** The rows of a user with their items, newest first. *)
Definition user_view (u : string) (s : Store) : list Invoice :=
  order_by_created_at_desc
    (map (attach_items s) (filter (owned_by u) (invoices_table s))).

(** The select of [fetchInvoices]: every column with the items embedded,
    [.eq('user_id', uid).order('created_at', { ascending: false })] *)
Definition select_invoices (fail : bool) (uid : option string) (s : Store)
  : option (list Invoice) :=
  if fail then None
  else match uid with
       | None => None
       | Some u => Some (user_view u s)
       end.

(** The row an [INSERT] stores, in request [1] of [createInvoice]: every
    value as its column holds it, and the column defaults of the schema for
    the absent keys. *)
Definition inserted_row (e : Env) (u clientId invoiceNumber : string) (d : InvoiceInsert)
  : InvoiceRow :=
  {| inv_id := or_else (ins_id d) (db_uuid e 0);
     inv_user_id := u;
     inv_client_id := clientId;
     inv_invoice_number := invoiceNumber;
     inv_status := Some (or_else (ins_status d) draft);
     inv_subtotal := db_nullable e decimal_10_2 (ins_subtotal d);
     inv_discount := written (ins_discount d) (db_nullable e decimal_10_2) (Some 0%float);
     inv_tax_rate := written (ins_tax_rate d) (db_nullable e decimal_5_2) (Some 0%float);
     inv_tax_amount := written (ins_tax_amount d) (db_nullable e decimal_10_2) (Some 0%float);
     inv_total := db_number e decimal_10_2 (ins_total d);
     inv_currency := Some (or_else (ins_currency d) "USD");
     inv_issue_date := db_string e date (ins_issue_date d);
     inv_due_date := db_string e date (ins_due_date d);
     inv_notes := ins_notes d;
     inv_terms := ins_terms d;
     inv_payment_link := ins_payment_link d;
     inv_created_at := written (ins_created_at d) (db_string e timestamptz) (db_now e 1);
     inv_updated_at := written (ins_updated_at d) (db_string e timestamptz) (db_now e 1) |}.

(** [.from('invoices').insert({...}).select().single()]: the row is stored
    when the session owns it, its id is new and its number is unused. *)
Definition insert_invoice (fail : bool) (uid : option string) (r : InvoiceRow) (s : Store)
  : option (InvoiceRow * Store) :=
  if fail then None
  else match uid with
       | None => None
       | Some u =>
           if owned_by u r
              && negb (existsb (has_id (inv_id r)) (invoices_table s))
              && negb (existsb (fun r' => inv_invoice_number r' =? inv_invoice_number r)
                         (invoices_table s))
           then Some (r, {| invoices_table := invoices_table s ++ [r];
                            invoice_items_table := invoice_items_table s |})
           else None
       end.

(** The item row an [INSERT] stores for the [k]-th item, in request [2] of
    [createInvoice]. *)
Definition inserted_item (e : Env) (invoiceId : string) (k : nat) (it : InvoiceItemInsert)
  : InvoiceItemRow :=
  {| item_id := or_else (new_item_id it) (db_uuid e (S k));
     item_invoice_id := invoiceId;
     item_name := new_item_name it;
     item_description := new_item_description it;
     item_quantity := db_number e integer (new_item_quantity it);
     item_price := db_number e decimal_10_2 (new_item_price it);
     item_discount := written (new_item_discount it) (db_nullable e decimal_5_2) (Some 0%float);
     item_created_at := written (new_item_created_at it) (db_string e timestamptz) (db_now e 2) |}.

Fixpoint mapi_from {A B : Type} (f : nat -> A -> B) (k : nat) (l : list A) : list B :=
  match l with
  | [] => []
  | x :: l' => f k x :: mapi_from f (S k) l'
  end.

(** [l.map((x, index) => f(index, x))] *)
Definition mapi {A B : Type} (f : nat -> A -> B) (l : list A) : list B := mapi_from f 0 l.

Fixpoint distinct (l : list string) : bool :=
  match l with
  | [] => true
  | x :: l' => negb (existsb (String.eqb x) l') && distinct l'
  end.

(** [.from('invoice_items').insert(rows)]: all rows or none; every row
    references an invoice the session owns and carries a new id. *)
Definition insert_items (fail : bool) (uid : option string) (rows : list InvoiceItemRow)
    (s : Store) : option Store :=
  if fail then None
  else match uid with
       | None => None
       | Some u =>
           if forallb (fun it =>
                         existsb (fun r => has_id (item_invoice_id it) r && owned_by u r)
                           (invoices_table s)
                         && negb (existsb (fun it' => item_id it' =? item_id it)
                                    (invoice_items_table s)))
                rows
              && distinct (map item_id rows)
           then Some {| invoices_table := invoices_table s;
                        invoice_items_table := invoice_items_table s ++ rows |}
           else None
       end.

(** The row after [UPDATE invoices SET ...] with the keys of the patch, each
    value as its column holds it. *)
Definition stored_update (e : Env) (r : InvoiceRow) (p : InvoiceUpdate) : InvoiceRow :=
  {| inv_id := inv_id r;
     inv_user_id := inv_user_id r;
     inv_client_id := or_else (upd_client_id p) (inv_client_id r);
     inv_invoice_number := or_else (upd_invoice_number p) (inv_invoice_number r);
     inv_status := or_keep (upd_status p) (inv_status r);
     inv_subtotal := written (upd_subtotal p) (db_nullable e decimal_10_2) (inv_subtotal r);
     inv_discount := written (upd_discount p) (db_nullable e decimal_10_2) (inv_discount r);
     inv_tax_rate := written (upd_tax_rate p) (db_nullable e decimal_5_2) (inv_tax_rate r);
     inv_tax_amount := written (upd_tax_amount p) (db_nullable e decimal_10_2) (inv_tax_amount r);
     inv_total := written (upd_total p) (db_number e decimal_10_2) (inv_total r);
     inv_currency := or_keep (upd_currency p) (inv_currency r);
     inv_issue_date := written (upd_issue_date p) (db_string e date) (inv_issue_date r);
     inv_due_date := written (upd_due_date p) (db_string e date) (inv_due_date r);
     inv_notes := or_else (upd_notes p) (inv_notes r);
     inv_terms := or_else (upd_terms p) (inv_terms r);
     inv_payment_link := or_else (upd_payment_link p) (inv_payment_link r);
     inv_created_at := written (upd_created_at p) (db_string e timestamptz) (inv_created_at r);
     inv_updated_at := written (upd_updated_at p) (db_string e timestamptz) (inv_updated_at r) |}.

(** [.from('invoices').update(patch).eq('id', id).eq('user_id', uid)]: the
    matching rows take the patch, and the trigger stamps [updated_at] with
    the clock [t] of the store. *)
Definition update_invoices (fail : bool) (uid : option string) (e : Env) (t : string)
    (i : string) (p : InvoiceUpdate) (s : Store) : option Store :=
  if fail then None
  else match uid with
       | None => None
       | Some u =>
           let hit r := has_id i r && owned_by u r in
           let clash :=
             match upd_invoice_number p with
             | Some n =>
                 existsb hit (invoices_table s) &&
                 existsb (fun r => negb (hit r) && (inv_invoice_number r =? n))
                   (invoices_table s)
             | None => false
             end in
           if clash then None
           else Some {| invoices_table :=
                          map (fun r => if hit r
                                        then set_updated_at t (stored_update e r p)
                                        else r)
                            (invoices_table s);
                        invoice_items_table := invoice_items_table s |}
       end.

(** [.from('invoices').delete().eq('id', id).eq('user_id', uid)]: the
    matching rows go, and [ON DELETE CASCADE] takes the items that reference
    them. *)
Definition delete_invoices (fail : bool) (uid : option string) (i : string) (s : Store)
  : option Store :=
  if fail then None
  else match uid with
       | None => None
       | Some u =>
           let hit r := has_id i r && owned_by u r in
           let gone := filter hit (invoices_table s) in
           Some {| invoices_table := filter (fun r => negb (hit r)) (invoices_table s);
                   invoice_items_table :=
                     filter (fun it =>
                               negb (existsb (has_id (item_invoice_id it)) gone))
                       (invoice_items_table s) |}
       end.
(* ================================================================= *)
(** ** The record manager: [useInvoices] of [src/hooks/useInvoices.ts] *)

Inductive Error : Type :=
| NoUserLoggedIn          (* new Error('No user logged in') *)
| StoreError.             (* the error of a refused request, thrown on *)

Inductive Outcome (A : Type) : Type :=
| Returned (a : A)
| Thrown (err : Error).

Arguments Returned {A} a.
Arguments Thrown {A} err.

(** What the hook works on: the signed-in user ([user.id] of [useAuth]), the
    hook's own state, and the remote store.  Each operation is read with the
    [invoices] it closes over being the current state. *)
Record World : Type := {
  user : option string;
  invoices : list Invoice;
  loading : bool;
  store : Store
}.

Definition set_invoices (l : list Invoice) (w : World) : World :=
  {| user := user w; invoices := l; loading := loading w; store := store w |}.

Definition set_loading (b : bool) (w : World) : World :=
  {| user := user w; invoices := invoices w; loading := b; store := store w |}.

Definition set_store (s : Store) (w : World) : World :=
  {| user := user w; invoices := invoices w; loading := loading w; store := s |}.

(** The demo data.  The item of the source carries [rate] and [amount]
    where the row type has [name], [price] and [discount]: [rate] is read as
    the price, and the name is empty. *)
Definition mockInvoices : list Invoice :=
  [ {| inv_row :=
         {| inv_id := "mock-inv-1";
            inv_user_id := "admin@invoicepro.com";
            inv_client_id := "mock-1";
            inv_invoice_number := "INV-2024-0001";
            inv_status := Some sent;
            inv_subtotal := Some 2500%float;
            inv_discount := None;
            inv_tax_rate := Some 8.5%float;
            inv_tax_amount := Some 212.5%float;
            inv_total := 2712.5%float;
            inv_currency := None;
            inv_issue_date := "2024-01-15";
            inv_due_date := "2024-02-15";
            inv_notes := Some "Thank you for your business!";
            inv_terms := None;
            inv_payment_link := None;
            inv_created_at := "2024-01-15T10:00:00Z";
            inv_updated_at := "2024-01-15T10:00:00Z" |};
       invoice_items :=
         [ {| item_id := "mock-item-1";
              item_invoice_id := "mock-inv-1";
              item_name := "";
              item_description := Some "Web Development Services";
              item_quantity := 50%float;
              item_price := 50%float;
              item_discount := None;
              item_created_at := "2024-01-15T10:00:00Z" |} ] |} ].

Definition isMockUser (w : World) : bool :=
  match user w with
  | Some u => (u =? "admin@invoicepro.com") || (u =? "demo@invoicepro.com")
  | None => false
  end.

(** [fetchInvoices], its select being request [k] of the call.  An error
    (a refused select, or [user.id] of no user) is caught and logged. *)
Definition fetchInvoices (e : Env) (k : nat) (w : World) : World :=
  match user w with
  | None => set_loading false w
  | Some u =>
      if isMockUser w
      then set_loading false
             (set_invoices (filter (fun invoice : Invoice => inv_user_id invoice =? u) mockInvoices) w)
      else match select_invoices (refused e k) (Some u) (store w) with
           | Some data => set_loading false (set_invoices data w)
           | None => set_loading false w
           end
  end.

(** [`INV-${year}-${invoiceCount.toString().padStart(4, '0')}`] *)
Definition invoice_number_of (year invoiceCount : N) : string :=
  "INV-" ++ toString year ++ "-" ++ padStart (toString invoiceCount) 4 "0".

Definition generateInvoiceNumber (e : Env) (w : World) : string :=
  if isMockUser w then
    let invoiceCount := (N.of_nat (List.length (invoices w)) + 1)%N in
    invoice_number_of (full_year e) invoiceCount
  else
    let count := count_invoices (refused e 0) (user w) (store w) in
    let invoiceCount := (N.of_nat (or_else count 0%nat) + 1)%N in
    invoice_number_of (full_year e) invoiceCount.

(** The invoice the demo path of [createInvoice] builds.  The object
    literal reads the clock as it goes: [Date.now()] for the id of the
    invoice (reading 0) and then, for the item of index [i], for its id
    (reading [2i+1]) and for its [invoice_id] (reading [2i+2]);
    [new Date().toISOString()] for [created_at] and [updated_at] of the
    invoice (readings 0 and 1) and for [created_at] of the item (reading
    [2i+2]; reading [2i+3] goes to an [updated_at] key that the row type of
    an item does not have). *)
Definition mock_invoice (e : Env) (u clientId invoiceNumber : string)
    (items : list InvoiceItemInsert) (d : InvoiceInsert) : Invoice :=
  {| inv_row :=
       {| inv_id := "mock-inv-" ++ toString (now_ms e 0);
          inv_user_id := u;
          inv_client_id := clientId;
          inv_invoice_number := invoiceNumber;
          inv_status := ins_status d;
          inv_subtotal := Some (ins_subtotal d);
          inv_discount := ins_discount d;
          inv_tax_rate := ins_tax_rate d;
          inv_tax_amount := ins_tax_amount d;
          inv_total := ins_total d;
          inv_currency := ins_currency d;
          inv_issue_date := ins_issue_date d;
          inv_due_date := ins_due_date d;
          inv_notes := ins_notes d;
          inv_terms := ins_terms d;
          inv_payment_link := ins_payment_link d;
          inv_created_at := now_iso e 0;
          inv_updated_at := now_iso e 1 |};
     invoice_items :=
       mapi (fun index item =>
               {| item_id := "mock-item-" ++ toString (now_ms e (2 * index + 1)) ++ "-"
                              ++ toString (N.of_nat index);
                  item_invoice_id := "mock-inv-" ++ toString (now_ms e (2 * index + 2));
                  item_name := new_item_name item;
                  item_description := new_item_description item;
                  item_quantity := new_item_quantity item;
                  item_price := new_item_price item;
                  item_discount := new_item_discount item;
                  item_created_at := now_iso e (2 * index + 2) |})
         items |}.

(** [createInvoice].  Remote requests: 0 the count of
    [generateInvoiceNumber], 1 the invoice insert, 2 the items insert, 3 the
    select of [fetchInvoices].  The remote path returns
    [invoices.find(inv => inv.id === invoice.id)] over the [invoices] of the
    call. *)
Definition createInvoice (e : Env) (clientId : string) (items : list InvoiceItemInsert)
    (invoiceData : InvoiceInsert) (w : World) : Outcome (option Invoice) * World :=
  match user w with
  | None => (Thrown NoUserLoggedIn, w)
  | Some u =>
      let invoiceNumber := generateInvoiceNumber e w in
      if isMockUser w then
        let newInvoice := mock_invoice e u clientId invoiceNumber items invoiceData in
        (Returned (Some newInvoice), set_invoices (newInvoice :: invoices w) w)
      else
        match insert_invoice (refused e 1) (Some u)
                (inserted_row e u clientId invoiceNumber invoiceData) (store w) with
        | None => (Thrown StoreError, w)
        | Some (invoice, s1) =>
            let itemsWithInvoiceId := mapi (inserted_item e (inv_id invoice)) items in
            match insert_items (refused e 2) (Some u) itemsWithInvoiceId s1 with
            | None => (Thrown StoreError, set_store s1 w)
            | Some s2 =>
                (Returned (find (fun inv : Invoice => inv_id inv =? inv_id invoice) (invoices w)),
                 fetchInvoices e 3 (set_store s2 w))
            end
        end
  end.

(** [l.map(x => hit(x) ? f(new Date().toISOString(), x) : x)]: the clock is
    read for each element that is hit, [k] readings having been made. *)
Fixpoint map_stamped {A : Type} (hit : A -> bool) (f : string -> A -> A)
    (stamp : nat -> string) (k : nat) (l : list A) : list A :=
  match l with
  | [] => []
  | x :: l' =>
      if hit x then f (stamp k) x :: map_stamped hit f stamp (S k) l'
      else x :: map_stamped hit f stamp k l'
  end.

(** [{ ...invoice, ...invoiceData, updated_at: t }] *)
Definition patched_invoice (invoiceData : InvoiceUpdate) (t : string) (invoice : Invoice)
  : Invoice :=
  {| inv_row := set_updated_at t (spread_update invoice invoiceData);
     invoice_items := invoice_items invoice |}.

(** [updateInvoice].  Remote requests: 0 the update, 1 the select. *)
Definition updateInvoice (e : Env) (id : string) (invoiceData : InvoiceUpdate) (w : World)
  : Outcome unit * World :=
  if isMockUser w then
    (Returned tt,
     set_invoices
       (map_stamped (fun invoice : Invoice => inv_id invoice =? id)
          (patched_invoice invoiceData) (now_iso e) 0 (invoices w))
       w)
  else
    match update_invoices (refused e 0) (user w) e (db_now e 0) id invoiceData (store w) with
    | None => (Thrown StoreError, w)
    | Some s' => (Returned tt, fetchInvoices e 1 (set_store s' w))
    end.

(** [deleteInvoice].  Remote request: 0 the delete. *)
Definition deleteInvoice (e : Env) (id : string) (w : World) : Outcome unit * World :=
  if isMockUser w then
    (Returned tt,
     set_invoices (filter (fun invoice : Invoice => negb (inv_id invoice =? id)) (invoices w)) w)
  else
    match delete_invoices (refused e 0) (user w) id (store w) with
    | None => (Thrown StoreError, w)
    | Some s' =>
        (Returned tt,
         set_invoices (filter (fun invoice : Invoice => negb (inv_id invoice =? id)) (invoices w))
           (set_store s' w))
    end.

Definition getInvoice (id : string) (w : World) : option Invoice :=
  find (fun invoice : Invoice => inv_id invoice =? id) (invoices w).

(** [invoice.status === status] *)
Definition status_is (status : string) (invoice : Invoice) : bool :=
  match inv_status invoice with
  | Some s => status_string s =? status
  | None => false
  end.

Definition getInvoicesByStatus (status : string) (w : World) : list Invoice :=
  filter (status_is status) (invoices w).

(** The patch [{ status: s }]. *)
Definition status_patch (s : Status) : InvoiceUpdate :=
  {| upd_client_id := None; upd_invoice_number := None; upd_status := Some s;
     upd_subtotal := None; upd_discount := None; upd_tax_rate := None;
     upd_tax_amount := None; upd_total := None; upd_currency := None;
     upd_issue_date := None; upd_due_date := None; upd_notes := None;
     upd_terms := None; upd_payment_link := None; upd_created_at := None;
     upd_updated_at := None |}.

(** The patch [{ status: 'sent', payment_link: paymentLink }]. *)
Definition sent_patch (paymentLink : string) : InvoiceUpdate :=
  {| upd_client_id := None; upd_invoice_number := None; upd_status := Some sent;
     upd_subtotal := None; upd_discount := None; upd_tax_rate := None;
     upd_tax_amount := None; upd_total := None; upd_currency := None;
     upd_issue_date := None; upd_due_date := None; upd_notes := None;
     upd_terms := None; upd_payment_link := Some (Some paymentLink);
     upd_created_at := None; upd_updated_at := None |}.

Definition markAsPaid (e : Env) (id : string) (w : World) : Outcome unit * World :=
  updateInvoice e id (status_patch paid) w.

Definition sendInvoice (e : Env) (id : string) (w : World) : Outcome unit * World :=
  let paymentLink := origin e ++ "/invoice/" ++ id in
  updateInvoice e id (sent_patch paymentLink) w.

(* ================================================================= *)
(** ** The form: [invoiceSchema] and the submit of [src/pages/CreateInvoice.tsx] *)

Record InvoiceFormItem : Type := {
  form_item_name : string;
  form_item_description : string;
  form_item_quantity : number;
  form_item_price : number;
  form_item_discount : number
}.

Record InvoiceFormData : Type := {
  form_client_id : string;
  form_issue_date : string;
  form_due_date : string;
  form_items : list InvoiceFormItem;
  form_discount : number;
  form_tax_rate : number;
  form_notes : string;
  form_terms : string
}.

(** [yup.string().required()] *)
Definition required (s : string) : bool := negb (s =? "").

(** [yup.number().min(lo).max(hi)]; a [NaN] fails both. *)
Definition in_range (lo hi x : number) : bool := PrimFloat.leb lo x && PrimFloat.leb x hi.

Definition item_schema_valid (it : InvoiceFormItem) : bool :=
  required (form_item_name it)
  && PrimFloat.leb 1 (form_item_quantity it)
  && PrimFloat.leb 0 (form_item_price it)
  && in_range 0%float 100%float (form_item_discount it).

(** [invoiceSchema]: [items] is [yup.array().of(...).min(1, ...)]. *)
Definition invoiceSchema_valid (data : InvoiceFormData) : bool :=
  required (form_client_id data)
  && required (form_issue_date data)
  && required (form_due_date data)
  && forallb item_schema_valid (form_items data)
  && (1 <=? List.length (form_items data))%nat
  && in_range 0%float 100%float (form_discount data)
  && in_range 0%float 100%float (form_tax_rate data).

(** [x || 0] on a number. *)
Definition or_zero (x : number) : number := if num_truthy x then x else 0%float.

(** The subtotal of the [calculations] memo of the page. *)
Definition form_subtotal (items : list InvoiceFormItem) : number :=
  fold_left (fun sum item =>
               let itemTotal := (or_zero (form_item_quantity item) * or_zero (form_item_price item))%float in
               let itemDiscount := (or_zero (form_item_discount item) / 100 * itemTotal)%float in
               (sum + (itemTotal - itemDiscount))%float)
    items 0%float.

Record Calculations : Type := {
  calc_subtotal : number;
  calc_discountAmount : number;
  calc_taxAmount : number;
  calc_total : number
}.

(** The body of the [calculations] memo, at the watched items, discount and
    tax rate.  The page holds the value of its last run; React runs it again
    when one of the three watched values is another object or number than at
    the last render. *)
Definition calculations_memo (watchedItems : list InvoiceFormItem)
    (watchedDiscount watchedTaxRate : number) : Calculations :=
  let subtotal := form_subtotal watchedItems in
  let r := calculateInvoiceTotal subtotal (or_zero watchedDiscount) (or_zero watchedTaxRate) in
  {| calc_subtotal := subtotal;
     calc_discountAmount := discountAmount r;
     calc_taxAmount := taxAmount r;
     calc_total := total r |}.

Definition form_item_insert (it : InvoiceFormItem) : InvoiceItemInsert :=
  {| new_item_id := None;
     new_item_name := form_item_name it;
     new_item_description := Some (form_item_description it);
     new_item_quantity := form_item_quantity it;
     new_item_price := form_item_price it;
     new_item_discount := Some (form_item_discount it);
     new_item_created_at := None |}.

(** [onSubmit(data, status)], [calculations] being the value of the memo the
    handler closes over: the amounts of the invoice are taken from it, the
    rest from [data].  The error of [createInvoice] is caught and shown as a
    toast. *)
Definition onSubmit (e : Env) (calculations : Calculations) (data : InvoiceFormData)
    (status : Status) (w : World) : World :=
  let invoiceData :=
    {| ins_id := None;
       ins_status := Some status;
       ins_subtotal := calc_subtotal calculations;
       ins_discount := Some (calc_discountAmount calculations);
       ins_tax_rate := Some (form_tax_rate data);
       ins_tax_amount := Some (calc_taxAmount calculations);
       ins_total := calc_total calculations;
       ins_currency := Some "USD";
       ins_issue_date := form_issue_date data;
       ins_due_date := form_due_date data;
       ins_notes := Some (form_notes data);
       ins_terms := Some (form_terms data);
       ins_payment_link := None;
       ins_created_at := None;
       ins_updated_at := None |} in
  snd (createInvoice e (form_client_id data) (map form_item_insert (form_items data))
         invoiceData w).

(** [handleSubmit((data) => onSubmit(data, status))]: the resolver runs
    [invoiceSchema] first, and [onSubmit] is called on valid data only. *)
Definition handleSubmit (e : Env) (calculations : Calculations) (data : InvoiceFormData)
    (status : Status) (w : World) : World :=
  if invoiceSchema_valid data then onSubmit e calculations data status w else w.

(** The memo is up to date with the data of the form. *)
Definition memo_fresh (calculations : Calculations) (data : InvoiceFormData) : Prop :=
  calculations =
  calculations_memo (form_items data) (form_discount data) (form_tax_rate data).

(* ================================================================= *)
(** ** Sequences of status operations *)

Inductive Call : Type :=
| CallMarkAsPaid (id : string)
| CallSendInvoice (id : string)
| CallUpdateInvoice (id : string) (invoiceData : InvoiceUpdate).

Definition run_call (e : Env) (c : Call) (w : World) : Outcome unit * World :=
  match c with
  | CallMarkAsPaid id => markAsPaid e id w
  | CallSendInvoice id => sendInvoice e id w
  | CallUpdateInvoice id invoiceData => updateInvoice e id invoiceData w
  end.

(** The calls one after the other, each in its own environment; a thrown
    error ends nothing: the caller logs it and the next call runs. *)
Fixpoint run_calls (cs : list (Env * Call)) (w : World) : World :=
  match cs with
  | [] => w
  | (e, c) :: cs' => run_calls cs' (snd (run_call e c w))
  end.

(** A call that carries no [status: 'draft']. *)
Definition keeps_off_draft (c : Call) : Prop :=
  match c with
  | CallUpdateInvoice _ invoiceData => upd_status invoiceData <> Some draft
  | _ => True
  end.

(** No invoice with this id is a draft, in the hook's state or in the store. *)
Definition not_draft (id : string) (w : World) : Prop :=
  (forall inv : Invoice, In inv (invoices w) -> inv_id inv = id -> inv_status inv <> Some draft) /\
  (forall r : InvoiceRow, In r (invoices_table (store w)) -> inv_id r = id ->
     inv_status r <> Some draft).

(* ================================================================= *)
(** ** Well-formed worlds *)

(** The attached items of an invoice reference it. *)
Definition items_attached (l : list Invoice) : Prop :=
  forall inv : Invoice, In inv l ->
  forall it : InvoiceItemRow, In it (invoice_items inv) -> item_invoice_id it = inv_id inv.

(** The primary key of [invoices], and the foreign key of [invoice_items]. *)
Definition store_ok (s : Store) : Prop :=
  NoDup (map inv_id (invoices_table s)) /\
  (forall it : InvoiceItemRow, In it (invoice_items_table s) ->
     exists r : InvoiceRow, In r (invoices_table s) /\ inv_id r = item_invoice_id it).

Definition world_ok (w : World) : Prop :=
  items_attached (invoices w) /\ store_ok (store w).

(** The user holds [n] invoices: in the hook's state for a demo user, among
    the rows of the store for a remote user. *)
Definition existing_invoices (w : World) (n : nat) : Prop :=
  if isMockUser w then List.length (invoices w) = n
  else exists u : string,
      user w = Some u /\
      List.length (filter (owned_by u) (invoices_table (store w))) = n.

(** The clock does not tick between the [Date.now()] readings of the call. *)
Definition steady_clock (e : Env) : Prop := forall k : nat, now_ms e k = now_ms e 0.

(* ================================================================= *)
(** ** Sample worlds *)

Definition empty_store : Store := {| invoices_table := []; invoice_items_table := [] |}.

(** An environment in which every request is answered, the clocks do not
    tick during the call, and the columns hold the values written to them:
    the amounts of the samples are whole numbers, their dates are in the form
    [YYYY-MM-DD]. *)
Definition sample_env (ms : N) (iso : string) : Env :=
  {| now_ms := fun _ => ms;
     now_iso := fun _ => iso;
     full_year := 2026;
     origin := "https://invoicepro.example";
     refused := fun _ => false;
     db_now := fun _ => iso;
     db_uuid := fun k => "00000000-0000-4000-8000-" ++ toString (N.of_nat k + 100000000000 * ms);
     db_number := fun _ x => x;
     db_string := fun _ s => s |}.

Definition env1 : Env := sample_env 1 "2026-03-01T09:00:00.000Z".
Definition env2 : Env := sample_env 2 "2026-03-02T09:00:00.000Z".
Definition env3 : Env := sample_env 3 "2026-03-03T09:00:00.000Z".

(** The hook as it mounts for a user, before the first fetch. *)
Definition mounted (u : string) (s : Store) : World :=
  {| user := Some u; invoices := []; loading := true; store := s |}.

(** The demo administrator after the first fetch: one invoice, [mock-inv-1]. *)
Definition admin_world : World := fetchInvoices env1 0 (mounted "admin@invoicepro.com" empty_store).

Definition sample_insert : InvoiceInsert :=
  {| ins_id := None; ins_status := Some draft; ins_subtotal := 100%float;
     ins_discount := Some 0%float; ins_tax_rate := Some 10%float;
     ins_tax_amount := Some 10%float; ins_total := 110%float;
     ins_currency := Some "USD"; ins_issue_date := "2026-03-01";
     ins_due_date := "2026-03-31"; ins_notes := None; ins_terms := None;
     ins_payment_link := None; ins_created_at := None; ins_updated_at := None |}.

Definition sample_item : InvoiceItemInsert :=
  {| new_item_id := None; new_item_name := "Consulting";
     new_item_description := None; new_item_quantity := 1%float;
     new_item_price := 100%float; new_item_discount := None;
     new_item_created_at := None |}.

(** A remote user who created two invoices, each with one item. *)
Definition remote_world : World :=
  snd (createInvoice env2 "client-1" [sample_item] sample_insert
         (snd (createInvoice env1 "client-1" [sample_item] sample_insert
                 (mounted "user-1" empty_store)))).

(** The remote user after a third invoice. *)
Definition remote_world3 : World :=
  snd (createInvoice env3 "client-1" [sample_item] sample_insert remote_world).

Definition env4 : Env := sample_env 4 "2026-03-04T09:00:00.000Z".

(* ================================================================= *)
(** ** What the status operations are expected to leave *)

(** The row with status [sent], the payment link [link] and the stamp [t],
    every other field as it was. *)
Definition marked_sent (t link : string) (r : InvoiceRow) : InvoiceRow :=
  {| inv_id := inv_id r;
     inv_user_id := inv_user_id r;
     inv_client_id := inv_client_id r;
     inv_invoice_number := inv_invoice_number r;
     inv_status := Some sent;
     inv_subtotal := inv_subtotal r;
     inv_discount := inv_discount r;
     inv_tax_rate := inv_tax_rate r;
     inv_tax_amount := inv_tax_amount r;
     inv_total := inv_total r;
     inv_currency := inv_currency r;
     inv_issue_date := inv_issue_date r;
     inv_due_date := inv_due_date r;
     inv_notes := inv_notes r;
     inv_terms := inv_terms r;
     inv_payment_link := Some link;
     inv_created_at := inv_created_at r;
     inv_updated_at := t |}.

(** Every request of the call is answered. *)
Definition answered (e : Env) : Prop := refused e 0 = false /\ refused e 1 = false.

(** Every invoice with this id is paid: in the hook's state, and for a
    remote user in the rows of the store the user owns. *)
Definition paid_in (id : string) (w : World) : Prop :=
  (forall inv : Invoice, In inv (invoices w) -> inv_id inv = id -> inv_status inv = Some paid) /\
  (isMockUser w = false ->
   forall r : InvoiceRow, In r (invoices_table (store w)) ->
     inv_id r = id -> user w = Some (inv_user_id r) -> inv_status r = Some paid).

(** The world without its [updated_at] stamps. *)
Definition forget_invoice (inv : Invoice) : Invoice :=
  {| inv_row := set_updated_at "" inv; invoice_items := invoice_items inv |}.

Definition forget_updated_at (w : World) : World :=
  {| user := user w;
     invoices := map forget_invoice (invoices w);
     loading := loading w;
     store := {| invoices_table := map (set_updated_at "") (invoices_table (store w));
                 invoice_items_table := invoice_items_table (store w) |} |}.

(** Two worlds that differ in [updated_at] stamps at most. *)
Definition same_but_updated_at (w1 w2 : World) : Prop :=
  forget_updated_at w1 = forget_updated_at w2.

(** The demo administrator after [markAsPaid('mock-inv-1')]. *)
Definition paid_world : World := snd (markAsPaid env2 "mock-inv-1" admin_world).

(** The statuses of the hook's state, in order. *)
Definition inv_status_list (w : World) : list (option Status) :=
  map (fun inv : Invoice => inv_status inv) (invoices w).

(* ================================================================= *)
(** ** Presence of an invoice *)



(** The status of an invoice is [s]. *)
Definition has_status (s : Status) (inv : Invoice) : bool :=
  match inv_status inv, s with
  | Some draft, draft | Some sent, sent | Some paid, paid | Some overdue, overdue => true
  | _, _ => false
  end.

(** The invoice with another due date. *)
Definition with_due_date (d : string) (inv : Invoice) : Invoice :=
  {| inv_row :=
       {| inv_id := inv_id inv;
          inv_user_id := inv_user_id inv;
          inv_client_id := inv_client_id inv;
          inv_invoice_number := inv_invoice_number inv;
          inv_status := inv_status inv;
          inv_subtotal := inv_subtotal inv;
          inv_discount := inv_discount inv;
          inv_tax_rate := inv_tax_rate inv;
          inv_tax_amount := inv_tax_amount inv;
          inv_total := inv_total inv;
          inv_currency := inv_currency inv;
          inv_issue_date := inv_issue_date inv;
          inv_due_date := d;
          inv_notes := inv_notes inv;
          inv_terms := inv_terms inv;
          inv_payment_link := inv_payment_link inv;
          inv_created_at := inv_created_at inv;
          inv_updated_at := inv_updated_at inv |};
     invoice_items := invoice_items inv |}.

(* ================================================================= *)
(** ** The update, spelled out *)

(** The update of the store, spelled out. *)
Definition patched_rows (e : Env) (t : string) (u id : string) (p : InvoiceUpdate)
    (rows : list InvoiceRow) : list InvoiceRow :=
  map (fun r => if has_id id r && owned_by u r
                then set_updated_at t (stored_update e r p) else r) rows.

(** The update of the hook's state by the demo path, spelled out: the
    invoices with this id take the patch and a reading of the clock each. *)
Definition patched_invoices (stamp : nat -> string) (k : nat) (id : string)
    (p : InvoiceUpdate) (l : list Invoice) : list Invoice :=
  map_stamped (fun invoice : Invoice => inv_id invoice =? id) (patched_invoice p) stamp k l.

(** The store after an answered update. *)
Definition patched_store (e : Env) (t u id : string) (p : InvoiceUpdate) (s : Store) : Store :=
  {| invoices_table := patched_rows e t u id p (invoices_table s);
     invoice_items_table := invoice_items_table s |}.

(** The world after an update whose two requests are answered. *)
Definition updated_world (e : Env) (u id : string) (p : InvoiceUpdate) (w : World) : World :=
  {| user := Some u;
     invoices := user_view u (patched_store e (db_now e 0) u id p (store w));
     loading := false;
     store := patched_store e (db_now e 0) u id p (store w) |}.

(** A patch with no number, no date and no timestamp: the store holds its
    values as they are written. *)
Definition plain_patch (p : InvoiceUpdate) : Prop :=
  upd_subtotal p = None /\ upd_discount p = None /\ upd_tax_rate p = None /\
  upd_tax_amount p = None /\ upd_total p = None /\ upd_issue_date p = None /\
  upd_due_date p = None /\ upd_created_at p = None /\ upd_updated_at p = None.
(* ================================================================= *)
(** ** The item rows of the form: [addItem] and [removeItem] of
    [src/pages/CreateInvoice.tsx] *)

(** The item [append] adds and the form starts with. *)
Definition blank_item : InvoiceFormItem :=
  {| form_item_name := "";
     form_item_description := "";
     form_item_quantity := 1%float;
     form_item_price := 0%float;
     form_item_discount := 0%float |}.

(** [remove(index)] of the field array. *)
Definition remove_at {A : Type} (index : nat) (l : list A) : list A :=
  firstn index l ++ skipn (S index) l.

Definition addItem (fields : list InvoiceFormItem) : list InvoiceFormItem :=
  fields ++ [blank_item].

(** [if (fields.length > 1) remove(index)] *)
Definition removeItem (index : nat) (fields : list InvoiceFormItem) : list InvoiceFormItem :=
  if (1 <? List.length fields)%nat then remove_at index fields else fields.

Inductive ItemEdit : Type :=
| AddItem
| RemoveItem (index : nat).

Definition edit_items (ed : ItemEdit) (fields : list InvoiceFormItem) : list InvoiceFormItem :=
  match ed with
  | AddItem => addItem fields
  | RemoveItem index => removeItem index fields
  end.

(** The edits one after the other. *)
Definition edit_all (eds : list ItemEdit) (fields : list InvoiceFormItem)
  : list InvoiceFormItem :=
  fold_left (fun fs ed => edit_items ed fs) eds fields.

(** A form item read as an [InvoiceItem] of the calculator. *)
Definition form_invoice_item (it : InvoiceFormItem) : InvoiceItem float :=
  {| id := "";
     name := form_item_name it;
     description := Some (form_item_description it);
     quantity := form_item_quantity it;
     price := form_item_price it;
     discount := Some (form_item_discount it) |}.

(** [x || 0] leaves [x] as it is: [x] is not [NaN] and not [-0]. *)
Definition kept_by_or_zero (x : number) : Prop := or_zero x = x.

(* ================================================================= *)
(** ** The figures of the pages *)

(** [stats] of the invoices page ([src/pages/Invoices.tsx]). *)
Record InvoicesStats : Type := {
  stats_total : nat;
  stats_paid : nat;
  stats_pending : nat;
  stats_overdue : nat;
  stats_totalRevenue : number
}.

Definition invoices_stats (w : World) : InvoicesStats :=
  {| stats_total := List.length (invoices w);
     stats_paid := List.length (filter (status_is "paid") (invoices w));
     stats_pending := List.length (filter (status_is "sent") (invoices w));
     stats_overdue := List.length (filter (status_is "overdue") (invoices w));
     stats_totalRevenue :=
       fold_left (fun sum (inv : Invoice) => (sum + inv_total inv)%float)
         (filter (status_is "paid") (invoices w)) 0%float |}.

(** The counts of [stats] of the dashboard ([src/pages/Dashboard.tsx]).
    [before_now d] stands for [new Date(d) < now], the date parser and the
    clock being the browser's. *)
Record DashboardCounts : Type := {
  dash_paidInvoices : nat;
  dash_pendingInvoices : nat;
  dash_overdueInvoices : nat
}.

Definition dashboard_overdue (before_now : string -> bool) (w : World) : list Invoice :=
  filter (fun inv : Invoice => status_is "sent" inv && before_now (inv_due_date inv))
    (invoices w).

Definition dashboard_counts (before_now : string -> bool) (w : World) : DashboardCounts :=
  {| dash_paidInvoices := List.length (filter (status_is "paid") (invoices w));
     dash_pendingInvoices := List.length (filter (status_is "sent") (invoices w));
     dash_overdueInvoices := List.length (dashboard_overdue before_now w) |}.

(* ================================================================= *)
(** ** Sequences of operations of the hook *)

Inductive Operation : Type :=
| OpFetch
| OpCreate (clientId : string) (items : list InvoiceItemInsert) (invoiceData : InvoiceInsert)
| OpUpdate (id : string) (invoiceData : InvoiceUpdate)
| OpDelete (id : string)
| OpMarkAsPaid (id : string)
| OpSend (id : string).

Definition run_operation (e : Env) (op : Operation) (w : World) : World :=
  match op with
  | OpFetch => fetchInvoices e 0 w
  | OpCreate clientId items invoiceData => snd (createInvoice e clientId items invoiceData w)
  | OpUpdate id invoiceData => snd (updateInvoice e id invoiceData w)
  | OpDelete id => snd (deleteInvoice e id w)
  | OpMarkAsPaid id => snd (markAsPaid e id w)
  | OpSend id => snd (sendInvoice e id w)
  end.

Fixpoint run_operations (ops : list (Env * Operation)) (w : World) : World :=
  match ops with
  | [] => w
  | (e, op) :: ops' => run_operations ops' (run_operation e op w)
  end.

(** The invoices of the hook's state are rows of the store. *)
Definition listed_in_store (w : World) : Prop :=
  forall inv : Invoice, In inv (invoices w) ->
  exists r : InvoiceRow, In r (invoices_table (store w)) /\ inv_id r = inv_id inv.

(** The ids of the hook's state, in order. *)
Definition invoice_ids (w : World) : list string :=
  map (fun inv : Invoice => inv_id inv) (invoices w).

(** The sample environment with some requests refused. *)
Definition refusing (no : nat -> bool) (e : Env) : Env :=
  {| now_ms := now_ms e;
     now_iso := now_iso e;
     full_year := full_year e;
     origin := origin e;
     refused := no;
     db_now := db_now e;
     db_uuid := db_uuid e;
     db_number := db_number e;
     db_string := db_string e |}.

(** An environment whose third request (request 2, the item insert of
    [createInvoice]) is refused. *)
Definition env_items_refused : Env :=
  {| now_ms := fun _ => 1%N;
     now_iso := fun _ => "2026-03-01T09:00:00.000Z";
     full_year := 2026;
     origin := "https://invoicepro.example";
     refused := fun k => Nat.eqb k 2;
     db_now := fun _ => "2026-03-01T09:00:00.000Z";
     db_uuid := fun k => "id-" ++ toString (N.of_nat k);
     db_number := fun _ x => x;
     db_string := fun _ s => s |}.

(** Environments whose first request (request 0: the count of
    [generateInvoiceNumber], the update of [updateInvoice]) or second request
    (request 1: the select of [updateInvoice]) is refused. *)
Definition env_first_refused : Env := refusing (fun k => Nat.eqb k 0) env4.
Definition env_second_refused : Env := refusing (fun k => Nat.eqb k 1) env4.

(** An environment whose clock ticks once during the call, after the first
    [Date.now()]: millisecond 1000, then millisecond 1001. *)
Definition env_tick : Env :=
  {| now_ms := fun k => match k with 0%nat => 1000%N | _ => 1001%N end;
     now_iso := fun k => match k with
                         | 0%nat => "2026-03-05T09:00:01.000Z"
                         | _ => "2026-03-05T09:00:01.001Z"
                         end;
     full_year := 2026;
     origin := "https://invoicepro.example";
     refused := fun _ => false;
     db_now := fun _ => "2026-03-05T09:00:01.000Z";
     db_uuid := fun k => "00000000-0000-4000-8000-" ++ toString (N.of_nat k + 500000000000)%N;
     db_number := fun _ x => x;
     db_string := fun _ s => s |}.



(** An invoice that the page's [stats] counts under none of its three
    statuses: a draft, or an invoice without a status. *)
Definition uncounted (inv : Invoice) : bool :=
  match inv_status inv with
  | Some draft | None => true
  | _ => false
  end.

(** A form that passes [invoiceSchema], and one that does not (no client,
    no item name). *)
Definition sample_form : InvoiceFormData :=
  {| form_client_id := "mock-1";
     form_issue_date := "2026-03-02";
     form_due_date := "2026-04-01";
     form_items := [ {| form_item_name := "Design"; form_item_description := "";
                        form_item_quantity := 2%float; form_item_price := 100%float;
                        form_item_discount := 10%float |} ];
     form_discount := 5%float;
     form_tax_rate := 10%float;
     form_notes := "";
     form_terms := "Payment is due within 30 days of invoice date." |}.

Definition unfilled_form : InvoiceFormData :=
  {| form_client_id := "";
     form_issue_date := "2026-03-02";
     form_due_date := "2026-04-01";
     form_items := [blank_item];
     form_discount := 0%float;
     form_tax_rate := 10%float;
     form_notes := "";
     form_terms := "" |}.


(** The memo as the first render of the form leaves it: one blank item,
    no discount, a tax rate of 10. *)
Definition initial_calculations : Calculations := calculations_memo [blank_item] 0%float 10%float.

(** The memo of [sample_form], up to date. *)
Definition sample_calculations : Calculations :=
  calculations_memo (form_items sample_form) (form_discount sample_form)
    (form_tax_rate sample_form).
(* ================================================================= *)
(** * Properties *)

(** Two binary64 values that IEEE comparison tells apart are different. *)
Lemma float_eqb_false_neq (x y : float) : PrimFloat.eqb x y = false -> PrimFloat.eqb x x = true -> x <> y.
Proof.
  intros Hxy Hxx Heq. rewrite <- Heq in Hxy. congruence.
Qed.

Ltac float_neq := apply float_eqb_false_neq; vm_compute; reflexivity.

(* ================================================================= *)
(** ** The calculator in exact arithmetic *)

Section ExactCalculator.
Local Open Scope Q_scope.

Lemma discount_or_zero_exact (item : InvoiceItem Q) :
  discount_or_zero item == discount_of item.
Proof.
  unfold discount_or_zero, discount_of.
  destruct (discount item) as [d|]; [| reflexivity].
  cbn. destruct (Qeq_bool d 0) eqn:E; cbn; [| reflexivity].
  apply Qeq_bool_iff in E. now rewrite E.
Qed.

Lemma calculateItemTotal_exact (item : InvoiceItem Q) :
  calculateItemTotal item ==
  quantity item * price item * (1 - discount_of item / 100).
Proof.
  unfold calculateItemTotal. cbn.
  rewrite discount_or_zero_exact. field.
Qed.

Lemma calculateItemTotal_nonneg (item : InvoiceItem Q) :
  item_in_range item -> 0 <= calculateItemTotal item.
Proof.
  intros (Hq & Hp & Hd). rewrite calculateItemTotal_exact.
  assert (Hd' : 0 <= discount_of item <= 100).
  { unfold discount_of. destruct (discount item); [exact Hd | lra]. }
  apply Qmult_le_0_compat.
  - apply Qmult_le_0_compat; lra.
  - assert (discount_of item / 100 <= 1) by (apply Qle_shift_div_r; lra).
    lra.
Qed.

Lemma subtotal_acc (items : list (InvoiceItem Q)) (a : Q) :
  fold_left (fun sum item => sum + calculateItemTotal item) items a ==
  a + fold_left (fun sum item => sum + calculateItemTotal item) items 0.
Proof.
  revert a. induction items as [|x items IH]; intro a; cbn.
  - ring.
  - rewrite IH. rewrite (IH (0 + _)). ring.
Qed.

Lemma calculateInvoiceSubtotal_cons (x : InvoiceItem Q) (items : list (InvoiceItem Q)) :
  calculateInvoiceSubtotal (x :: items) ==
  calculateItemTotal x + calculateInvoiceSubtotal items.
Proof.
  unfold calculateInvoiceSubtotal. cbn. rewrite subtotal_acc. ring.
Qed.

Lemma calculateInvoiceSubtotal_perm (items items' : list (InvoiceItem Q)) :
  Permutation items items' ->
  calculateInvoiceSubtotal items == calculateInvoiceSubtotal items'.
Proof.
  induction 1 as [| x l l' _ IH | x y l | l l' l'' _ IH1 _ IH2].
  - reflexivity.
  - now rewrite !calculateInvoiceSubtotal_cons, IH.
  - rewrite !calculateInvoiceSubtotal_cons. ring.
  - now rewrite IH1.
Qed.

End ExactCalculator.

(** In any arithmetic, the subtotal is the left-to-right sum of the line
    amounts. *)
Lemma calculateInvoiceSubtotal_sum {N : Type} `{Number N} (items : list (InvoiceItem N)) :
  calculateInvoiceSubtotal items = sum_left (map calculateItemTotal items).
Proof.
  unfold calculateInvoiceSubtotal, sum_left.
  generalize num_zero as a.
  induction items as [|x items IH]; intro a; cbn; [reflexivity | apply IH].
Qed.

(** The scenarios of the specification, as the program computes them. *)
Example scenario_one_binary64 :
  let items := [mkItem 50%float 50%float (Some 0%float)] in
  let subtotal := calculateInvoiceSubtotal items in
  subtotal = 2500%float /\
  calculateInvoiceTotal subtotal 0%float 8.5%float =
  {| discountAmount := 0%float; taxAmount := 212.5%float; total := 2712.5%float |}.
Proof. split; reflexivity. Qed.

Example scenario_two_exact :
  let items := [mkItem 2 100 (Some 10)] in
  let subtotal := calculateInvoiceSubtotal items in
  let r := calculateInvoiceTotal subtotal 5 10 in
  (subtotal == 180 /\ discountAmount r == 9 /\ taxAmount r == 171 / 10 /\
   total r == 1881 / 10)%Q.
Proof. cbv. repeat split. Qed.

(** ** C1: the invoice total *)

(** C1, as amended.  For every subtotal [s], discount percentage [d] and tax
    rate [t], [calculateInvoiceTotal s d t] returns [discountAmount = (d/100)*s],
    [taxAmount = ((s - discountAmount)*t)/100] (the tax is computed on the
    discounted subtotal) and [total = (s - discountAmount) + taxAmount], every
    operation a binary64 operation; in exact arithmetic [discountAmount] is
    [s*d/100]. *)
Theorem calculateInvoiceTotal_spec :
  (forall s d t : float,
     let r := calculateInvoiceTotal s d t in
     discountAmount r = (d / 100 * s)%float /\
     taxAmount r = ((s - discountAmount r) * t / 100)%float /\
     total r = (s - discountAmount r + taxAmount r)%float) /\
  (forall s d t : Q,
     let r := calculateInvoiceTotal s d t in
     discountAmount r == s * d / 100 /\
     taxAmount r == (s - discountAmount r) * t / 100 /\
     total r == s - discountAmount r + taxAmount r)%Q.
Proof.
  split; intros s d t r.
  - repeat split.
  - subst r. cbn. repeat split; try reflexivity. field.
Qed.

(** C1 as stated fails on binary64 numbers: at [s = 3], [d = 7] the program
    computes [(7/100)*3 = 0.21000000000000002], and [3*7/100] is [0.21]. *)
Lemma calculateInvoiceTotal_discount_rounds :
  ~ (let r := calculateInvoiceTotal 3%float 7%float 0%float in
     discountAmount r = (3 * 7 / 100)%float /\
     taxAmount r = ((3 - discountAmount r) * 0 / 100)%float /\
     total r = (3 - discountAmount r + taxAmount r)%float).
Proof.
  intros [Hd _]. revert Hd. float_neq.
Qed.

(* ================================================================= *)
(** ** Rounding in binary64

    The operations of [PrimFloat] are specified by those of [SpecFloat]
    ([mul_spec], [div_spec], [sub_spec], [leb_spec]): a product, a quotient
    or a difference is computed exactly on mantissas and exponents and then
    rounded to nearest, ties to even, by [binary_round_aux].  The lemmas
    below bound what the rounding can do, as far as the sign of the line
    amount needs it. *)

Section Binary64Rounding.
Local Open Scope Z_scope.

(** *** Digits *)

Lemma digits2_pos_bounds (m : positive) :
  2 ^ (Zpos (digits2_pos m) - 1) <= Zpos m < 2 ^ Zpos (digits2_pos m).
Proof.
  induction m as [m IH | m IH |]; cbn [digits2_pos].
  - rewrite Pos2Z.inj_succ. replace (Z.succ (Zpos (digits2_pos m)) - 1) with (Zpos (digits2_pos m)) by lia.
    rewrite Z.pow_succ_r by lia.
    replace (2 ^ Zpos (digits2_pos m)) with (2 * 2 ^ (Zpos (digits2_pos m) - 1)) in *
      by (rewrite <- Z.pow_succ_r by lia; f_equal; lia).
    lia.
  - rewrite Pos2Z.inj_succ. replace (Z.succ (Zpos (digits2_pos m)) - 1) with (Zpos (digits2_pos m)) by lia.
    rewrite Z.pow_succ_r by lia.
    replace (2 ^ Zpos (digits2_pos m)) with (2 * 2 ^ (Zpos (digits2_pos m) - 1)) in *
      by (rewrite <- Z.pow_succ_r by lia; f_equal; lia).
    lia.
  - cbn. lia.
Qed.

Lemma Zdigits2_bounds (m : Z) :
  0 < m -> 2 ^ (Zdigits2 m - 1) <= m < 2 ^ Zdigits2 m.
Proof.
  destruct m as [|p|p]; try lia. intros _. apply digits2_pos_bounds.
Qed.

Lemma Zdigits2_nonneg (m : Z) : 0 <= Zdigits2 m.
Proof. destruct m; cbn; lia. Qed.

Lemma Zdigits2_pos (m : Z) : 0 < m -> 0 < Zdigits2 m.
Proof. destruct m; cbn; lia. Qed.

(** [m < 2^k] bounds the digits of [m]. *)
Lemma Zdigits2_le (m k : Z) : 0 < m -> 0 <= k -> m < 2 ^ k -> Zdigits2 m <= k.
Proof.
  intros Hm Hk Hlt. destruct (Zdigits2_bounds m Hm) as [Hlo _].
  destruct (Z.le_gt_cases (Zdigits2 m) k) as [H | H]; [exact H | exfalso].
  assert (2 ^ k <= 2 ^ (Zdigits2 m - 1)) by (apply Z.pow_le_mono_r; lia).
  lia.
Qed.

(** Comparing [m1 * 2^e1] with [m2 * 2^e2] bounds the magnitudes. *)
Lemma Zdigits2_mono (m1 m2 k : Z) :
  0 < m1 -> 0 < m2 -> 0 <= k -> m1 <= m2 * 2 ^ k -> Zdigits2 m1 <= Zdigits2 m2 + k.
Proof.
  intros H1 H2 Hk Hle.
  apply Zdigits2_le; [exact H1 | pose proof (Zdigits2_nonneg m2); lia |].
  destruct (Zdigits2_bounds m2 H2) as [_ Hhi].
  rewrite Z.pow_add_r by (pose proof (Zdigits2_nonneg m2); lia).
  assert (0 < 2 ^ k) by (apply Z.pow_pos_nonneg; lia).
  nia.
Qed.

(** *** Shifting right *)

Lemma shifted_nonneg (n : Z) (mrs mrs' : shr_record) :
  0 <= n -> 0 <= shr_m mrs -> shifted n mrs mrs' -> 0 <= shr_m mrs'.
Proof.
  intros Hn Hm [H _]. rewrite H. apply Z.div_pos; [exact Hm |].
  apply Z.pow_pos_nonneg; lia.
Qed.

Lemma shifted_0 (mrs : shr_record) : shifted 0 mrs mrs.
Proof.
  split.
  - now rewrite Z.pow_0_r, Z.div_1_r.
  - rewrite Z.pow_0_r, Z.mod_1_r. cbn. now rewrite orb_false_r.
Qed.

Lemma mod_mul_zero (m a b : Z) :
  0 <= m -> 0 < a -> 0 < b ->
  (m mod (a * b) =? 0) = (m mod a =? 0) && ((m / a) mod b =? 0).
Proof.
  intros Hm Ha Hb. rewrite Z.rem_mul_r by lia.
  pose proof (Z.mod_pos_bound m a Ha). pose proof (Z.mod_pos_bound (m / a) b Hb).
  destruct (Z.eqb_spec (m mod a) 0) as [E1 | E1];
    destruct (Z.eqb_spec ((m / a) mod b) 0) as [E2 | E2]; cbn;
    apply Z.eqb_eq || apply Z.eqb_neq; nia.
Qed.

Lemma shifted_trans (a b : Z) (x y z : shr_record) :
  0 <= a -> 0 <= b -> 0 <= shr_m x ->
  shifted a x y -> shifted b y z -> shifted (a + b) x z.
Proof.
  intros Ha Hb Hx [Hy1 Hy2] [Hz1 Hz2].
  assert (Hpa : 0 < 2 ^ a) by (apply Z.pow_pos_nonneg; lia).
  assert (Hpb : 0 < 2 ^ b) by (apply Z.pow_pos_nonneg; lia).
  split.
  - rewrite Hz1, Hy1, Z.pow_add_r, Z.div_div by lia. reflexivity.
  - rewrite Hz2, Hy2, Hy1, Z.pow_add_r by lia.
    rewrite (mod_mul_zero (shr_m x) (2 ^ a) (2 ^ b)) by lia.
    rewrite negb_andb. now rewrite orb_assoc.
Qed.

Lemma shr_1_shifted (mrs : shr_record) : 0 <= shr_m mrs -> shifted 1 mrs (shr_1 mrs).
Proof.
  destruct mrs as [m r s]. cbn [shr_m]. intro Hm. unfold shifted, inexact.
  change (2 ^ 1) with 2.
  destruct m as [| [p | p |] | p]; cbn [shr_1 shr_m shr_r shr_s]; try lia.
  - split; [reflexivity |]. cbn. now rewrite orb_false_r, orb_comm.
  - split.
    + rewrite Pos2Z.inj_xI. apply (Z.div_unique _ 2 _ 1); lia.
    + replace (Zpos p~1 mod 2) with 1
        by (rewrite Pos2Z.inj_xI; apply (Z.mod_unique _ 2 (Zpos p) 1); lia).
      cbn. now rewrite orb_true_r.
  - split.
    + rewrite Pos2Z.inj_xO. apply (Z.div_unique _ 2 _ 0); lia.
    + replace (Zpos p~0 mod 2) with 0
        by (rewrite Pos2Z.inj_xO; apply (Z.mod_unique _ 2 (Zpos p) 0); lia).
      cbn. now rewrite orb_false_r, orb_comm.
  - split; [reflexivity |]. cbn. now rewrite orb_true_r.
Qed.

Lemma iter_pos_shifted (p : positive) (mrs : shr_record) :
  0 <= shr_m mrs -> shifted (Zpos p) mrs (iter_pos shr_1 p mrs).
Proof.
  revert mrs. induction p as [p IH | p IH |]; intros mrs Hm; cbn [iter_pos].
  - pose proof (shr_1_shifted mrs Hm) as H1.
    assert (Hm1 : 0 <= shr_m (shr_1 mrs)) by (apply (shifted_nonneg 1 mrs); [lia | exact Hm | exact H1]).
    pose proof (IH _ Hm1) as H2.
    assert (Hm2 : 0 <= shr_m (iter_pos shr_1 p (shr_1 mrs)))
      by (apply (shifted_nonneg (Zpos p) (shr_1 mrs)); [lia | exact Hm1 | exact H2]).
    pose proof (IH _ Hm2) as H3.
    replace (Zpos p~1) with (1 + (Zpos p + Zpos p)) by lia.
    apply (shifted_trans 1 (Zpos p + Zpos p) mrs (shr_1 mrs)); [lia | lia | exact Hm | exact H1 |].
    apply (shifted_trans (Zpos p) (Zpos p) _ (iter_pos shr_1 p (shr_1 mrs))); [lia | lia | exact Hm1 | exact H2 | exact H3].
  - pose proof (IH _ Hm) as H2.
    assert (Hm2 : 0 <= shr_m (iter_pos shr_1 p mrs))
      by (apply (shifted_nonneg (Zpos p) mrs); [lia | exact Hm | exact H2]).
    pose proof (IH _ Hm2) as H3.
    replace (Zpos p~0) with (Zpos p + Zpos p) by lia.
    apply (shifted_trans (Zpos p) (Zpos p) mrs (iter_pos shr_1 p mrs)); [lia | lia | exact Hm | exact H2 | exact H3].
  - now apply shr_1_shifted.
Qed.

(** [shr] shifts by [n] when [n] is positive, and not at all otherwise. *)
Lemma shr_shifted (mrs : shr_record) (e n : Z) :
  0 <= shr_m mrs ->
  exists mrs' : shr_record,
    shr mrs e n = (mrs', e + Z.max n 0) /\ shifted (Z.max n 0) mrs mrs'.
Proof.
  intro Hm. destruct n as [| p | p]; cbn [shr].
  - exists mrs. split; [f_equal; lia | apply shifted_0].
  - exists (iter_pos shr_1 p mrs). split; [f_equal; lia |].
    replace (Z.max (Zpos p) 0) with (Zpos p) by lia. now apply iter_pos_shifted.
  - exists mrs. split; [f_equal; lia |].
    replace (Z.max (Zneg p) 0) with 0 by lia. apply shifted_0.
Qed.

Lemma inexact_of_loc (m : Z) (l : location) :
  shr_m (shr_record_of_loc m l) = m /\
  (inexact (shr_record_of_loc m l) = false <-> l = loc_Exact).
Proof.
  destruct l as [| []]; cbn; repeat split; congruence.
Qed.

Lemma exact_loc_of_shr (mrs : shr_record) :
  inexact mrs = false -> loc_of_shr_record mrs = loc_Exact.
Proof. destruct mrs as [m [] []]; cbn; congruence. Qed.

Lemma round_nearest_even_bounds (m : Z) (l : location) :
  m <= round_nearest_even m l <= m + 1 /\ round_nearest_even m loc_Exact = m.
Proof.
  split; [| reflexivity].
  destruct l as [| []]; cbn [round_nearest_even]; try lia.
  destruct (Z.even m); lia.
Qed.

(** *** Rounding to nearest *)

Lemma fexp_eq (z : Z) : fexp prec emax z = Z.max (z - 53) (-1074).
Proof. reflexivity. Qed.

Lemma fexp_mono (z z' : Z) : z <= z' -> fexp prec emax z <= fexp prec emax z'.
Proof. rewrite !fexp_eq. lia. Qed.

Lemma bounded_canonical (m : positive) (e : Z) :
  bounded prec emax m e = true ->
  fexp prec emax (Zpos (digits2_pos m) + e) = e /\ e <= 971.
Proof.
  unfold bounded, canonical_mantissa. intro H. apply andb_true_iff in H as [H1 H2].
  apply Z.eqb_eq in H1. apply Z.leb_le in H2. split; [exact H1 | exact H2].
Qed.

(** The result of a rounding has the sign it was given and is no [NaN]. *)
Lemma binary_round_aux_sign (sx : bool) (m e : Z) (l : location) :
  0 <= m ->
  binary_round_aux prec emax sx m e l = S754_zero sx \/
  binary_round_aux prec emax sx m e l = S754_infinity sx \/
  exists (m' : positive) (e' : Z), binary_round_aux prec emax sx m e l = S754_finite sx m' e'.
Proof.
  intro Hm. unfold binary_round_aux, shr_fexp.
  destruct (inexact_of_loc m l) as [Hrec _].
  destruct (shr_shifted (shr_record_of_loc m l) e (fexp prec emax (Zdigits2 m + e) - e))
    as (mrs1 & -> & Hs1); [now rewrite Hrec |].
  assert (H1 : 0 <= shr_m mrs1).
  { eapply shifted_nonneg; [| | exact Hs1]; [apply Z.le_max_r | now rewrite Hrec]. }
  set (mr := round_nearest_even (shr_m mrs1) (loc_of_shr_record mrs1)).
  assert (Hr : 0 <= mr) by (pose proof (round_nearest_even_bounds (shr_m mrs1) (loc_of_shr_record mrs1)); subst mr; lia).
  set (e1 := e + Z.max (fexp prec emax (Zdigits2 m + e) - e) 0).
  destruct (shr_shifted (shr_record_of_loc mr loc_Exact) e1 (fexp prec emax (Zdigits2 mr + e1) - e1))
    as (mrs2 & -> & Hs2); [exact Hr |].
  assert (H2 : 0 <= shr_m mrs2).
  { eapply shifted_nonneg; [| | exact Hs2]; [apply Z.le_max_r | exact Hr]. }
  destruct (shr_m mrs2) as [| p | p]; [now left | | lia].
  right. destruct (Z.leb _ _); [right; eexists; eexists; reflexivity | now left].
Qed.

(** Rounding stays below a representable bound: when the value [m * 2^e]
    (exact, or exceeded by less than [2^e]) is at most the float
    [mb * 2^eb], so is the rounded value, which is then finite. *)
Lemma binary_round_aux_le (sx : bool) (m e : Z) (l : location) (mb : positive) (eb : Z) :
  0 <= m ->
  e <= fexp prec emax (Zdigits2 m + e) ->
  fexp prec emax (Zdigits2 m + e) <= eb ->
  bounded prec emax mb eb = true ->
  m < Zpos mb * 2 ^ (eb - e) \/ (m = Zpos mb * 2 ^ (eb - e) /\ l = loc_Exact) ->
  binary_round_aux prec emax sx m e l = S754_zero sx \/
  exists (m' : positive) (e' : Z),
    binary_round_aux prec emax sx m e l = S754_finite sx m' e' /\
    e' <= eb /\ Zpos m' <= Zpos mb * 2 ^ (eb - e').
Proof.
  intros Hm He He1 Hb Hle.
  destruct (bounded_canonical mb eb Hb) as [Hcan Hmax].
  unfold binary_round_aux, shr_fexp.
  set (e1 := fexp prec emax (Zdigits2 m + e)) in *.
  destruct (inexact_of_loc m l) as [Hrec Hex].
  destruct (shr_shifted (shr_record_of_loc m l) e (e1 - e)) as (mrs1 & -> & Hs1);
    [now rewrite Hrec |].
  replace (Z.max (e1 - e) 0) with (e1 - e) in * by lia.
  replace (e + (e1 - e)) with e1 by lia.
  destruct Hs1 as [Hm1 Hi1]. rewrite Hrec in Hm1, Hi1.
  set (n1 := e1 - e) in *.
  assert (Hp1 : 0 < 2 ^ n1) by (apply Z.pow_pos_nonneg; lia).
  set (K := Zpos mb * 2 ^ (eb - e1)).
  assert (HK : Zpos mb * 2 ^ (eb - e) = K * 2 ^ n1).
  { subst K n1. rewrite <- Z.mul_assoc, <- Z.pow_add_r by lia. do 2 f_equal. lia. }
  rewrite HK in Hle.
  assert (HK0 : 0 < K).
  { subst K. apply Z.mul_pos_pos; [lia | apply Z.pow_pos_nonneg; lia]. }
  set (mr := round_nearest_even (shr_m mrs1) (loc_of_shr_record mrs1)).
  assert (Hmr : 0 <= mr <= K).
  { pose proof (round_nearest_even_bounds (shr_m mrs1) (loc_of_shr_record mrs1)) as [Hb1 _].
    fold mr in Hb1.
    assert (Hfl0 : 0 <= shr_m mrs1) by (rewrite Hm1; apply Z.div_pos; lia).
    assert (Hfl : shr_m mrs1 <= K).
    { rewrite Hm1. apply Z.div_le_upper_bound; [lia |]. lia. }
    split; [lia |].
    destruct (Z.eq_dec (shr_m mrs1) K) as [E | E]; [| lia].
    assert (Hge : K * 2 ^ n1 <= m).
    { rewrite <- E, Hm1. rewrite Z.mul_comm. apply Z.mul_div_le. lia. }
    destruct Hle as [Hlt | [Heq Hl]]; [lia |].
    assert (Hmod : m mod 2 ^ n1 = 0).
    { rewrite Heq. apply Z.mod_mul. lia. }
    assert (Hexact : inexact mrs1 = false).
    { rewrite Hi1, Hmod. cbn. rewrite orb_false_r. now apply Hex. }
    subst mr. rewrite (exact_loc_of_shr _ Hexact). cbn [round_nearest_even]. lia. }
  destruct (shr_shifted (shr_record_of_loc mr loc_Exact) e1 (fexp prec emax (Zdigits2 mr + e1) - e1))
    as (mrs2 & -> & Hs2); [cbn; lia |].
  destruct Hs2 as [Hm2 _]. cbn [shr_record_of_loc shr_m] in Hm2.
  set (k := Z.max (fexp prec emax (Zdigits2 mr + e1) - e1) 0) in *.
  assert (Hk : 0 <= k) by (subst k; lia).
  assert (Hpk : 0 < 2 ^ k) by (apply Z.pow_pos_nonneg; lia).
  assert (Hm2' : 0 <= shr_m mrs2) by (rewrite Hm2; apply Z.div_pos; lia).
  destruct (shr_m mrs2) as [| p | p] eqn:Ep; [now left | | lia].
  right.
  assert (Hmr0 : 0 < mr).
  { destruct (Z.eq_dec mr 0) as [E | E]; [| lia].
    rewrite E, Z.div_0_l in Hm2 by lia. discriminate. }
  assert (He2 : e1 + k <= eb).
  { subst k. destruct (Z.max_spec (fexp prec emax (Zdigits2 mr + e1) - e1) 0) as [[_ ->] | [_ ->]];
      [lia |].
    replace (e1 + (fexp prec emax (Zdigits2 mr + e1) - e1)) with (fexp prec emax (Zdigits2 mr + e1)) by lia.
    rewrite <- Hcan. apply fexp_mono.
    assert (Zdigits2 mr <= Zdigits2 (Zpos mb) + (eb - e1)).
    { apply Zdigits2_mono; [lia | lia | lia | exact (proj2 Hmr)]. }
    cbn [Zdigits2] in *. lia. }
  replace (Z.leb (e1 + k) (emax - prec)) with true
    by (symmetry; apply Z.leb_le; change (emax - prec) with 971; lia).
  exists p, (e1 + k). split; [reflexivity |]. split; [exact He2 |].
  assert (Hv : Zpos p * 2 ^ k <= mr).
  { rewrite Hm2. rewrite Z.mul_comm. apply Z.mul_div_le. lia. }
  assert (HK2 : K = Zpos mb * 2 ^ (eb - (e1 + k)) * 2 ^ k).
  { subst K. rewrite <- Z.mul_assoc, <- Z.pow_add_r by lia. do 2 f_equal. lia. }
  assert (0 < 2 ^ (eb - (e1 + k))) by (apply Z.pow_pos_nonneg; lia).
  nia.
Qed.

(** *** Floats that are finite and not negative *)

Lemma bounded_digits (m : positive) (e : Z) :
  bounded prec emax m e = true ->
  -1074 <= e <= 971 /\ Zpos (digits2_pos m) <= 53 /\
  (e = -1074 \/ Zpos (digits2_pos m) = 53).
Proof.
  intro H. destruct (bounded_canonical m e H) as [Hc Hmax].
  rewrite fexp_eq in Hc. lia.
Qed.

Lemma bounded_lt (m : positive) (e : Z) :
  bounded prec emax m e = true -> Zpos m < 2 ^ 53.
Proof.
  intro H. destruct (bounded_digits m e H) as (_ & Hd & _).
  destruct (digits2_pos_bounds m) as [_ Hhi].
  assert (2 ^ Zpos (digits2_pos m) <= 2 ^ 53) by (apply Z.pow_le_mono_r; lia).
  lia.
Qed.

Lemma bounded_normal (m : positive) (e : Z) :
  bounded prec emax m e = true -> -1074 < e -> 2 ^ 52 <= Zpos m.
Proof.
  intros H He. destruct (bounded_digits m e H) as (_ & _ & [Hd | Hd]); [lia |].
  destruct (digits2_pos_bounds m) as [Hlo _]. rewrite Hd in Hlo. exact Hlo.
Qed.

(** The order of two such floats is the order of their values. *)
Lemma SFleb_value (m1 : positive) (e1 : Z) (m2 : positive) (e2 : Z) :
  bounded prec emax m1 e1 = true -> bounded prec emax m2 e2 = true ->
  SFleb (S754_finite false m1 e1) (S754_finite false m2 e2) = true ->
  e1 <= e2 /\ Zpos m1 <= Zpos m2 * 2 ^ (e2 - e1).
Proof.
  intros H1 H2. unfold SFleb, SFcompare.
  destruct (Z.compare_spec e1 e2) as [E | E | E].
  - subst e2. rewrite Z.sub_diag, Z.pow_0_r, Z.mul_1_r.
    change (Pos.compare_cont Eq m1 m2) with (Pos.compare m1 m2).
    destruct (Pos.compare_spec m1 m2) as [Em | Em | Em]; intro H; try discriminate; lia.
  - intros _. split; [lia |].
    pose proof (bounded_lt m1 e1 H1) as Hlt.
    destruct (bounded_digits m1 e1 H1) as (He1 & _ & _).
    assert (Hn : 2 ^ 52 <= Zpos m2) by (apply (bounded_normal m2 e2 H2); lia).
    assert (Hp : 2 ^ 1 <= 2 ^ (e2 - e1)) by (apply Z.pow_le_mono_r; lia).
    change (2 ^ 53) with (2 ^ 52 * 2 ^ 1) in Hlt. nia.
  - discriminate.
Qed.

Lemma Zdigits2_ge (m k : Z) : 0 < m -> 2 ^ (k - 1) <= m -> k <= Zdigits2 m.
Proof.
  intros Hm Hk. destruct (Zdigits2_bounds m Hm) as [_ Hhi].
  destruct (Z.le_gt_cases k (Zdigits2 m)) as [H | H]; [exact H | exfalso].
  assert (2 ^ Zdigits2 m <= 2 ^ (k - 1)).
  { apply Z.pow_le_mono_r; [lia |]. lia. }
  lia.
Qed.

Lemma div_eucl_div_mod (a b : Z) : Z.div_eucl a b = (a / b, a mod b).
Proof. unfold Z.div, Z.modulo. now destruct (Z.div_eucl a b). Qed.

Lemma new_location_exact (nb_steps : Z) : new_location nb_steps 0 = loc_Exact.
Proof.
  unfold new_location, new_location_even, new_location_odd.
  now destruct (Z.even nb_steps).
Qed.

(** A quotient of a float by a float it does not exceed is at most 1. *)
Lemma SFdiv_le_one (m1 : positive) (e1 : Z) (m2 : positive) (e2 : Z) :
  bounded prec emax m1 e1 = true -> bounded prec emax m2 e2 = true ->
  e1 <= e2 -> Zpos m1 <= Zpos m2 * 2 ^ (e2 - e1) ->
  let x := SFdiv prec emax (S754_finite false m1 e1) (S754_finite false m2 e2) in
  x = S754_zero false \/
  exists (mx : positive) (ex : Z),
    x = S754_finite false mx ex /\ ex <= -52 /\ Zpos mx <= 2 ^ (- ex).
Proof.
  intros H1 H2 He Hle. cbn [SFdiv xorb]. unfold SFdiv_core_binary.
  cbn [Zdigits2].
  set (d1 := Zpos (digits2_pos m1)). set (d2 := Zpos (digits2_pos m2)).
  set (e' := Z.min (fexp prec emax (d1 + e1 - (d2 + e2))) (e1 - e2)).
  set (s := e1 - e2 - e').
  assert (Hs : 0 <= s) by (subst s e'; lia).
  assert (He' : e' <= -52).
  { assert (Hd : Zdigits2 (Zpos m1) <= Zdigits2 (Zpos m2) + (e2 - e1))
      by (apply Zdigits2_mono; lia).
    cbn [Zdigits2] in Hd. fold d1 d2 in Hd.
    assert (fexp prec emax (d1 + e1 - (d2 + e2)) <= -52) by (rewrite fexp_eq; lia).
    subst e'. lia. }
  set (m' := match s with Zpos _ => Z.shiftl (Zpos m1) s | Z0 => Zpos m1 | Zneg _ => 0 end).
  assert (Hm' : m' = Zpos m1 * 2 ^ s).
  { subst m'. destruct s as [| p | p] eqn:Es.
    - now rewrite Z.pow_0_r, Z.mul_1_r.
    - apply Z.shiftl_mul_pow2. lia.
    - lia. }
  rewrite div_eucl_div_mod.
  set (q := m' / Zpos m2). set (r := m' mod Zpos m2).
  assert (Hps : 0 < 2 ^ s) by (apply Z.pow_pos_nonneg; lia).
  assert (Hm'0 : 0 < m') by (rewrite Hm'; lia).
  assert (Hq0 : 0 <= q) by (subst q; apply Z.div_pos; lia).
  assert (Hpe : 0 < 2 ^ (- e')) by (apply Z.pow_pos_nonneg; lia).
  assert (Hbound : m' <= Zpos m2 * 2 ^ (- e')).
  { rewrite Hm'. replace (- e') with ((e2 - e1) + s) by (subst s; lia).
    rewrite Z.pow_add_r by lia. nia. }
  assert (Hq : q <= 2 ^ (- e')).
  { subst q. apply Z.div_le_upper_bound; [lia | exact Hbound]. }
  destruct (digits2_pos_bounds m1) as [Hlo1 Hhi1]. fold d1 in Hlo1, Hhi1.
  destruct (digits2_pos_bounds m2) as [Hlo2 Hhi2]. fold d2 in Hlo2, Hhi2.
  assert (Hd1 : 0 < d1) by (subst d1; lia). assert (Hd2 : 0 < d2) by (subst d2; lia).
  assert (Hdq : d1 + s - d2 <= Zdigits2 q).
  { destruct (Z.le_gt_cases (d1 + s - d2) 0) as [Hk | Hk];
      [pose proof (Zdigits2_nonneg q); lia |].
    assert (Hqk : 2 ^ (d1 + s - d2 - 1) <= q).
    { subst q. apply Z.div_le_lower_bound; [lia |].
      rewrite Hm'.
      assert (2 ^ (d1 + s - d2 - 1) * 2 ^ d2 = 2 ^ (d1 - 1) * 2 ^ s).
      { rewrite <- !Z.pow_add_r by lia. f_equal. lia. }
      assert (0 < 2 ^ (d1 + s - d2 - 1)) by (apply Z.pow_pos_nonneg; lia).
      nia. }
    apply Zdigits2_ge; [| exact Hqk].
    assert (0 < 2 ^ (d1 + s - d2 - 1)) by (apply Z.pow_pos_nonneg; lia). lia. }
  assert (Hdq' : Zdigits2 q + e' <= 1).
  { destruct (Z.eq_dec q 0) as [-> | Hne]; [cbn; lia |].
    assert (Zdigits2 q <= - e' + 1); [| lia].
    apply Zdigits2_le; [lia | lia |].
    rewrite Z.pow_add_r by lia. change (2 ^ 1) with 2. lia. }
  destruct (binary_round_aux_le false q e' (new_location (Zpos m2) r) 4503599627370496 (-52))
    as [Hz | (mx & ex & Hx & Hex & Hmx)].
  - exact Hq0.
  - apply Z.le_trans with (fexp prec emax (d1 + e1 - (d2 + e2))); [subst e'; lia |].
    apply fexp_mono. subst s. lia.
  - rewrite fexp_eq. lia.
  - reflexivity.
  - replace (4503599627370496 * 2 ^ (-52 - e')) with (2 ^ (- e')).
    + destruct (Z.eq_dec q (2 ^ (- e'))) as [E | E]; [right | left; lia].
      split; [exact E |].
      assert (Hr : r = 0).
      { pose proof (Z.div_mod m' (Zpos m2) ltac:(lia)) as Hdm. fold q r in Hdm.
        pose proof (Z.mod_pos_bound m' (Zpos m2) ltac:(lia)) as Hrb. fold r in Hrb.
        rewrite E in Hdm. lia. }
      rewrite Hr. apply new_location_exact.
    + change 4503599627370496 with (2 ^ 52). rewrite <- Z.pow_add_r by lia. f_equal. lia.
  - now left.
  - right. exists mx, ex. split; [exact Hx |]. split; [exact Hex |].
    replace (2 ^ (- ex)) with (4503599627370496 * 2 ^ (-52 - ex)); [exact Hmx |].
    change 4503599627370496 with (2 ^ 52). rewrite <- Z.pow_add_r by lia. f_equal. lia.
Qed.

(** A product of a float by a factor of at most 1 does not exceed it. *)
Lemma SFmul_le (mx : positive) (ex : Z) (ms : positive) (es : Z) :
  bounded prec emax mx ex = true -> bounded prec emax ms es = true ->
  ex <= -52 -> Zpos mx <= 2 ^ (- ex) ->
  let y := SFmul prec emax (S754_finite false mx ex) (S754_finite false ms es) in
  y = S754_zero false \/
  exists (my : positive) (ey : Z),
    y = S754_finite false my ey /\ ey <= es /\ Zpos my <= Zpos ms * 2 ^ (es - ey).
Proof.
  intros Hx Hs Hex Hmx. cbn [SFmul xorb].
  destruct (bounded_digits mx ex Hx) as (Hex' & Hdx & Hnx).
  destruct (bounded_digits ms es Hs) as (Hes' & Hds & Hns).
  destruct (bounded_canonical ms es Hs) as [Hcan _].
  destruct (digits2_pos_bounds mx) as [Hlox Hhix].
  destruct (digits2_pos_bounds ms) as [Hlos Hhis].
  set (dx := Zpos (digits2_pos mx)) in *. set (ds := Zpos (digits2_pos ms)) in *.
  assert (Hdx0 : 0 < dx) by (subst dx; lia). assert (Hds0 : 0 < ds) by (subst ds; lia).
  set (M := Zpos (mx * ms)).
  assert (HM : M = Zpos mx * Zpos ms) by (subst M; apply Pos2Z.inj_mul).
  assert (Hpe : 0 < 2 ^ (- ex)) by (apply Z.pow_pos_nonneg; lia).
  assert (HMle : M <= Zpos ms * 2 ^ (- ex)) by (rewrite HM; nia).
  assert (HdM1 : dx + ds - 1 <= Zdigits2 M).
  { apply Zdigits2_ge; [subst M; lia |]. rewrite HM.
    replace (dx + ds - 1 - 1) with ((dx - 1) + (ds - 1)) by lia.
    rewrite Z.pow_add_r by lia.
    assert (0 < 2 ^ (dx - 1)) by (apply Z.pow_pos_nonneg; lia).
    assert (0 < 2 ^ (ds - 1)) by (apply Z.pow_pos_nonneg; lia).
    nia. }
  assert (HdM2 : Zdigits2 M <= ds + (- ex)).
  { change ds with (Zdigits2 (Zpos ms)). apply Zdigits2_mono; [subst M; lia | lia | lia | exact HMle]. }
  destruct (binary_round_aux_le false M (ex + es) loc_Exact ms es)
    as [Hz | (my & ey & Hy & Hey & Hmy)].
  - subst M. lia.
  - rewrite fexp_eq. lia.
  - rewrite <- Hcan. apply fexp_mono. fold ds. lia.
  - exact Hs.
  - replace (es - (ex + es)) with (- ex) by lia.
    destruct (Z.eq_dec M (Zpos ms * 2 ^ (- ex))) as [E | E]; [right; now split | left; lia].
  - now left.
  - right. now exists my, ey.
Qed.

Lemma Pos_iter_xO (m d : positive) : Zpos (Pos.iter xO m d) = Zpos m * 2 ^ Zpos d.
Proof.
  induction d as [| d IH] using Pos.peano_ind.
  - cbn. lia.
  - rewrite Pos.iter_succ, Pos2Z.inj_xO, IH, Pos2Z.inj_succ, Z.pow_succ_r by lia. lia.
Qed.

(** A float less a float it is not below is not negative. *)
Lemma SFsub_nonneg (ms : positive) (es : Z) (my : positive) (ey : Z) :
  ey <= es -> Zpos my <= Zpos ms * 2 ^ (es - ey) ->
  let r := SFsub prec emax (S754_finite false ms es) (S754_finite false my ey) in
  r = S754_zero false \/ r = S754_infinity false \/
  exists (mr : positive) (er : Z), r = S754_finite false mr er.
Proof.
  intros He Hle. cbn [SFsub cond_Zopp].
  replace (Z.min es ey) with ey by lia.
  assert (Hs : Zpos (fst (shl_align ms es ey)) = Zpos ms * 2 ^ (es - ey)).
  { unfold shl_align. destruct (ey - es) as [| d | d] eqn:Ed; cbn [fst].
    - replace (es - ey) with 0 by lia. now rewrite Z.pow_0_r, Z.mul_1_r.
    - lia.
    - rewrite Pos_iter_xO. do 2 f_equal. lia. }
  assert (Hy : fst (shl_align my ey ey) = my).
  { unfold shl_align. now rewrite Z.sub_diag. }
  rewrite Hs, Hy.
  destruct (Zpos ms * 2 ^ (es - ey) - Zpos my) as [| z | z] eqn:Ez; [now left | | lia].
  cbn [binary_normalize]. unfold binary_round.
  destruct (shl_align z ey (fexp prec emax (Zpos (digits2_pos z) + ey))) as [mz ez].
  apply binary_round_aux_sign. lia.
Qed.

(** *** The line amount on binary64 numbers *)

Lemma valid_bounded (x : float) (s : bool) (m : positive) (e : Z) :
  Prim2SF x = S754_finite s m e -> bounded prec emax m e = true.
Proof. intro H. pose proof (Prim2SF_valid x) as Hv. now rewrite H in Hv. Qed.

(** A float that is at least 1 is a finite positive float or [+Infinity]. *)
Lemma leb_one_form (q : float) :
  PrimFloat.leb 1 q = true ->
  (exists (m : positive) (e : Z), Prim2SF q = S754_finite false m e) \/
  Prim2SF q = S754_infinity false.
Proof.
  rewrite leb_spec. change (Prim2SF 1) with (S754_finite false 4503599627370496 (-52)).
  destruct (Prim2SF q) as [s | [|] | | [|] m e]; cbn; try discriminate; eauto.
Qed.

(** A float that is at least 0 is a zero, a finite positive float or
    [+Infinity]. *)
Lemma leb_zero_form (p : float) :
  PrimFloat.leb 0 p = true ->
  (exists s : bool, Prim2SF p = S754_zero s) \/
  (exists (m : positive) (e : Z), Prim2SF p = S754_finite false m e) \/
  Prim2SF p = S754_infinity false.
Proof.
  rewrite leb_spec. change (Prim2SF 0) with (S754_zero false).
  destruct (Prim2SF p) as [s | [|] | | [|] m e]; cbn; try discriminate; eauto.
Qed.

Lemma leb_zero_of_form (r : float) :
  (exists s : bool, Prim2SF r = S754_zero s) \/
  Prim2SF r = S754_infinity false \/
  (exists (m : positive) (e : Z), Prim2SF r = S754_finite false m e) ->
  PrimFloat.leb 0 r = true.
Proof.
  rewrite leb_spec. change (Prim2SF 0) with (S754_zero false).
  intros [(s & ->) | [-> | (m & e & ->)]]; reflexivity.
Qed.

(** A finite float is a zero or has a mantissa and an exponent. *)
Lemma is_finite_form (x : float) :
  PrimFloat.is_finite x = true ->
  (exists s : bool, Prim2SF x = S754_zero s) \/
  (exists (s : bool) (m : positive) (e : Z), Prim2SF x = S754_finite s m e).
Proof.
  unfold is_finite, is_nan, is_infinity. rewrite !eqb_spec, abs_spec.
  change (Prim2SF infinity) with (S754_infinity false).
  destruct (Prim2SF x) as [s | [|] | | s m e]; cbn; try discriminate; eauto.
Qed.

(** The product of a float that is at least 1 and a float that is at least
    0, when it is finite, is a zero or a finite positive float. *)
Lemma mul_nonneg_form (q p : float) :
  PrimFloat.leb 1 q = true -> PrimFloat.leb 0 p = true ->
  PrimFloat.is_finite (q * p) = true ->
  (exists s : bool, Prim2SF (q * p) = S754_zero s) \/
  (exists (m : positive) (e : Z), Prim2SF (q * p) = S754_finite false m e).
Proof.
  intros Hq Hp Hf. apply is_finite_form in Hf. revert Hf. rewrite mul_spec. unfold SF64mul.
  destruct (leb_one_form q Hq) as [(mq & eq & ->) | ->];
    destruct (leb_zero_form p Hp) as [(sp & ->) | [(mp & ep & ->) | ->]]; cbn [SFmul xorb].
  - intros _. left. eauto.
  - destruct (binary_round_aux_sign false (Zpos (mq * mp)) (eq + ep) loc_Exact ltac:(lia))
      as [-> | [-> | (m & e & ->)]].
    + intros _. left. eauto.
    + intros [(s & H) | (s & m & e & H)]; discriminate.
    + intros _. right. eauto.
  - intros [(s & H) | (s & m & e & H)]; discriminate.
  - intros [(s & H) | (s & m & e & H)]; discriminate.
  - intros [(s & H) | (s & m & e & H)]; discriminate.
  - intros [(s & H) | (s & m & e & H)]; discriminate.
Qed.

(** A hundredth of a float between 0 and 100 is a zero or a finite positive
    float that is at most 1. *)
Lemma div_hundred_form (d : float) :
  PrimFloat.leb 0 d = true -> PrimFloat.leb d 100 = true ->
  (exists s : bool, Prim2SF (d / 100) = S754_zero s) \/
  (exists (m : positive) (e : Z),
     Prim2SF (d / 100) = S754_finite false m e /\ e <= -52 /\ Zpos m <= 2 ^ (- e)).
Proof.
  intros H0 H100. rewrite div_spec. unfold SF64div.
  change (Prim2SF 100) with (S754_finite false 7036874417766400 (-46)).
  rewrite leb_spec in H100.
  change (Prim2SF 100) with (S754_finite false 7036874417766400 (-46)) in H100.
  destruct (leb_zero_form d H0) as [(sd & Hd) | [(md & ed & Hd) | Hd]].
  - rewrite Hd. cbn [SFdiv]. left. eauto.
  - pose proof (valid_bounded d false md ed Hd) as Hb. rewrite Hd in *.
    destruct (SFleb_value md ed 7036874417766400 (-46) Hb eq_refl H100) as [He Hm].
    destruct (SFdiv_le_one md ed 7036874417766400 (-46) Hb eq_refl He Hm)
      as [-> | (mx & ex & -> & Hex & Hmx)].
    + left. eauto.
    + right. now exists mx, ex.
  - rewrite Hd in H100. discriminate.
Qed.

(** On binary64 numbers, for a quantity of at least 1, a price of at least 0
    and a discount between 0 and 100, the line amount is at least 0 whenever
    [quantity * price] is finite. *)
Lemma line_amount_nonneg (q p d : float) :
  PrimFloat.leb 1 q = true -> PrimFloat.leb 0 p = true ->
  PrimFloat.leb 0 d = true -> PrimFloat.leb d 100 = true ->
  PrimFloat.is_finite (q * p) = true ->
  PrimFloat.leb 0 (q * p - d / 100 * (q * p)) = true.
Proof.
  intros Hq Hp Hd0 Hd100 Hf.
  set (s := (q * p)%float) in *. set (x := (d / 100)%float).
  apply leb_zero_of_form. rewrite sub_spec, mul_spec. unfold SF64sub, SF64mul.
  destruct (mul_nonneg_form q p Hq Hp Hf) as [(ss & Hs) | (ms & es & Hs)]; fold s in Hs;
    destruct (div_hundred_form d Hd0 Hd100) as [(sx & Hx) | (mx & ex & Hx & Hex & Hmx)];
    fold x in Hx; rewrite Hs, Hx; cbn [SFmul xorb].
  - left. destruct ss, sx; cbn; eauto.
  - left. destruct ss; cbn; eauto.
  - right. right. cbn [SFsub]. eauto.
  - pose proof (valid_bounded s false ms es Hs) as Hbs.
    pose proof (valid_bounded x false mx ex Hx) as Hbx.
    destruct (SFmul_le mx ex ms es Hbx Hbs Hex Hmx) as [Hy | (my & ey & Hy & Hey & Hmy)];
      cbn [SFmul xorb] in Hy; rewrite Hy.
    + right. right. cbn [SFsub]. eauto.
    + destruct (SFsub_nonneg ms es my ey Hey Hmy) as [-> | [-> | (mr & er & ->)]]; eauto.
Qed.

Lemma is_finite_of_form (x : float) :
  (exists s : bool, Prim2SF x = S754_zero s) \/
  (exists (m : positive) (e : Z), Prim2SF x = S754_finite false m e) ->
  PrimFloat.is_finite x = true.
Proof.
  unfold is_finite, is_nan, is_infinity. rewrite !eqb_spec, abs_spec.
  change (Prim2SF infinity) with (S754_infinity false).
  intros [(s & ->) | (m & e & ->)]; cbn.
  - now destruct s.
  - unfold SFeqb, SFcompare. rewrite Z.compare_refl, Pos.compare_refl. reflexivity.
Qed.

Lemma is_nan_of_form (x : float) : Prim2SF x = S754_nan -> PrimFloat.is_nan x = true.
Proof. unfold is_nan. rewrite eqb_spec. now intros ->. Qed.

Lemma leb_nan (x y : float) : PrimFloat.is_nan y = true -> PrimFloat.leb x y = false.
Proof.
  unfold is_nan. rewrite eqb_spec, leb_spec.
  destruct (Prim2SF y) as [s | [|] | | s m e]; cbn; try discriminate.
  - intros _. unfold SFleb. now destruct (Prim2SF x) as [? | [|] | | [|] ? ?].
  - unfold SFeqb, SFcompare. rewrite Z.compare_refl.
    change (PosDef.Pos.compare_cont Eq m m) with (Pos.compare m m).
    rewrite Pos.compare_refl. destruct s; discriminate.
Qed.

(** The product of a float that is at least 1 and a float that is at least
    0 is a zero, a finite positive float, [+Infinity] or [NaN]. *)
Lemma mul_in_range_form (q p : float) :
  PrimFloat.leb 1 q = true -> PrimFloat.leb 0 p = true ->
  (exists s : bool, Prim2SF (q * p) = S754_zero s) \/
  (exists (m : positive) (e : Z), Prim2SF (q * p) = S754_finite false m e) \/
  Prim2SF (q * p) = S754_infinity false \/
  Prim2SF (q * p) = S754_nan.
Proof.
  intros Hq Hp. rewrite mul_spec. unfold SF64mul.
  destruct (leb_one_form q Hq) as [(mq & eq & ->) | ->];
    destruct (leb_zero_form p Hp) as [(sp & ->) | [(mp & ep & ->) | ->]]; cbn [SFmul xorb];
    eauto 6.
  destruct (binary_round_aux_sign false (Zpos (mq * mp)) (eq + ep) loc_Exact ltac:(lia))
    as [-> | [-> | (m & e & ->)]]; eauto 6.
Qed.

(** When [quantity * price] is not finite, the line amount is [NaN]. *)
Lemma line_amount_nan (q p d : float) :
  PrimFloat.leb 1 q = true -> PrimFloat.leb 0 p = true ->
  PrimFloat.leb 0 d = true -> PrimFloat.leb d 100 = true ->
  PrimFloat.is_finite (q * p) = false ->
  PrimFloat.is_nan (q * p - d / 100 * (q * p)) = true.
Proof.
  intros Hq Hp Hd0 Hd100 Hf.
  set (s := (q * p)%float) in *. set (x := (d / 100)%float).
  apply is_nan_of_form. rewrite sub_spec, mul_spec. unfold SF64sub, SF64mul.
  assert (Hs : Prim2SF s = S754_infinity false \/ Prim2SF s = S754_nan).
  { destruct (mul_in_range_form q p Hq Hp) as [H | [H | H]]; fold s in H; [| | exact H].
    - rewrite (is_finite_of_form s (or_introl H)) in Hf. discriminate.
    - rewrite (is_finite_of_form s (or_intror H)) in Hf. discriminate. }
  destruct (div_hundred_form d Hd0 Hd100) as [(sx & Hx) | (mx & ex & Hx & _)];
    fold x in Hx; rewrite Hx; destruct Hs as [-> | ->]; reflexivity.
Qed.

End Binary64Rounding.

(** ** C2: the line amount *)

(** The range of an item bounds the operands of its line amount; a discount
    of [0] or [-0] is read as [0]. *)
Lemma item_in_range64_operands (item : InvoiceItem float) :
  item_in_range64 item = true ->
  PrimFloat.leb 1 (quantity item) = true /\
  PrimFloat.leb 0 (price item) = true /\
  PrimFloat.leb 0 (discount_or_zero item) = true /\
  PrimFloat.leb (discount_or_zero item) 100 = true.
Proof.
  unfold item_in_range64, discount_or_zero. intro H.
  apply andb_true_iff in H as [H Hd]. apply andb_true_iff in H as [Hq Hp].
  split; [exact Hq |]. split; [exact Hp |].
  destruct (discount item) as [d |]; [| split; reflexivity].
  apply andb_true_iff in Hd as [H0 H100].
  destruct (num_truthy d); [split; assumption | split; reflexivity].
Qed.

(** On binary64 numbers the line amount of an item in range is at least 0
    when [quantity * price] is finite, and [NaN] when it is not. *)
Lemma calculateItemTotal_sign (item : InvoiceItem float) :
  item_in_range64 item = true ->
  PrimFloat.leb 0 (calculateItemTotal item) =
  PrimFloat.is_finite (quantity item * price item) /\
  PrimFloat.is_nan (calculateItemTotal item) =
  negb (PrimFloat.is_finite (quantity item * price item)).
Proof.
  intro Hr. destruct (item_in_range64_operands item Hr) as (Hq & Hp & H0 & H100).
  change (calculateItemTotal item) with
    (quantity item * price item
     - discount_or_zero item / 100 * (quantity item * price item))%float.
  destruct (PrimFloat.is_finite (quantity item * price item)) eqn:Hf.
  - pose proof (line_amount_nonneg _ _ _ Hq Hp H0 H100 Hf) as Hle.
    split; [exact Hle |]. cbn [negb].
    destruct (PrimFloat.is_nan _) eqn:Hn; [| reflexivity].
    rewrite (leb_nan _ _ Hn) in Hle. discriminate.
  - pose proof (line_amount_nan _ _ _ Hq Hp H0 H100 Hf) as Hn.
    split; [now apply leb_nan | exact Hn].
Qed.

(** C2, as amended.  [calculateItemTotal item] is
    [quantity*price - (discount/100)*(quantity*price)], the discount read as
    [0] when it is omitted, every operation a binary64 operation.  For an
    item with quantity at least 1, price at least 0 and discount omitted or
    in [0, 100], this value is at least 0 whenever [quantity*price] is
    finite, and is [NaN] when [quantity*price] overflows.  In exact
    arithmetic, for such an item, it is
    [quantity*price*(1 - discount/100)] and is at least 0. *)
Theorem calculateItemTotal_spec :
  (forall item : InvoiceItem float,
     calculateItemTotal item =
     (quantity item * price item
      - discount_or_zero item / 100 * (quantity item * price item))%float /\
     (item_in_range64 item = true ->
      PrimFloat.leb 0 (calculateItemTotal item) =
      PrimFloat.is_finite (quantity item * price item) /\
      PrimFloat.is_nan (calculateItemTotal item) =
      negb (PrimFloat.is_finite (quantity item * price item)))) /\
  (forall item : InvoiceItem Q, item_in_range item ->
     (calculateItemTotal item ==
      quantity item * price item * (1 - discount_of item / 100) /\
      0 <= calculateItemTotal item)%Q).
Proof.
  split.
  - intro item. split; [reflexivity | apply calculateItemTotal_sign].
  - intros item Hr. split.
    + apply calculateItemTotal_exact.
    + now apply calculateItemTotal_nonneg.
Qed.

Lemma calculateItemTotal_spec_witness :
  (item_in_range64 (mkItem 2%float 100%float (Some 10%float)) = true /\
   PrimFloat.leb 0 (calculateItemTotal (mkItem 2%float 100%float (Some 10%float))) =
   PrimFloat.is_finite (2 * 100)%float /\
   PrimFloat.is_nan (calculateItemTotal (mkItem 2%float 100%float (Some 10%float))) =
   negb (PrimFloat.is_finite (2 * 100)%float)) /\
  item_in_range (mkItem 2 100 (Some 10)) /\
  (calculateItemTotal (mkItem 2 100 (Some 10)) ==
   2 * 100 * (1 - discount_of (mkItem 2 100 (Some 10)) / 100) /\
   0 <= calculateItemTotal (mkItem 2 100 (Some 10)))%Q.
Proof.
  assert (Hr : item_in_range (mkItem 2 100 (Some 10))).
  { cbv. repeat split; discriminate. }
  split; [split; [reflexivity |] | split; [exact Hr |]].
  - exact (proj2 (proj1 calculateItemTotal_spec (mkItem 2%float 100%float (Some 10%float)))
             eq_refl).
  - exact (proj2 calculateItemTotal_spec (mkItem 2 100 (Some 10)) Hr).
Defined.

(** C2 as stated fails on binary64 numbers, on both counts.  For quantity 1,
    price 10 and discount 7 the program computes [10 - 0.07*10 = 9.3], and
    [1*10*(1 - 7/100)] is [9.299999999999999].  For quantity 2^1023 (about 9e307), price 10
    and discount 10 the product [quantity*price] overflows to [Infinity], the
    discount amount is [Infinity] too, and their difference is [NaN], which
    is not at least 0. *)
Lemma calculateItemTotal_rounds :
  (let item := mkItem 1%float 10%float (Some 7%float) in
   item_in_range64 item = true /\
   calculateItemTotal item <>
   (quantity item * price item * (1 - 7 / 100))%float) /\
  (let item := mkItem 0x1p1023%float 10%float (Some 10%float) in
   item_in_range64 item = true /\
   PrimFloat.is_nan (calculateItemTotal item) = true /\
   PrimFloat.leb 0 (calculateItemTotal item) = false).
Proof.
  split; [split; [reflexivity | float_neq] | repeat split].
Qed.

(** ** C3: the subtotal *)

(** C3, as amended.  [calculateInvoiceSubtotal items] is the sum of
    [calculateItemTotal] over the items, added left to right from 0; in exact
    arithmetic the result is the same for every permutation of the list. *)
Theorem calculateInvoiceSubtotal_spec :
  (forall items : list (InvoiceItem float),
     calculateInvoiceSubtotal items = sum_left (map calculateItemTotal items)) /\
  (forall items items' : list (InvoiceItem Q),
     calculateInvoiceSubtotal items = sum_left (map calculateItemTotal items) /\
     (Permutation items items' ->
      (calculateInvoiceSubtotal items == calculateInvoiceSubtotal items')%Q)).
Proof.
  split; [| split].
  - apply calculateInvoiceSubtotal_sum.
  - apply calculateInvoiceSubtotal_sum.
  - apply calculateInvoiceSubtotal_perm.
Qed.

Lemma calculateInvoiceSubtotal_spec_witness :
  Permutation [mkItem 1 1 (Some 7); mkItem 1 1 (Some 10)]
              [mkItem 1 1 (Some 10); mkItem 1 1 (Some 7)] /\
  (calculateInvoiceSubtotal [mkItem 1 1 (Some 7); mkItem 1 1 (Some 10)] ==
   calculateInvoiceSubtotal [mkItem 1 1 (Some 10); mkItem 1 1 (Some 7)])%Q.
Proof.
  split; [apply perm_swap |].
  exact (proj2 (proj2 calculateInvoiceSubtotal_spec _ _) (perm_swap _ _ _)).
Defined.

(** C3 as stated fails on binary64 numbers: three items of quantity 1 and
    price 1 with discounts 7, 10 and 15 add up to [2.68] in this order and
    to [2.6799999999999997] in the reverse order. *)
Lemma calculateInvoiceSubtotal_order_rounds :
  let items := [mkItem 1%float 1%float (Some 7%float);
                mkItem 1%float 1%float (Some 10%float);
                mkItem 1%float 1%float (Some 15%float)] in
  Permutation items (rev items) /\
  calculateInvoiceSubtotal items <> calculateInvoiceSubtotal (rev items).
Proof.
  split; [apply Permutation_rev | float_neq].
Qed.

(* ================================================================= *)
(** ** Strings *)

Lemma substring_all (s : string) : substring 0 (String.length s) s = s.
Proof. induction s as [|c s IH]; cbn; [reflexivity | now rewrite IH]. Qed.

Lemma zeros_length (n : nat) : String.length (String.concat "" (repeat "0" n)) = n.
Proof.
  induction n as [|n IH]; [reflexivity |].
  cbn [repeat String.concat]. destruct (repeat "0" n) eqn:E.
  - destruct n; [reflexivity | discriminate].
  - cbn. cbn in IH. now rewrite IH.
Qed.

Lemma fill_string_zeros (n : nat) : fill_string n "0" = String.concat "" (repeat "0" n).
Proof.
  unfold fill_string. rewrite <- (zeros_length n) at 1. apply substring_all.
Qed.

(** Padding with ['0'] puts the missing zeros in front. *)
Lemma padStart_zero (s : string) (n : nat) :
  padStart s n "0" = String.concat "" (repeat "0" (n - String.length s)) ++ s.
Proof.
  unfold padStart. destruct (Nat.leb_spec n (String.length s)) as [Hle | Hlt].
  - replace (n - String.length s)%nat with 0%nat by lia. reflexivity.
  - cbn [String.length Nat.eqb]. now rewrite fill_string_zeros.
Qed.

Lemma invoice_number_of_spec (year : N) (n : nat) :
  invoice_number_of year (N.of_nat n + 1) = spec_invoice_number year n.
Proof.
  unfold invoice_number_of, spec_invoice_number, zero_padded4.
  now rewrite padStart_zero.
Qed.





(* ================================================================= *)
(** ** C4: the invoice number *)

(** C4, as amended.  For a user holding [n] existing invoices,
    [generateInvoiceNumber] returns
    [INV-<currentYear>-<n+1 zero-padded to 4 digits>], and
    [INV-<currentYear>-0004] for 3 existing invoices, when the count is
    known: always for a demo user, who counts the hook's collection, and for
    a remote user when the count request is answered.  The count of the
    store is read with no look at its error ([(count || 0) + 1]): when the
    request fails, or no user is signed in, the call still returns, with
    [INV-<currentYear>-0001], whatever the user holds. *)
Theorem generateInvoiceNumber_spec (e : Env) (w : World) (n : nat) :
  (existing_invoices w n ->
   isMockUser w = true \/ refused e 0 = false ->
   generateInvoiceNumber e w = spec_invoice_number (full_year e) n /\
   (n = 3%nat -> generateInvoiceNumber e w = "INV-" ++ toString (full_year e) ++ "-0004")) /\
  (isMockUser w = false ->
   refused e 0 = true \/ user w = None ->
   generateInvoiceNumber e w = "INV-" ++ toString (full_year e) ++ "-0001").
Proof.
  split.
  - intros Hn Hok.
    assert (Hg : generateInvoiceNumber e w = spec_invoice_number (full_year e) n).
    { unfold existing_invoices in Hn. unfold generateInvoiceNumber.
      destruct (isMockUser w).
      - rewrite Hn. apply invoice_number_of_spec.
      - destruct Hn as (u & Hu & Hlen). destruct Hok as [Hok | Hok]; [discriminate |].
        unfold count_invoices. rewrite Hok, Hu, Hlen. cbn [or_else].
        apply invoice_number_of_spec. }
    split; [exact Hg |].
    intros ->. rewrite Hg. reflexivity.
  - intros Hm Hno. unfold generateInvoiceNumber, count_invoices. rewrite Hm.
    destruct Hno as [-> | ->]; [reflexivity |].
    now destruct (refused e 0).
Qed.

Lemma generateInvoiceNumber_spec_witness :
  existing_invoices remote_world3 3 /\ refused env4 0 = false /\
  generateInvoiceNumber env4 remote_world3 = "INV-2026-0004".
Proof.
  assert (Hn : existing_invoices remote_world3 3).
  { exists "user-1". split; reflexivity. }
  split; [exact Hn |]. split; [reflexivity |].
  exact (proj2 (proj1 (generateInvoiceNumber_spec env4 remote_world3 3) Hn
                  (or_intror eq_refl)) eq_refl).
Defined.

(** C4 as stated fails: a remote user holds 3 invoices and the count request
    is refused; the call returns [INV-2026-0001], not [INV-2026-0004]. *)
Lemma generateInvoiceNumber_count_refused :
  existing_invoices remote_world3 3 /\
  generateInvoiceNumber env_first_refused remote_world3 <>
  spec_invoice_number (full_year env_first_refused) 3 /\
  generateInvoiceNumber env_first_refused remote_world3 = "INV-2026-0001".
Proof.
  split; [exists "user-1"; split; reflexivity |].
  split; [| reflexivity].
  vm_compute. discriminate.
Qed.
(* ================================================================= *)
(** ** Lists of invoices *)

Lemma in_insert_by_created_at_desc (x y : Invoice) (l : list Invoice) :
  In x (insert_by_created_at_desc y l) <-> x = y \/ In x l.
Proof.
  induction l as [|z l IH]; cbn.
  - intuition auto.
  - destruct (String.ltb (inv_created_at z) (inv_created_at y)); cbn.
    + intuition auto.
    + rewrite IH. intuition auto.
Qed.

Lemma in_order_by_created_at_desc (x : Invoice) (l : list Invoice) :
  In x (order_by_created_at_desc l) <-> In x l.
Proof.
  induction l as [|y l IH]; cbn; [tauto |].
  rewrite in_insert_by_created_at_desc, IH. intuition auto.
Qed.

(** What an answered select returns: the rows of the user, each with the
    items that reference it. *)
Lemma select_invoices_in (u : string) (s : Store) (data : list Invoice) (inv : Invoice) :
  select_invoices false (Some u) s = Some data ->
  In inv data <->
  exists r : InvoiceRow,
    In r (invoices_table s) /\ inv_user_id r = u /\ inv = attach_items s r.
Proof.
  unfold select_invoices, user_view. intros [= <-].
  rewrite in_order_by_created_at_desc, in_map_iff.
  split.
  - intros (r & <- & Hr). apply filter_In in Hr as [Hr Ho].
    exists r. repeat split; [exact Hr | now apply String.eqb_eq].
  - intros (r & Hr & Hu & ->). exists r. split; [reflexivity |].
    apply filter_In. split; [exact Hr | now apply String.eqb_eq].
Qed.

Lemma select_invoices_answered (fail : bool) (uid : option string) (s : Store)
    (data : list Invoice) :
  select_invoices fail uid s = Some data ->
  exists u : string, fail = false /\ uid = Some u.
Proof.
  unfold select_invoices. destruct fail; [discriminate |].
  destruct uid as [u|]; [| discriminate]. intros _. now exists u.
Qed.

(** After [fetchInvoices] every invoice of the hook's state was there before
    or comes from a row of the store. *)
Ltac world_simpl :=
  cbn [invoices store user loading set_invoices set_loading set_store
       invoices_table invoice_items_table] in *.

Lemma fetchInvoices_in (e : Env) (k : nat) (w : World) (inv : Invoice) :
  In inv (invoices (fetchInvoices e k w)) ->
  In inv (invoices w) \/ In inv mockInvoices \/
  In (inv_row inv) (invoices_table (store w)).
Proof.
  unfold fetchInvoices. destruct (user w) as [u|]; [| world_simpl; auto].
  destruct (isMockUser w).
  - world_simpl. intro H. apply filter_In in H. tauto.
  - destruct (select_invoices (refused e k) (Some u) (store w)) as [data|] eqn:E;
      world_simpl; [| auto].
    intro H. destruct (select_invoices_answered _ _ _ _ E) as (u' & Hf & _).
    rewrite Hf in E. apply (select_invoices_in _ _ _ inv E) in H as (r & Hr & _ & ->).
    auto.
Qed.

Lemma fetchInvoices_store (e : Env) (k : nat) (w : World) :
  store (fetchInvoices e k w) = store w.
Proof.
  unfold fetchInvoices. destruct (user w); [| reflexivity].
  destruct (isMockUser w); [reflexivity |].
  now destruct (select_invoices _ _ _).
Qed.

Lemma fetchInvoices_user (e : Env) (k : nat) (w : World) :
  user (fetchInvoices e k w) = user w.
Proof.
  unfold fetchInvoices. destruct (user w) eqn:E; [| now cbn].
  destruct (isMockUser w); [now cbn |].
  now destruct (select_invoices _ _ _); cbn.
Qed.

Lemma status_string_inj (s s' : Status) : status_string s = status_string s' -> s = s'.
Proof. destruct s, s'; cbn; intro H; try reflexivity; discriminate. Qed.

(* ================================================================= *)
(** ** C5: creating an invoice with no item *)

Lemma invoiceSchema_needs_item (data : InvoiceFormData) :
  form_items data = [] -> invoiceSchema_valid data = false.
Proof.
  intro H. unfold invoiceSchema_valid. rewrite H. cbn.
  now rewrite !andb_false_r.
Qed.

(** C5, as amended.  The form enforces the rule: [invoiceSchema] rejects a
    form with no item, and [handleSubmit] then leaves the state as it is.
    [createInvoice] itself checks no item count: called with an empty list
    by a demo user it returns the new invoice, which has no item, and adds it
    to the collection; for a remote user the invoice row is stored whenever
    the store accepts the insert, and the call returns when the store also
    answers the (empty) item insert. *)
Theorem createInvoice_empty_items :
  (forall data : InvoiceFormData,
     form_items data = [] -> invoiceSchema_valid data = false) /\
  (forall (e : Env) (calculations : Calculations) (data : InvoiceFormData)
          (status : Status) (w : World),
     form_items data = [] -> handleSubmit e calculations data status w = w) /\
  (forall (e : Env) (clientId : string) (d : InvoiceInsert) (w : World) (u : string),
     user w = Some u -> isMockUser w = true ->
     exists inv : Invoice,
       createInvoice e clientId [] d w =
       (Returned (Some inv), set_invoices (inv :: invoices w) w) /\
       invoice_items inv = [] /\ inv_user_id inv = u) /\
  (forall (e : Env) (clientId : string) (d : InvoiceInsert) (w : World) (u : string)
          (r : InvoiceRow) (s1 : Store),
     user w = Some u -> isMockUser w = false ->
     insert_invoice (refused e 1) (Some u)
       (inserted_row e u clientId (generateInvoiceNumber e w) d) (store w) = Some (r, s1) ->
     In r (invoices_table (store (snd (createInvoice e clientId [] d w)))) /\
     (refused e 2 = false ->
      exists found : option Invoice,
        fst (createInvoice e clientId [] d w) = Returned found)).
Proof.
  split; [| split; [| split]].
  - apply invoiceSchema_needs_item.
  - intros e calculations data status w H. unfold handleSubmit.
    now rewrite (invoiceSchema_needs_item data H).
  - intros e clientId d w u Hu Hm.
    exists (mock_invoice e u clientId (generateInvoiceNumber e w) [] d).
    unfold createInvoice. rewrite Hu, Hm. repeat split.
  - intros e clientId d w u r s1 Hu Hm Hins.
    assert (Hin : In r (invoices_table s1)).
    { unfold insert_invoice in Hins. destruct (refused e 1); [discriminate |].
      destruct (_ && _); [| discriminate].
      injection Hins as <- <-. cbn. apply in_or_app. right. now left. }
    unfold createInvoice. rewrite Hu, Hm, Hins. cbn [mapi mapi_from].
    unfold insert_items. split.
    + destruct (refused e 2); cbn; [exact Hin |].
      rewrite fetchInvoices_store. cbn. exact Hin.
    + intros ->. cbn. eauto.
Qed.

Lemma createInvoice_empty_items_witness :
  (exists inv : Invoice,
     createInvoice env2 "mock-1" [] sample_insert admin_world =
     (Returned (Some inv), set_invoices (inv :: invoices admin_world) admin_world) /\
     invoice_items inv = [] /\ inv_user_id inv = "admin@invoicepro.com").
Proof.
  exact (proj1 (proj2 (proj2 createInvoice_empty_items))
           env2 "mock-1" sample_insert admin_world "admin@invoicepro.com" eq_refl eq_refl).
Defined.

(** C5 as stated fails: a demo user's [createInvoice] with an empty items
    list returns normally and the collection holds one more invoice; a remote
    user's call returns normally and the store holds the new row. *)
Lemma createInvoice_accepts_no_items :
  (fst (createInvoice env2 "mock-1" [] sample_insert admin_world) <> Thrown NoUserLoggedIn /\
   fst (createInvoice env2 "mock-1" [] sample_insert admin_world) <> Thrown StoreError /\
   List.length (invoices (snd (createInvoice env2 "mock-1" [] sample_insert admin_world))) = 2%nat /\
   List.length (invoices admin_world) = 1%nat) /\
  (fst (createInvoice env1 "client-1" [] sample_insert (mounted "user-1" empty_store))
   = Returned None /\
   List.length (invoices_table (store (snd (createInvoice env1 "client-1" [] sample_insert
                                           (mounted "user-1" empty_store))))) = 1%nat).
Proof.
  repeat split; try discriminate.
Qed.

(* ================================================================= *)
(** ** What [updateInvoice] does to a row *)

(** The row a patched invoice becomes, in the hook's state ([t] the clock of
    the browser) and in the store ([t] the clock of the trigger). *)
Lemma spread_update_id (t : string) (r : InvoiceRow) (p : InvoiceUpdate) :
  inv_id (set_updated_at t (spread_update r p)) = inv_id r /\
  inv_user_id (set_updated_at t (spread_update r p)) = inv_user_id r /\
  inv_status (set_updated_at t (spread_update r p)) = or_keep (upd_status p) (inv_status r).
Proof. split; [| split]; reflexivity. Qed.

Lemma stored_update_id (e : Env) (t : string) (r : InvoiceRow) (p : InvoiceUpdate) :
  inv_id (set_updated_at t (stored_update e r p)) = inv_id r /\
  inv_user_id (set_updated_at t (stored_update e r p)) = inv_user_id r /\
  inv_status (set_updated_at t (stored_update e r p)) = or_keep (upd_status p) (inv_status r).
Proof. split; [| split]; reflexivity. Qed.

(** The store holds the values of a plain patch as they are written. *)
Lemma stored_update_plain (e : Env) (r : InvoiceRow) (p : InvoiceUpdate) :
  plain_patch p -> stored_update e r p = spread_update r p.
Proof.
  intros (H1 & H2 & H3 & H4 & H5 & H6 & H7 & H8 & H9).
  unfold stored_update, spread_update.
  now rewrite H1, H2, H3, H4, H5, H6, H7, H8, H9.
Qed.

Lemma status_patch_plain (s : Status) : plain_patch (status_patch s).
Proof. repeat split. Qed.

Lemma sent_patch_plain (link : string) : plain_patch (sent_patch link).
Proof. repeat split. Qed.

Lemma or_keep_off_draft (o x : option Status) :
  o <> Some draft -> x <> Some draft -> or_keep o x <> Some draft.
Proof. intros Ho Hx. destruct o as [s|]; cbn; [exact Ho | exact Hx]. Qed.

Lemma spread_update_off_draft (t : string) (r : InvoiceRow) (p : InvoiceUpdate) :
  upd_status p <> Some draft ->
  inv_status r <> Some draft ->
  inv_status (set_updated_at t (spread_update r p)) <> Some draft.
Proof. intros Hp Hr. now apply or_keep_off_draft. Qed.

Lemma stored_update_off_draft (e : Env) (t : string) (r : InvoiceRow) (p : InvoiceUpdate) :
  upd_status p <> Some draft ->
  inv_status r <> Some draft ->
  inv_status (set_updated_at t (stored_update e r p)) <> Some draft.
Proof. intros Hp Hr. now apply or_keep_off_draft. Qed.

Lemma updateInvoice_demo (e : Env) (id : string) (p : InvoiceUpdate) (w : World) :
  isMockUser w = true ->
  updateInvoice e id p w =
  (Returned tt, set_invoices (patched_invoices (now_iso e) 0 id p (invoices w)) w).
Proof. intro Hm. unfold updateInvoice. now rewrite Hm. Qed.

Lemma update_invoices_answered (e : Env) (t u id : string) (p : InvoiceUpdate) (s : Store) :
  upd_invoice_number p = None ->
  update_invoices false (Some u) e t id p s =
  Some {| invoices_table := patched_rows e t u id p (invoices_table s);
          invoice_items_table := invoice_items_table s |}.
Proof. intro Hn. unfold update_invoices. now rewrite Hn. Qed.

Lemma update_invoices_rows (fail : bool) (uid : option string) (e : Env) (t id : string)
    (p : InvoiceUpdate) (s s' : Store) :
  update_invoices fail uid e t id p s = Some s' ->
  exists u : string,
    uid = Some u /\
    invoices_table s' = patched_rows e t u id p (invoices_table s) /\
    invoice_items_table s' = invoice_items_table s.
Proof.
  unfold update_invoices. destruct fail; [discriminate |].
  destruct uid as [u|]; [| discriminate].
  destruct (match upd_invoice_number p with Some _ => _ | None => _ end); [discriminate |].
  intros [= <-]. exists u. repeat split.
Qed.

(** A refused update, or an update with no user signed in, changes nothing. *)
Lemma update_invoices_refused (fail : bool) (uid : option string) (e : Env) (t id : string)
    (p : InvoiceUpdate) (s : Store) :
  fail = true \/ uid = None -> update_invoices fail uid e t id p s = None.
Proof.
  unfold update_invoices. intros [-> | ->]; [reflexivity | now destruct fail].
Qed.

Lemma updateInvoice_remote (e : Env) (u id : string) (p : InvoiceUpdate) (w : World) :
  user w = Some u -> isMockUser w = false ->
  upd_invoice_number p = None ->
  refused e 0 = false ->
  updateInvoice e id p w =
  (Returned tt,
   fetchInvoices e 1
     (set_store {| invoices_table :=
                     patched_rows e (db_now e 0) u id p (invoices_table (store w));
                   invoice_items_table := invoice_items_table (store w) |} w)).
Proof.
  intros Hu Hm Hn Hok. unfold updateInvoice.
  now rewrite Hm, Hok, Hu, update_invoices_answered.
Qed.

Lemma updateInvoice_refused (e : Env) (id : string) (p : InvoiceUpdate) (w : World) :
  isMockUser w = false -> refused e 0 = true \/ user w = None ->
  updateInvoice e id p w = (Thrown StoreError, w).
Proof.
  intros Hm H. unfold updateInvoice. now rewrite Hm, update_invoices_refused.
Qed.

Lemma fetchInvoices_remote (e : Env) (k : nat) (u : string) (w : World) :
  user w = Some u -> isMockUser w = false -> refused e k = false ->
  fetchInvoices e k w =
  {| user := Some u;
     invoices := user_view u (store w);
     loading := false;
     store := store w |}.
Proof.
  intros Hu Hm Hok. unfold fetchInvoices, select_invoices.
  rewrite Hu, Hm, Hok. unfold set_loading, set_invoices. cbn. now rewrite Hu.
Qed.

(** A refused select leaves the hook's collection as it was. *)
Lemma fetchInvoices_refused (e : Env) (k : nat) (w : World) :
  isMockUser w = false -> refused e k = true ->
  invoices (fetchInvoices e k w) = invoices w.
Proof.
  intros Hm Hno. unfold fetchInvoices, select_invoices.
  destruct (user w); [| reflexivity]. now rewrite Hm, Hno.
Qed.

Lemma in_patched_rows (e : Env) (t u id : string) (p : InvoiceUpdate)
    (rows : list InvoiceRow) (r' : InvoiceRow) :
  In r' (patched_rows e t u id p rows) ->
  exists r : InvoiceRow,
    In r rows /\
    (((inv_id r <> id \/ inv_user_id r <> u) /\ r' = r) \/
     (inv_id r = id /\ inv_user_id r = u /\ r' = set_updated_at t (stored_update e r p))).
Proof.
  unfold patched_rows. rewrite in_map_iff. intros (r & Hr' & Hr).
  exists r. split; [exact Hr |].
  unfold has_id, owned_by in Hr'.
  destruct (String.eqb_spec (inv_id r) id) as [Hi | Hi];
    destruct (String.eqb_spec (inv_user_id r) u) as [Ho | Ho]; cbn in Hr'; auto.
Qed.

Lemma in_map_stamped {A : Type} (hit : A -> bool) (f : string -> A -> A)
    (stamp : nat -> string) (k : nat) (l : list A) (y : A) :
  In y (map_stamped hit f stamp k l) ->
  exists x : A,
    In x l /\
    ((hit x = false /\ y = x) \/ (hit x = true /\ exists j : nat, y = f (stamp j) x)).
Proof.
  revert k. induction l as [|x l IH]; intros k; cbn [map_stamped]; [intros [] |].
  destruct (hit x) eqn:E; intros [<- | H].
  - exists x. split; [now left |]. right. split; [exact E | now exists k].
  - destruct (IH _ H) as (x' & Hx' & H'). exists x'. split; [now right | exact H'].
  - exists x. split; [now left |]. left. now split.
  - destruct (IH _ H) as (x' & Hx' & H'). exists x'. split; [now right | exact H'].
Qed.

Lemma in_patched_invoices (stamp : nat -> string) (k : nat) (id : string)
    (p : InvoiceUpdate) (l : list Invoice) (inv' : Invoice) :
  In inv' (patched_invoices stamp k id p l) ->
  exists inv : Invoice,
    In inv l /\
    ((inv_id inv <> id /\ inv' = inv) \/
     (inv_id inv = id /\ exists t : string, inv' = patched_invoice p t inv)).
Proof.
  unfold patched_invoices. intro H.
  apply in_map_stamped in H as (inv & Hin & [[Hh ->] | [Hh (j & ->)]]);
    exists inv; (split; [exact Hin |]).
  - left. split; [now apply String.eqb_neq | reflexivity].
  - right. split; [now apply String.eqb_eq | now exists (stamp j)].
Qed.

(* ================================================================= *)
(** ** C6: no way back to draft *)

Lemma mockInvoices_not_draft (inv : Invoice) :
  In inv mockInvoices -> inv_status inv <> Some draft.
Proof. intros [<- | []]. discriminate. Qed.

Lemma updateInvoice_not_draft (e : Env) (id i : string) (p : InvoiceUpdate) (w : World) :
  upd_status p <> Some draft ->
  not_draft i w -> not_draft i (snd (updateInvoice e id p w)).
Proof.
  intros Hp [Hc Hs]. unfold updateInvoice. destruct (isMockUser w).
  - split; world_simpl; cbn [snd]; world_simpl; [| exact Hs].
    intros inv' Hin Hid.
    apply in_patched_invoices in Hin as (inv & Hin & [[_ ->] | [_ (t & ->)]]).
    + now apply Hc.
    + cbn [inv_row patched_invoice]. apply spread_update_off_draft; [exact Hp |]. now apply Hc.
  - destruct (update_invoices _ _ _ _ _ _ _) as [s'|] eqn:E; cbn [snd]; [| now split].
    apply update_invoices_rows in E as (u & _ & Hrows & _).
    assert (Hs' : forall r : InvoiceRow, In r (invoices_table s') -> inv_id r = i ->
                  inv_status r <> Some draft).
    { intros r' Hin Hid. rewrite Hrows in Hin.
      apply in_patched_rows in Hin as (r & Hin & [[_ ->] | (_ & _ & ->)]).
      - now apply Hs.
      - apply stored_update_off_draft; [exact Hp |]. now apply Hs. }
    split.
    + intros inv Hin Hid.
      apply fetchInvoices_in in Hin as [Hin | [Hin | Hin]]; world_simpl.
      * now apply Hc.
      * now apply mockInvoices_not_draft.
      * now apply Hs'.
    + rewrite fetchInvoices_store. world_simpl. exact Hs'.
Qed.

Lemma run_call_not_draft (e : Env) (c : Call) (i : string) (w : World) :
  keeps_off_draft c -> not_draft i w -> not_draft i (snd (run_call e c w)).
Proof.
  destruct c as [id | id | id p]; cbn [run_call keeps_off_draft]; intros Hk Hw.
  - apply updateInvoice_not_draft; [discriminate | exact Hw].
  - apply updateInvoice_not_draft; [discriminate | exact Hw].
  - now apply updateInvoice_not_draft.
Qed.

(** C6, as amended.  In every state reached by a sequence of [markAsPaid]
    calls, [sendInvoice] calls and [updateInvoice] calls whose patch carries
    no [status: 'draft'], an invoice that is not a draft is not a draft after
    any later step. *)
Theorem no_way_back_to_draft (cs : list (Env * Call)) (i : string) (w : World) :
  Forall (fun ec => keeps_off_draft (snd ec)) cs ->
  not_draft i w -> not_draft i (run_calls cs w).
Proof.
  intro Hcs. revert w.
  induction Hcs as [| [e c] cs Hc _ IH]; intros w Hw; cbn [run_calls]; [exact Hw |].
  apply IH. now apply run_call_not_draft.
Qed.

Lemma admin_world_not_draft : not_draft "mock-inv-1" admin_world.
Proof.
  split.
  - intros inv [<- | []] _. discriminate.
  - intros r [].
Qed.

Lemma no_way_back_to_draft_witness :
  not_draft "mock-inv-1"
    (run_calls [(env2, CallSendInvoice "mock-inv-1");
                (env3, CallMarkAsPaid "mock-inv-1");
                (env4, CallUpdateInvoice "mock-inv-1" (status_patch overdue))]
       admin_world).
Proof.
  apply (no_way_back_to_draft
           [(env2, CallSendInvoice "mock-inv-1");
            (env3, CallMarkAsPaid "mock-inv-1");
            (env4, CallUpdateInvoice "mock-inv-1" (status_patch overdue))]
           "mock-inv-1" admin_world).
  - repeat constructor. cbn. discriminate.
  - exact admin_world_not_draft.
Defined.

(** C6 as stated fails: [updateInvoice] applies the status its patch
    carries.  The demo invoice [mock-inv-1] is [sent]; after
    [updateInvoice('mock-inv-1', { status: 'draft' })] it is a draft. *)
Lemma updateInvoice_back_to_draft :
  not_draft "mock-inv-1" admin_world /\
  ~ not_draft "mock-inv-1"
      (run_calls [(env2, CallUpdateInvoice "mock-inv-1" (status_patch draft))] admin_world).
Proof.
  split; [exact admin_world_not_draft |].
  intros [Hc _].
  match type of Hc with
  | forall inv, In inv ?l -> _ =>
      let l' := eval vm_compute in l in
      match l' with
      | ?x :: _ => apply (Hc x); [vm_compute; left; reflexivity | reflexivity | reflexivity]
      end
  end.
Qed.

(* ================================================================= *)
(** ** C10: sending an invoice *)

Lemma sent_patch_row (t link : string) (r : InvoiceRow) :
  set_updated_at t (spread_update r (sent_patch link)) = marked_sent t link r.
Proof. reflexivity. Qed.



(* ================================================================= *)
(** ** Applying a patch twice *)

Lemma or_else_twice {A : Type} (o : option A) (x : A) :
  or_else o (or_else o x) = or_else o x.
Proof. now destruct o. Qed.

Lemma or_keep_twice {A : Type} (o x : option A) :
  or_keep o (or_keep o x) = or_keep o x.
Proof. now destruct o. Qed.

(** The second application of a patch overwrites the first; the stamp that
    stays is the second. *)
Lemma spread_update_twice (t1 t2 : string) (r : InvoiceRow) (p : InvoiceUpdate) :
  set_updated_at t2 (spread_update (set_updated_at t1 (spread_update r p)) p) =
  set_updated_at t2 (spread_update r p).
Proof.
  unfold set_updated_at, spread_update.
  cbn [inv_id inv_user_id inv_client_id inv_invoice_number inv_status inv_subtotal
       inv_discount inv_tax_rate inv_tax_amount inv_total inv_currency inv_issue_date
       inv_due_date inv_notes inv_terms inv_payment_link inv_created_at inv_updated_at].
  now rewrite !or_else_twice, !or_keep_twice.
Qed.

Lemma patched_invoice_twice (p : InvoiceUpdate) (t1 t2 : string) (inv : Invoice) :
  patched_invoice p t2 (patched_invoice p t1 inv) = patched_invoice p t2 inv.
Proof.
  unfold patched_invoice. cbn [inv_row invoice_items]. f_equal. apply spread_update_twice.
Qed.

Lemma patched_invoices_twice (stamp1 stamp2 : nat -> string) (k1 k2 : nat) (id : string)
    (p : InvoiceUpdate) (l : list Invoice) :
  patched_invoices stamp2 k2 id p (patched_invoices stamp1 k1 id p l) =
  patched_invoices stamp2 k2 id p l.
Proof.
  unfold patched_invoices. revert k1 k2.
  induction l as [|inv l IH]; intros k1 k2; [reflexivity |].
  cbn [map_stamped]. destruct (inv_id inv =? id) eqn:E; cbn [map_stamped].
  - change (inv_id (patched_invoice p (stamp1 k1) inv)) with (inv_id inv).
    rewrite E, patched_invoice_twice. f_equal. apply IH.
  - rewrite E. f_equal. apply IH.
Qed.

Lemma patched_rows_twice (e1 e2 : Env) (t1 t2 u id : string) (p : InvoiceUpdate)
    (rows : list InvoiceRow) :
  plain_patch p ->
  patched_rows e2 t2 u id p (patched_rows e1 t1 u id p rows) = patched_rows e2 t2 u id p rows.
Proof.
  intro Hp. unfold patched_rows. rewrite map_map. apply map_ext. intro r.
  destruct (has_id id r && owned_by u r) eqn:E.
  - rewrite !(stored_update_plain _ _ p Hp).
    unfold has_id, owned_by in *. cbn [inv_id inv_user_id set_updated_at spread_update].
    rewrite E. apply spread_update_twice.
  - now rewrite E.
Qed.

(** Without the stamps, the patched lists do not depend on the clock. *)
Lemma forget_patched_invoices (stamp1 stamp2 : nat -> string) (k1 k2 : nat) (id : string)
    (p : InvoiceUpdate) (l : list Invoice) :
  map forget_invoice (patched_invoices stamp1 k1 id p l) =
  map forget_invoice (patched_invoices stamp2 k2 id p l).
Proof.
  unfold patched_invoices. revert k1 k2.
  induction l as [|inv l IH]; intros k1 k2; [reflexivity |].
  cbn [map_stamped]. destruct (inv_id inv =? id); cbn [map]; f_equal; apply IH.
Qed.

Lemma forget_patched_rows (e1 e2 : Env) (t1 t2 u id : string) (p : InvoiceUpdate)
    (rows : list InvoiceRow) :
  plain_patch p ->
  map (set_updated_at "") (patched_rows e1 t1 u id p rows) =
  map (set_updated_at "") (patched_rows e2 t2 u id p rows).
Proof.
  intro Hp. unfold patched_rows. rewrite !map_map. apply map_ext. intro r.
  rewrite !(stored_update_plain _ _ p Hp).
  now destruct (has_id id r && owned_by u r).
Qed.

Lemma forget_insert_by_created_at_desc (x : Invoice) (l : list Invoice) :
  map forget_invoice (insert_by_created_at_desc x l) =
  insert_by_created_at_desc (forget_invoice x) (map forget_invoice l).
Proof.
  induction l as [|y l IH]; [reflexivity |].
  cbn [insert_by_created_at_desc map].
  change (inv_created_at (forget_invoice y)) with (inv_created_at y).
  change (inv_created_at (forget_invoice x)) with (inv_created_at x).
  destruct (String.ltb (inv_created_at y) (inv_created_at x)); cbn [map];
    [reflexivity | now rewrite IH].
Qed.

Lemma forget_order_by_created_at_desc (l : list Invoice) :
  map forget_invoice (order_by_created_at_desc l) =
  order_by_created_at_desc (map forget_invoice l).
Proof.
  induction l as [|x l IH]; [reflexivity |].
  cbn [order_by_created_at_desc fold_right map].
  rewrite forget_insert_by_created_at_desc. f_equal. exact IH.
Qed.

Lemma filter_owned_patched_rows (e : Env) (t u id : string) (p : InvoiceUpdate)
    (rows : list InvoiceRow) :
  filter (owned_by u) (patched_rows e t u id p rows) =
  patched_rows e t u id p (filter (owned_by u) rows).
Proof.
  unfold patched_rows.
  set (f := fun r : InvoiceRow =>
              if has_id id r && owned_by u r
              then set_updated_at t (stored_update e r p) else r).
  assert (Ho : forall r : InvoiceRow, owned_by u (f r) = owned_by u r).
  { intro r. unfold f. now destruct (has_id id r && owned_by u r). }
  induction rows as [|r rows IH]; [reflexivity |].
  cbn [map filter]. rewrite Ho, IH.
  now destruct (owned_by u r).
Qed.

Lemma forget_user_view_patched (e1 e2 : Env) (t1 t2 u id : string) (p : InvoiceUpdate)
    (s : Store) :
  plain_patch p ->
  map forget_invoice (user_view u (patched_store e1 t1 u id p s)) =
  map forget_invoice (user_view u (patched_store e2 t2 u id p s)).
Proof.
  intro Hp. unfold user_view, patched_store. cbn [invoices_table].
  rewrite !forget_order_by_created_at_desc. f_equal.
  rewrite !filter_owned_patched_rows. unfold patched_rows.
  rewrite !map_map. apply map_ext. intro r.
  rewrite !(stored_update_plain _ _ p Hp).
  now destruct (has_id id r && owned_by u r).
Qed.

Lemma isMockUser_set_invoices (l : list Invoice) (w : World) :
  isMockUser (set_invoices l w) = isMockUser w.
Proof. reflexivity. Qed.

Lemma isMockUser_user (w w' : World) : user w = user w' -> isMockUser w = isMockUser w'.
Proof. unfold isMockUser. now intros ->. Qed.

Lemma updateInvoice_remote_answered (e : Env) (u id : string) (p : InvoiceUpdate) (w : World) :
  user w = Some u -> isMockUser w = false ->
  upd_invoice_number p = None ->
  answered e ->
  updateInvoice e id p w = (Returned tt, updated_world e u id p w).
Proof.
  intros Hu Hm Hn [Hok0 Hok1].
  rewrite (updateInvoice_remote e u id p w Hu Hm Hn Hok0).
  erewrite fetchInvoices_remote; [reflexivity | exact Hu | exact Hm | exact Hok1].
Qed.

Lemma updated_world_twice (e1 e2 : Env) (u id : string) (p : InvoiceUpdate) (w : World) :
  plain_patch p ->
  updated_world e2 u id p (updated_world e1 u id p w) = updated_world e2 u id p w.
Proof.
  intro Hp. unfold updated_world. cbn [store]. unfold patched_store.
  cbn [invoices_table invoice_items_table].
  now rewrite (patched_rows_twice e1 e2 _ _ u id p _ Hp).
Qed.

Lemma updated_world_same_but_updated_at (e1 e2 : Env) (u id : string) (p : InvoiceUpdate)
    (w : World) :
  plain_patch p ->
  same_but_updated_at (updated_world e2 u id p w) (updated_world e1 u id p w).
Proof.
  intro Hp.
  unfold same_but_updated_at, forget_updated_at, updated_world. cbn [user invoices loading store].
  rewrite (forget_user_view_patched e2 e1 (db_now e2 0) (db_now e1 0) u id p _ Hp).
  unfold patched_store. cbn [invoices_table invoice_items_table].
  now rewrite (forget_patched_rows e2 e1 (db_now e2 0) (db_now e1 0) u id p _ Hp).
Qed.

(* ================================================================= *)
(** ** C7: paying twice *)

Lemma paid_in_demo (stamp : nat -> string) (k : nat) (id : string) (w : World) :
  isMockUser w = true ->
  paid_in id (set_invoices (patched_invoices stamp k id (status_patch paid) (invoices w)) w).
Proof.
  intro Hm. split.
  - world_simpl. intros inv' Hin Hid.
    apply in_patched_invoices in Hin as (inv & _ & [[Hne ->] | [_ (t & ->)]]).
    + contradiction.
    + reflexivity.
  - intro Hf. exfalso.
    rewrite isMockUser_set_invoices in Hf. congruence.
Qed.

(** The rows of the user with this id are paid after an answered update. *)
Lemma paid_rows (e : Env) (t u id : string) (rows : list InvoiceRow) (r' : InvoiceRow) :
  In r' (patched_rows e t u id (status_patch paid) rows) ->
  inv_id r' = id -> inv_user_id r' = u -> inv_status r' = Some paid.
Proof.
  intros Hin Hid Hown.
  apply in_patched_rows in Hin as (r & _ & [[Hne ->] | (_ & _ & ->)]).
  - destruct Hne; contradiction.
  - reflexivity.
Qed.

Lemma paid_in_remote (e : Env) (u id : string) (w : World) :
  paid_in id (updated_world e u id (status_patch paid) w).
Proof.
  split.
  - unfold updated_world. cbn [invoices]. intros inv Hin Hid.
    apply (select_invoices_in u _ _ inv eq_refl) in Hin as (r & Hr & Hu & ->).
    cbn [inv_row attach_items] in *. now apply (paid_rows e (db_now e 0) u id _ _ Hr).
  - intros _ r Hin Hid Hu. unfold updated_world in *. cbn [store user patched_store invoices_table] in *.
    injection Hu as Hu. now apply (paid_rows e (db_now e 0) u id _ _ Hin).
Qed.

(** C7, as amended.  For a demo user, and for a signed-in remote user when
    the store answers both requests of each call (the update and the select
    that follows it), neither of two [markAsPaid] calls in succession raises
    an error, every invoice with this id has status [paid] after each, and
    the state after the second call is the state after the first but for the
    [updated_at] stamps; it is the state a single call made at the time of
    the second one leaves.  For a remote user, a call whose update is
    refused, or which is made with no user signed in, raises the error of the
    store and leaves the state as it was; a call whose update is answered and
    whose select is refused returns, the rows of the user with this id are
    [paid] in the store, and the hook's collection is left as it was. *)
Theorem markAsPaid_twice (e1 e2 : Env) (id : string) (w : World) :
  (isMockUser w = true \/
   ((exists u : string, user w = Some u) /\ answered e1 /\ answered e2) ->
   let w1 := snd (markAsPaid e1 id w) in
   let w2 := snd (markAsPaid e2 id w1) in
   fst (markAsPaid e1 id w) = Returned tt /\
   fst (markAsPaid e2 id w1) = Returned tt /\
   paid_in id w1 /\ paid_in id w2 /\
   same_but_updated_at w2 w1 /\
   w2 = snd (markAsPaid e2 id w)) /\
  (isMockUser w = false -> refused e1 0 = true \/ user w = None ->
   markAsPaid e1 id w = (Thrown StoreError, w)) /\
  (forall u : string,
     user w = Some u -> isMockUser w = false ->
     refused e1 0 = false -> refused e1 1 = true ->
     fst (markAsPaid e1 id w) = Returned tt /\
     invoices (snd (markAsPaid e1 id w)) = invoices w /\
     (forall r : InvoiceRow,
        In r (invoices_table (store (snd (markAsPaid e1 id w)))) ->
        inv_id r = id -> inv_user_id r = u -> inv_status r = Some paid)).
Proof.
  set (P := status_patch paid).
  assert (HP : plain_patch P) by apply status_patch_plain.
  split; [| split].
  - intros H w1 w2. subst w1 w2. unfold markAsPaid. fold P.
    destruct (isMockUser w) eqn:Hm.
    + clear H.
      rewrite (updateInvoice_demo e1 id P w Hm). cbn [fst snd].
      set (w1 := set_invoices (patched_invoices (now_iso e1) 0 id P (invoices w)) w).
      assert (Hm1 : isMockUser w1 = true) by exact Hm.
      rewrite (updateInvoice_demo e2 id P w1 Hm1), (updateInvoice_demo e2 id P w Hm).
      cbn [fst snd].
      assert (Hw2 : set_invoices (patched_invoices (now_iso e2) 0 id P (invoices w1)) w1 =
                    set_invoices (patched_invoices (now_iso e2) 0 id P (invoices w)) w).
      { subst w1. unfold set_invoices. cbn [invoices user loading store].
        now rewrite patched_invoices_twice. }
      rewrite Hw2.
      split; [reflexivity |]. split; [reflexivity |].
      split; [now apply paid_in_demo |]. split; [now apply paid_in_demo |].
      split; [| reflexivity].
      subst w1. unfold same_but_updated_at, forget_updated_at, set_invoices.
      cbn [user invoices loading store].
      now rewrite (forget_patched_invoices (now_iso e2) (now_iso e1) 0 0).
    + destruct H as [H | ((u & Hu) & Ha1 & Ha2)]; [discriminate |].
      rewrite (updateInvoice_remote_answered e1 u id P w Hu Hm eq_refl Ha1).
      cbn [fst snd].
      set (w1 := updated_world e1 u id P w).
      assert (Hu1 : user w1 = Some u) by reflexivity.
      assert (Hm1 : isMockUser w1 = false).
      { rewrite <- Hm. apply isMockUser_user. now rewrite Hu. }
      rewrite (updateInvoice_remote_answered e2 u id P w1 Hu1 Hm1 eq_refl Ha2).
      rewrite (updateInvoice_remote_answered e2 u id P w Hu Hm eq_refl Ha2).
      cbn [fst snd]. subst w1. rewrite (updated_world_twice e1 e2 u id P w HP).
      split; [reflexivity |]. split; [reflexivity |].
      split; [apply paid_in_remote |]. split; [apply paid_in_remote |].
      split; [| reflexivity].
      now apply updated_world_same_but_updated_at.
  - intros Hm Hno. unfold markAsPaid. now apply updateInvoice_refused.
  - intros u Hu Hm Hok0 Hno1. unfold markAsPaid. fold P.
    rewrite (updateInvoice_remote e1 u id P w Hu Hm eq_refl Hok0). cbn [fst snd].
    split; [reflexivity |]. split.
    + now rewrite fetchInvoices_refused.
    + rewrite fetchInvoices_store. world_simpl.
      intros r Hin. now apply (paid_rows e1 (db_now e1 0) u id _ _ Hin).
Qed.

Lemma markAsPaid_twice_witness :
  let w1 := snd (markAsPaid env2 "mock-inv-1" admin_world) in
  let w2 := snd (markAsPaid env3 "mock-inv-1" w1) in
  fst (markAsPaid env2 "mock-inv-1" admin_world) = Returned tt /\
  fst (markAsPaid env3 "mock-inv-1" w1) = Returned tt /\
  paid_in "mock-inv-1" w1 /\ paid_in "mock-inv-1" w2 /\
  same_but_updated_at w2 w1 /\
  w2 = snd (markAsPaid env3 "mock-inv-1" admin_world).
Proof.
  exact (proj1 (markAsPaid_twice env2 env3 "mock-inv-1" admin_world) (or_introl eq_refl)).
Defined.

(** The remote case of C7 is not empty either. *)
Example markAsPaid_twice_remote :
  let id := "00000000-0000-4000-8000-100000000000" in
  inv_status_list remote_world = [Some draft; Some draft] /\
  inv_status_list (snd (markAsPaid env4 id (snd (markAsPaid env3 id remote_world))))
  = [Some draft; Some paid].
Proof. split; reflexivity. Qed.

(** C7 as stated fails on each of its three counts.  The second call stamps
    [updated_at] again, so the state after two calls is not the state after
    one.  A remote user's call whose update is refused raises an error.  And
    after a remote user's call whose select is refused the invoice is a draft
    still in the hook's state, though the call returned. *)
Lemma markAsPaid_twice_restamps :
  let id := "00000000-0000-4000-8000-100000000000" in
  snd (markAsPaid env3 "mock-inv-1" (snd (markAsPaid env2 "mock-inv-1" admin_world))) <>
  snd (markAsPaid env2 "mock-inv-1" admin_world) /\
  fst (markAsPaid env_first_refused id remote_world) = Thrown StoreError /\
  (fst (markAsPaid env_second_refused id remote_world) = Returned tt /\
   map (fun inv : Invoice => (inv_id inv, inv_status inv))
     (invoices (snd (markAsPaid env_second_refused id remote_world)))
   = [("00000000-0000-4000-8000-200000000000", Some draft); (id, Some draft)]).
Proof.
  intro id. split; [| split; [reflexivity | split; reflexivity]].
  intro H.
  apply (f_equal (fun w => map (fun inv : Invoice => inv_updated_at inv) (invoices w))) in H.
  vm_compute in H. discriminate.
Qed.
(* ================================================================= *)
(** ** C9: invoices by status *)

Lemma status_is_has_status (s : Status) (inv : Invoice) :
  status_is (status_string s) inv = has_status s inv.
Proof.
  unfold status_is, has_status.
  destruct (inv_status inv) as [s'|]; [| now destruct s].
  destruct s', s; reflexivity.
Qed.

Lemma has_status_true (s : Status) (inv : Invoice) :
  has_status s inv = true <-> inv_status inv = Some s.
Proof.
  unfold has_status. destruct (inv_status inv) as [s'|].
  - destruct s', s; split; intro H; try reflexivity; discriminate.
  - destruct s; split; discriminate.
Qed.

Lemma filter_status_with_due_date (status : string) (due : Invoice -> string)
    (l : list Invoice) :
  filter (status_is status) (map (fun inv => with_due_date (due inv) inv) l) =
  map (fun inv => with_due_date (due inv) inv) (filter (status_is status) l).
Proof.
  induction l as [|inv l IH]; [reflexivity |].
  cbn [map filter]. rewrite IH.
  change (status_is status (with_due_date (due inv) inv)) with (status_is status inv).
  now destruct (status_is status inv).
Qed.

(** C9.  [getInvoicesByStatus(s)] returns exactly the invoices of the loaded
    collection whose stored status is [s], in the order of the collection;
    the due date plays no part (changing the due dates changes the result
    only by those due dates); the result is made of invoices of the
    collection, which is read and not written. *)
Theorem getInvoicesByStatus_spec (s : Status) (w : World) :
  (forall inv : Invoice,
     In inv (getInvoicesByStatus (status_string s) w) <->
     In inv (invoices w) /\ inv_status inv = Some s) /\
  getInvoicesByStatus (status_string s) w = filter (has_status s) (invoices w) /\
  (forall due : Invoice -> string,
     getInvoicesByStatus (status_string s)
       (set_invoices (map (fun inv => with_due_date (due inv) inv) (invoices w)) w) =
     map (fun inv => with_due_date (due inv) inv) (getInvoicesByStatus (status_string s) w)) /\
  incl (getInvoicesByStatus (status_string s) w) (invoices w).
Proof.
  assert (Hf : getInvoicesByStatus (status_string s) w = filter (has_status s) (invoices w)).
  { unfold getInvoicesByStatus. apply filter_ext. intro inv. apply status_is_has_status. }
  split; [| split; [exact Hf | split]].
  - intro inv. rewrite Hf, filter_In, has_status_true. reflexivity.
  - intro due. unfold getInvoicesByStatus. world_simpl.
    apply filter_status_with_due_date.
  - unfold getInvoicesByStatus. apply incl_filter.
Qed.

(** The demo invoice is [sent] and was due in February 2024: it is not
    among the overdue ones. *)
Example overdue_is_the_stored_status :
  map (fun inv : Invoice => (inv_status inv, inv_due_date inv)) (invoices admin_world)
  = [(Some sent, "2024-02-15")] /\
  getInvoicesByStatus "overdue" admin_world = [] /\
  getInvoicesByStatus "sent" admin_world = invoices admin_world.
Proof. repeat split. Qed.

(* ================================================================= *)
(** ** C8: deleting an invoice *)


Lemma delete_invoices_rows (fail : bool) (uid : option string) (id : string) (s s' : Store) :
  delete_invoices fail uid id s = Some s' ->
  exists u : string,
    uid = Some u /\
    invoices_table s' =
    filter (fun r => negb (has_id id r && owned_by u r)) (invoices_table s) /\
    invoice_items_table s' =
    filter (fun it => negb (existsb (has_id (item_invoice_id it))
                              (filter (fun r => has_id id r && owned_by u r)
                                 (invoices_table s))))
      (invoice_items_table s).
Proof.
  unfold delete_invoices. destruct fail; [discriminate |].
  destruct uid as [u|]; [| discriminate].
  intros [= <-]. exists u. repeat split.
Qed.





(** The cascade at work: the remote user holds two invoices with one item
    each; after the delete one invoice and one item are left. *)
Example deleteInvoice_cascade_counts :
  let w' := snd (deleteInvoice env4 "00000000-0000-4000-8000-100000000000" remote_world) in
  (List.length (invoices_table (store remote_world)),
   List.length (invoice_items_table (store remote_world))) = (2%nat, 2%nat) /\
  (List.length (invoices_table (store w')), List.length (invoice_items_table (store w')),
   List.length (invoices w')) = (1%nat, 1%nat, 1%nat).
Proof. split; reflexivity. Qed.

(* ================================================================= *)
(** ** Well-formed worlds stay well-formed *)

Lemma items_attached_user_view (u : string) (s : Store) : items_attached (user_view u s).
Proof.
  intros inv Hin it Hit.
  apply (select_invoices_in u s _ inv eq_refl) in Hin as (r & _ & _ & ->).
  cbn [attach_items invoice_items inv_row] in *.
  apply filter_In in Hit as [_ Hit]. now apply String.eqb_eq.
Qed.

Lemma items_attached_mockInvoices : items_attached mockInvoices.
Proof. intros inv [<- | []] it [<- | []]. reflexivity. Qed.

Lemma items_attached_filter (f : Invoice -> bool) (l : list Invoice) :
  items_attached l -> items_attached (filter f l).
Proof. intros Hl inv Hin. apply Hl. apply filter_In in Hin. tauto. Qed.

Lemma fetchInvoices_attached (e : Env) (k : nat) (w : World) :
  items_attached (invoices w) -> items_attached (invoices (fetchInvoices e k w)).
Proof.
  intro Ha. unfold fetchInvoices. destruct (user w) as [u|]; [| exact Ha].
  destruct (isMockUser w); world_simpl.
  - apply items_attached_filter, items_attached_mockInvoices.
  - unfold select_invoices. destruct (refused e k); world_simpl; [exact Ha |].
    apply items_attached_user_view.
Qed.

Lemma fetchInvoices_ok (e : Env) (k : nat) (w : World) :
  world_ok w -> world_ok (fetchInvoices e k w).
Proof.
  intros [Ha Hs]. split; [now apply fetchInvoices_attached | now rewrite fetchInvoices_store].
Qed.


Lemma patched_rows_ids (e : Env) (t u id : string) (p : InvoiceUpdate)
    (rows : list InvoiceRow) :
  map inv_id (patched_rows e t u id p rows) = map inv_id rows.
Proof.
  unfold patched_rows. rewrite map_map. apply map_ext. intro r.
  now destruct (has_id id r && owned_by u r).
Qed.

Lemma store_ok_ids (rows rows' : list InvoiceRow) (items : list InvoiceItemRow) :
  map inv_id rows' = map inv_id rows ->
  store_ok {| invoices_table := rows; invoice_items_table := items |} ->
  store_ok {| invoices_table := rows'; invoice_items_table := items |}.
Proof.
  intros Hids [Hpk Hfk]. unfold store_ok in *. cbn [invoices_table invoice_items_table] in *.
  rewrite Hids. split; [exact Hpk |].
  intros it Hit. destruct (Hfk it Hit) as (r & Hr & Hid).
  assert (Hin : In (item_invoice_id it) (map inv_id rows')).
  { rewrite Hids, <- Hid. now apply in_map. }
  apply in_map_iff in Hin as (r' & Hr' & Hin'). now exists r'.
Qed.

Lemma updateInvoice_store_ok (e : Env) (id : string) (p : InvoiceUpdate) (w : World) :
  store_ok (store w) -> store_ok (store (snd (updateInvoice e id p w))).
Proof.
  intro Hs. unfold updateInvoice. destruct (isMockUser w); cbn [snd]; [exact Hs |].
  destruct (update_invoices _ _ _ _ _ _ _) as [s'|] eqn:E; cbn [snd]; [| exact Hs].
  rewrite fetchInvoices_store. world_simpl.
  apply update_invoices_rows in E as (u & _ & Hrows & Hitems).
  destruct s' as [rows' items']. cbn [invoices_table invoice_items_table] in *. subst.
  apply (store_ok_ids (invoices_table (store w))); [apply patched_rows_ids |].
  now destruct (store w).
Qed.

Lemma updateInvoice_attached (e : Env) (id : string) (p : InvoiceUpdate) (w : World) :
  items_attached (invoices w) -> items_attached (invoices (snd (updateInvoice e id p w))).
Proof.
  intro Ha. unfold updateInvoice. destruct (isMockUser w); cbn [snd].
  - world_simpl. intros inv' Hin it Hit.
    apply in_patched_invoices in Hin as (inv & Hin & [[_ ->] | [_ (t & ->)]]);
      now apply (Ha inv Hin).
  - destruct (update_invoices _ _ _ _ _ _ _) as [s'|]; cbn [snd]; [| exact Ha].
    now apply fetchInvoices_attached.
Qed.

Lemma updateInvoice_ok (e : Env) (id : string) (p : InvoiceUpdate) (w : World) :
  world_ok w -> world_ok (snd (updateInvoice e id p w)).
Proof.
  intros [Ha Hs]. split; [now apply updateInvoice_attached | now apply updateInvoice_store_ok].
Qed.

Lemma NoDup_map_filter {A B : Type} (f : A -> B) (g : A -> bool) (l : list A) :
  NoDup (map f l) -> NoDup (map f (filter g l)).
Proof.
  induction l as [|x l IH]; cbn; [auto |].
  intro Hnd. inversion Hnd as [| ? ? Hx Hl]; subst.
  destruct (g x); cbn; [| auto].
  constructor; [| auto].
  intro Hin. apply Hx. apply in_map_iff in Hin as (y & Hy & Hin).
  apply filter_In in Hin as [Hin _]. rewrite <- Hy. now apply in_map.
Qed.

Lemma deleteInvoice_store_ok (e : Env) (id : string) (w : World) :
  store_ok (store w) -> store_ok (store (snd (deleteInvoice e id w))).
Proof.
  intros [Hpk Hfk]. unfold deleteInvoice. destruct (isMockUser w); cbn [snd];
    [now split |].
  destruct (delete_invoices _ _ _ _) as [s'|] eqn:E; cbn [snd]; [| now split].
  world_simpl.
  apply delete_invoices_rows in E as (u & _ & Hrows & Hitems).
  split.
  - rewrite Hrows. now apply NoDup_map_filter.
  - intros it Hit. rewrite Hitems in Hit. apply filter_In in Hit as [Hit Hkept].
    destruct (Hfk it Hit) as (r & Hr & Hid). exists r. split; [| exact Hid].
    rewrite Hrows. apply filter_In. split; [exact Hr |].
    destruct (has_id id r && owned_by u r) eqn:Hhit; [| reflexivity].
    exfalso. apply negb_true_iff in Hkept.
    assert (Hex : existsb (has_id (item_invoice_id it))
                    (filter (fun r => has_id id r && owned_by u r) (invoices_table (store w)))
                  = true).
    { apply existsb_exists. exists r. split.
      - apply filter_In. now split.
      - unfold has_id. rewrite Hid. apply String.eqb_refl. }
    congruence.
Qed.

Lemma deleteInvoice_attached (e : Env) (id : string) (w : World) :
  items_attached (invoices w) -> items_attached (invoices (snd (deleteInvoice e id w))).
Proof.
  intro Ha. unfold deleteInvoice. destruct (isMockUser w); cbn [snd].
  - world_simpl. now apply items_attached_filter.
  - destruct (delete_invoices _ _ _ _); cbn [snd]; [| exact Ha].
    world_simpl. now apply items_attached_filter.
Qed.

Lemma deleteInvoice_ok (e : Env) (id : string) (w : World) :
  world_ok w -> world_ok (snd (deleteInvoice e id w)).
Proof.
  intros [Ha Hs]. split; [now apply deleteInvoice_attached | now apply deleteInvoice_store_ok].
Qed.

Lemma insert_invoice_ok (fail : bool) (uid : option string) (r r' : InvoiceRow) (s s' : Store) :
  store_ok s -> insert_invoice fail uid r s = Some (r', s') ->
  store_ok s' /\ r' = r /\ In r (invoices_table s').
Proof.
  intros [Hpk Hfk]. unfold insert_invoice. destruct fail; [discriminate |].
  destruct uid as [u|]; [| discriminate].
  destruct (owned_by u r) ; cbn [andb]; [| discriminate].
  destruct (existsb (has_id (inv_id r)) (invoices_table s)) eqn:Hnew; cbn [negb andb];
    [discriminate |].
  destruct (existsb (fun r0 => inv_invoice_number r0 =? inv_invoice_number r)
              (invoices_table s)); cbn [negb]; [discriminate |].
  intro Heq. injection Heq as <- <-. cbn [invoices_table invoice_items_table].
  split; [| split; [reflexivity | apply in_or_app; right; now left]].
  split; cbn [invoices_table invoice_items_table].
  - rewrite map_app. cbn [map].
    apply Permutation_NoDup with (l := inv_id r :: map inv_id (invoices_table s)).
    + apply Permutation_cons_append.
    + constructor; [| exact Hpk].
      intro Hin. apply in_map_iff in Hin as (x & Hx & Hin).
      assert (existsb (has_id (inv_id r)) (invoices_table s) = true); [| congruence].
      apply existsb_exists. exists x. split; [exact Hin |].
      unfold has_id. now apply String.eqb_eq.
  - intros it Hit. destruct (Hfk it Hit) as (x & Hx & Hid).
    exists x. split; [apply in_or_app; now left | exact Hid].
Qed.

Lemma insert_items_ok (fail : bool) (uid : option string) (rows : list InvoiceItemRow)
    (s s' : Store) :
  store_ok s -> insert_items fail uid rows s = Some s' ->
  store_ok s' /\ invoices_table s' = invoices_table s.
Proof.
  intros [Hpk Hfk]. unfold insert_items. destruct fail; [discriminate |].
  destruct uid as [u|]; [| discriminate].
  destruct (forallb _ rows) eqn:Hall; cbn [andb]; [| discriminate].
  destruct (distinct (map item_id rows)); [| discriminate].
  intros [= <-]. cbn [invoices_table invoice_items_table].
  split; [| reflexivity]. split; [exact Hpk |].
  intros it Hit. apply in_app_or in Hit as [Hit | Hit]; [now apply Hfk |].
  rewrite forallb_forall in Hall. specialize (Hall it Hit).
  apply andb_true_iff in Hall as [Hex _].
  apply existsb_exists in Hex as (r & Hr & Hhit).
  apply andb_true_iff in Hhit as [Hid _].
  exists r. split; [exact Hr |]. now apply String.eqb_eq.
Qed.

Lemma createInvoice_store_ok (e : Env) (clientId : string) (items : list InvoiceItemInsert)
    (d : InvoiceInsert) (w : World) :
  store_ok (store w) -> store_ok (store (snd (createInvoice e clientId items d w))).
Proof.
  intro Hs. unfold createInvoice. destruct (user w) as [u|]; [| exact Hs].
  destruct (isMockUser w); cbn [snd]; [exact Hs |].
  destruct (insert_invoice _ _ _ _) as [[invoice s1]|] eqn:E1; cbn [snd]; [| exact Hs].
  destruct (insert_invoice_ok _ _ _ _ _ _ Hs E1) as (Hs1 & _ & _).
  destruct (insert_items _ _ _ s1) as [s2|] eqn:E2; cbn [snd]; [| exact Hs1].
  destruct (insert_items_ok _ _ _ _ _ Hs1 E2) as (Hs2 & _).
  now rewrite fetchInvoices_store.
Qed.

(** The items of the invoice the demo path builds carry the readings of the
    clock made for them. *)
Lemma mock_invoice_items (e : Env) (u clientId invoiceNumber : string)
    (items : list InvoiceItemInsert) (d : InvoiceInsert) (it : InvoiceItemRow) :
  In it (invoice_items (mock_invoice e u clientId invoiceNumber items d)) ->
  exists index : nat,
    (index < List.length items)%nat /\
    item_id it = "mock-item-" ++ toString (now_ms e (2 * index + 1)) ++ "-"
                 ++ toString (N.of_nat index) /\
    item_invoice_id it = "mock-inv-" ++ toString (now_ms e (2 * index + 2)).
Proof.
  cbn [mock_invoice invoice_items]. unfold mapi.
  assert (H : forall (k : nat) (l : list InvoiceItemInsert),
            In it (mapi_from
                     (fun index item =>
                        {| item_id := "mock-item-" ++ toString (now_ms e (2 * index + 1)) ++ "-"
                                      ++ toString (N.of_nat index);
                           item_invoice_id := "mock-inv-" ++ toString (now_ms e (2 * index + 2));
                           item_name := new_item_name item;
                           item_description := new_item_description item;
                           item_quantity := new_item_quantity item;
                           item_price := new_item_price item;
                           item_discount := new_item_discount item;
                           item_created_at := now_iso e (2 * index + 2) |}) k l) ->
            exists index : nat,
              (k <= index < k + List.length l)%nat /\
              item_id it = "mock-item-" ++ toString (now_ms e (2 * index + 1)) ++ "-"
                           ++ toString (N.of_nat index) /\
              item_invoice_id it = "mock-inv-" ++ toString (now_ms e (2 * index + 2))).
  { intros k l. revert k. induction l as [|x l IH]; intros k; cbn [mapi_from]; [intros [] |].
    intros [<- | Hin].
    - exists k. cbn [List.length item_id item_invoice_id]. repeat split; lia.
    - destruct (IH _ Hin) as (index & Hi & H1 & H2). exists index.
      cbn [List.length]. repeat split; [lia | lia | exact H1 | exact H2]. }
  intro Hin. destruct (H 0%nat items Hin) as (index & Hi & H1 & H2).
  exists index. repeat split; [lia | exact H1 | exact H2].
Qed.

Lemma createInvoice_attached (e : Env) (clientId : string) (items : list InvoiceItemInsert)
    (d : InvoiceInsert) (w : World) :
  isMockUser w = false \/ steady_clock e ->
  items_attached (invoices w) ->
  items_attached (invoices (snd (createInvoice e clientId items d w))).
Proof.
  intros Hc Ha. unfold createInvoice. destruct (user w) as [u|]; [| exact Ha].
  destruct (isMockUser w) eqn:Hm; cbn [snd].
  - destruct Hc as [Hc | Hc]; [discriminate |]. world_simpl.
    intros inv [<- | Hin]; [| now apply Ha].
    intros it Hit. apply mock_invoice_items in Hit as (index & _ & _ & ->).
    cbn [mock_invoice inv_row inv_id]. now rewrite Hc.
  - destruct (insert_invoice _ _ _ _) as [[invoice s1]|]; cbn [snd]; [| exact Ha].
    destruct (insert_items _ _ _ s1) as [s2|]; cbn [snd]; [| exact Ha].
    now apply fetchInvoices_attached.
Qed.

Lemma createInvoice_ok (e : Env) (clientId : string) (items : list InvoiceItemInsert)
    (d : InvoiceInsert) (w : World) :
  isMockUser w = false \/ steady_clock e ->
  world_ok w -> world_ok (snd (createInvoice e clientId items d w)).
Proof.
  intros Hc [Ha Hs].
  split; [now apply createInvoice_attached | now apply createInvoice_store_ok].
Qed.

(** A hook that mounts over a well-formed store is well-formed. *)
Lemma mounted_ok (u : string) (s : Store) : store_ok s -> world_ok (mounted u s).
Proof. intro Hs. split; [intros inv [] | exact Hs]. Qed.
(* ================================================================= *)
(** * Further properties of the calculator, the form and the hook *)

(** ** The calculator *)

(** X1.  In exact arithmetic, for a subtotal of at least 0, a discount in
    [0, 100] and a tax rate of at least 0, the total is
    [s * (1 - d/100) * (1 + t/100)], the discount amount lies between 0 and
    the subtotal, and the tax amount and the total are at least 0. *)
Theorem calculateInvoiceTotal_exact_bounds (s d t : Q) :
  (0 <= s -> 0 <= d <= 100 -> 0 <= t ->
   total (calculateInvoiceTotal s d t) == s * (1 - d / 100) * (1 + t / 100) /\
   0 <= discountAmount (calculateInvoiceTotal s d t) <= s /\
   0 <= taxAmount (calculateInvoiceTotal s d t) /\
   0 <= total (calculateInvoiceTotal s d t))%Q.
Proof.
  intros Hs Hd Ht. cbn.
  assert (Hx : (0 <= d / 100 <= 1)%Q).
  { split; [apply Qle_shift_div_l; lra | apply Qle_shift_div_r; lra]. }
  assert (Hy : (0 <= t / 100)%Q) by (apply Qle_shift_div_l; lra).
  set (x := (d / 100)%Q) in *. set (y := (t / 100)%Q) in *.
  assert (Hxs : (0 <= x * s)%Q) by (apply Qmult_le_0_compat; lra).
  assert (Hxs' : (0 <= (1 - x) * s)%Q) by (apply Qmult_le_0_compat; lra).
  assert (Htax : ((s - x * s) * t / 100 == (1 - x) * s * y)%Q) by (unfold y; field).
  assert (Hty : (0 <= (1 - x) * s * y)%Q) by (apply Qmult_le_0_compat; lra).
  split; [| split; [| split]].
  - rewrite Htax. ring.
  - lra.
  - rewrite Htax. exact Hty.
  - rewrite Htax. lra.
Qed.

Lemma calculateInvoiceTotal_exact_bounds_witness :
  (total (calculateInvoiceTotal 180 5 10) == 180 * (1 - 5 / 100) * (1 + 10 / 100) /\
   0 <= discountAmount (calculateInvoiceTotal 180 5 10) <= 180 /\
   0 <= taxAmount (calculateInvoiceTotal 180 5 10) /\
   0 <= total (calculateInvoiceTotal 180 5 10))%Q.
Proof.
  apply (calculateInvoiceTotal_exact_bounds 180 5 10); [| split |]; discriminate.
Defined.

(** X2.  On binary64 numbers the subtotal of no item is 0, and one more item
    at the end of the list adds its line amount to the subtotal. *)
Theorem calculateInvoiceSubtotal_append (items : list (InvoiceItem float))
    (item : InvoiceItem float) :
  calculateInvoiceSubtotal (@nil (InvoiceItem float)) = 0%float /\
  calculateInvoiceSubtotal (items ++ [item]) =
  (calculateInvoiceSubtotal items + calculateItemTotal item)%float.
Proof.
  split; [reflexivity |].
  unfold calculateInvoiceSubtotal. now rewrite fold_left_app.
Qed.

(** X3.  A discount of [0], [-0] or [NaN] counts as no discount: the line
    amount is the one of the item without a discount. *)
Theorem calculateItemTotal_falsy_discount (i n : string) (ds : option string)
    (q p d : float) :
  PrimFloat.eqb d 0 = true \/ PrimFloat.is_nan d = true ->
  calculateItemTotal {| id := i; name := n; description := ds;
                        quantity := q; price := p; discount := Some d |} =
  calculateItemTotal {| id := i; name := n; description := ds;
                        quantity := q; price := p; discount := None |}.
Proof.
  intro H. unfold calculateItemTotal, discount_or_zero.
  cbn [discount quantity price num_truthy binary64].
  assert (Hf : negb (PrimFloat.eqb d 0 || PrimFloat.is_nan d) = false).
  { destruct H as [-> | ->]; [reflexivity | now rewrite orb_true_r]. }
  now rewrite Hf.
Qed.

Lemma calculateItemTotal_falsy_discount_witness :
  calculateItemTotal {| id := "1"; name := "a"; description := None;
                        quantity := 2%float; price := 100%float;
                        discount := Some PrimFloat.nan |} =
  calculateItemTotal {| id := "1"; name := "a"; description := None;
                        quantity := 2%float; price := 100%float; discount := None |}.
Proof.
  apply (calculateItemTotal_falsy_discount "1" "a" None 2 100 PrimFloat.nan).
  right. reflexivity.
Defined.

(** ** The form *)

Lemma length_remove_at {A : Type} (index : nat) (l : list A) :
  (List.length l - 1 <= List.length (remove_at index l))%nat.
Proof.
  unfold remove_at. rewrite length_app, length_firstn, length_skipn. lia.
Qed.

Lemma edit_items_not_empty (ed : ItemEdit) (fields : list InvoiceFormItem) :
  fields <> [] -> edit_items ed fields <> [].
Proof.
  intro Hne. destruct ed as [| index]; cbn [edit_items].
  - unfold addItem. intro H. now apply app_eq_nil in H as [_ H].
  - unfold removeItem. destruct (Nat.ltb_spec 1 (List.length fields)) as [Hlt | _];
      [| exact Hne].
    intro H. pose proof (length_remove_at index fields) as Hlen.
    rewrite H in Hlen. cbn in Hlen. lia.
Qed.

(** X4.  The item list of the form is never emptied: whatever items are
    added and removed, a list that holds an item still holds one, so the
    list that starts with the blank item always passes [min(1)]. *)
Theorem form_items_never_empty (eds : list ItemEdit) (fields : list InvoiceFormItem) :
  fields <> [] ->
  edit_all eds fields <> [] /\
  (1 <=? List.length (edit_all eds fields))%nat = true.
Proof.
  intro Hne.
  assert (H : edit_all eds fields <> []).
  { revert fields Hne. unfold edit_all.
    induction eds as [|ed eds IH]; intros fields Hne; cbn [fold_left]; [exact Hne |].
    apply IH. now apply edit_items_not_empty. }
  split; [exact H |].
  destruct (edit_all eds fields); [contradiction | reflexivity].
Qed.

Lemma form_items_never_empty_witness :
  edit_all [RemoveItem 0; AddItem; RemoveItem 0; RemoveItem 0] [blank_item] <> [] /\
  (1 <=? List.length (edit_all [RemoveItem 0; AddItem; RemoveItem 0; RemoveItem 0]
                        [blank_item]))%nat = true.
Proof.
  apply (form_items_never_empty [RemoveItem 0; AddItem; RemoveItem 0; RemoveItem 0]
           [blank_item]).
  discriminate.
Defined.

Lemma form_subtotal_from (items : list InvoiceFormItem) (acc : float) :
  Forall (fun it => kept_by_or_zero (form_item_quantity it) /\
                    kept_by_or_zero (form_item_price it)) items ->
  fold_left (fun sum item =>
               let itemTotal := (or_zero (form_item_quantity item)
                                 * or_zero (form_item_price item))%float in
               let itemDiscount := (or_zero (form_item_discount item) / 100 * itemTotal)%float in
               (sum + (itemTotal - itemDiscount))%float)
    items acc =
  fold_left (fun sum item => num_add sum (calculateItemTotal item))
    (map form_invoice_item items) acc.
Proof.
  intro H. revert acc. induction H as [| it items [Hq Hp] _ IH]; intro acc; [reflexivity |].
  cbn [fold_left map]. rewrite IH. f_equal.
  unfold kept_by_or_zero in Hq, Hp. rewrite Hq, Hp. reflexivity.
Qed.

(** X5.  The subtotal the page computes for its preview and for the invoice
    it stores is [calculateInvoiceSubtotal] of the items, whenever no
    quantity and no price is [NaN] or [-0]. *)
Theorem form_subtotal_is_calculator (items : list InvoiceFormItem) :
  Forall (fun it => kept_by_or_zero (form_item_quantity it) /\
                    kept_by_or_zero (form_item_price it)) items ->
  form_subtotal items = calculateInvoiceSubtotal (map form_invoice_item items).
Proof.
  intro H. unfold form_subtotal, calculateInvoiceSubtotal.
  now apply form_subtotal_from.
Qed.

Lemma form_subtotal_is_calculator_witness :
  let items := [ {| form_item_name := "Design"; form_item_description := "";
                    form_item_quantity := 2%float; form_item_price := 100%float;
                    form_item_discount := 10%float |};
                 blank_item ] in
  form_subtotal items = calculateInvoiceSubtotal (map form_invoice_item items) /\
  form_subtotal items = 180%float.
Proof.
  intro items. split; [| reflexivity].
  apply (form_subtotal_is_calculator items).
  repeat constructor.
Defined.

(** Where a quantity is [NaN] the two part: the page counts the line as 0,
    the calculator yields [NaN]. *)
Example form_subtotal_nan_quantity :
  let items := [ {| form_item_name := "x"; form_item_description := "";
                    form_item_quantity := PrimFloat.nan; form_item_price := 100%float;
                    form_item_discount := 0%float |} ] in
  form_subtotal items = 0%float /\
  PrimFloat.is_nan (calculateInvoiceSubtotal (map form_invoice_item items)) = true.
Proof. split; reflexivity. Qed.

(** ** Looking invoices up *)

Lemma find_filter_other (id id' : string) (l : list Invoice) :
  id' <> id ->
  find (fun invoice : Invoice => inv_id invoice =? id')
    (filter (fun invoice : Invoice => negb (inv_id invoice =? id)) l) =
  find (fun invoice : Invoice => inv_id invoice =? id') l.
Proof.
  intro Hne. induction l as [|inv l IH]; [reflexivity |].
  cbn [filter find].
  destruct (String.eqb_spec (inv_id inv) id) as [E | E]; cbn [negb find].
  - destruct (String.eqb_spec (inv_id inv) id') as [E' | _]; [congruence | exact IH].
  - now rewrite IH.
Qed.

Lemma find_filter_same (id : string) (l : list Invoice) :
  find (fun invoice : Invoice => inv_id invoice =? id)
    (filter (fun invoice : Invoice => negb (inv_id invoice =? id)) l) = None.
Proof.
  induction l as [|inv l IH]; [reflexivity |].
  cbn [filter]. destruct (inv_id inv =? id) eqn:E; cbn [negb find]; [exact IH |].
  now rewrite E.
Qed.

(** X6.  [getInvoice(id)] is [undefined] exactly when no invoice of the
    collection has this id; what it finds is an invoice of the collection
    with this id, the first one in the order of the collection. *)
Theorem getInvoice_lookup (id : string) (w : World) :
  (getInvoice id w = None <->
   forall inv : Invoice, In inv (invoices w) -> inv_id inv <> id) /\
  (forall inv : Invoice, getInvoice id w = Some inv ->
     In inv (invoices w) /\ inv_id inv = id /\
     exists before after : list Invoice,
       invoices w = (before ++ inv :: after)%list /\
       forall x : Invoice, In x before -> inv_id x <> id).
Proof.
  unfold getInvoice. split.
  - split.
    + intros H inv Hin Hid. apply (find_none _ _ H) in Hin.
      rewrite Hid, String.eqb_refl in Hin. discriminate.
    + intro H. induction (invoices w) as [|x l IH]; [reflexivity |].
      cbn [find]. destruct (String.eqb_spec (inv_id x) id) as [E | _].
      * exfalso. apply (H x); [now left | exact E].
      * apply IH. intros inv Hin. apply H. now right.
  - intros inv H. induction (invoices w) as [|x l IH]; [discriminate |].
    cbn [find] in H. destruct (String.eqb_spec (inv_id x) id) as [E | E].
    + injection H as <-. split; [now left |]. split; [exact E |].
      exists [], l. split; [reflexivity | intros y []].
    + destruct (IH H) as (Hin & Hid & before & after & Hl & Hb).
      split; [now right |]. split; [exact Hid |].
      exists (x :: before), after. split; [now rewrite Hl |].
      intros y [<- | Hy]; [exact E | now apply Hb].
Qed.

(** X7.  After [deleteInvoice(id)] returns, [getInvoice(id)] finds nothing and
    [getInvoice] of every other id finds what it found before; when the call
    throws, the state is as it was. *)
Theorem deleteInvoice_then_getInvoice (e : Env) (id : string) (w : World) :
  (fst (deleteInvoice e id w) = Returned tt ->
   getInvoice id (snd (deleteInvoice e id w)) = None /\
   forall id' : string, id' <> id ->
     getInvoice id' (snd (deleteInvoice e id w)) = getInvoice id' w) /\
  (forall err : Error, fst (deleteInvoice e id w) = Thrown err ->
   err = StoreError /\ isMockUser w = false /\ snd (deleteInvoice e id w) = w).
Proof.
  unfold deleteInvoice, getInvoice. destruct (isMockUser w).
  - cbn [fst snd]. split; [| discriminate]. intros _. world_simpl.
    split; [apply find_filter_same | intros id' Hne; now apply find_filter_other].
  - destruct (delete_invoices _ _ _ _) as [s'|]; cbn [fst snd].
    + split; [| discriminate]. intros _. world_simpl.
      split; [apply find_filter_same | intros id' Hne; now apply find_filter_other].
    + split; [discriminate |]. intros err [= <-]. repeat split.
Qed.

Lemma length_mapi_from {A B : Type} (f : nat -> A -> B) (k : nat) (l : list A) :
  List.length (mapi_from f k l) = List.length l.
Proof. revert k. induction l as [|x l IH]; intro k; cbn; [reflexivity | now rewrite IH]. Qed.

(** X8.  For a demo user [createInvoice] returns the new invoice and puts it
    at the head of the collection, where [getInvoice] finds it; it carries the
    generated number, the status of the given data as it is (none when the
    data has none: the demo path fills in no default) and one item per given
    item.  The id of the invoice and the [invoice_id] of each item are
    [mock-inv-<Date.now()>] at separate readings of the clock: the items
    reference the invoice when the clock does not tick between them. *)
Theorem createInvoice_demo_round_trip (e : Env) (clientId : string)
    (items : list InvoiceItemInsert) (d : InvoiceInsert) (w : World) (u : string) :
  user w = Some u -> isMockUser w = true ->
  exists inv : Invoice,
    createInvoice e clientId items d w =
    (Returned (Some inv), set_invoices (inv :: invoices w) w) /\
    getInvoice (inv_id inv) (snd (createInvoice e clientId items d w)) = Some inv /\
    inv_invoice_number inv = generateInvoiceNumber e w /\
    inv_user_id inv = u /\ inv_client_id inv = clientId /\
    inv_status inv = ins_status d /\
    List.length (invoice_items inv) = List.length items /\
    inv_id inv = "mock-inv-" ++ toString (now_ms e 0) /\
    (forall it : InvoiceItemRow, In it (invoice_items inv) ->
       exists index : nat,
         (index < List.length items)%nat /\
         item_invoice_id it = "mock-inv-" ++ toString (now_ms e (2 * index + 2))) /\
    (steady_clock e ->
     forall it : InvoiceItemRow, In it (invoice_items inv) ->
       item_invoice_id it = inv_id inv).
Proof.
  intros Hu Hm.
  exists (mock_invoice e u clientId (generateInvoiceNumber e w) items d).
  unfold createInvoice. rewrite Hu, Hm. cbn [snd].
  split; [reflexivity |]. split.
  - unfold getInvoice. world_simpl. cbn [find]. now rewrite String.eqb_refl.
  - do 4 (split; [reflexivity |]).
    split; [cbn [mock_invoice invoice_items]; apply length_mapi_from |].
    split; [reflexivity |]. split.
    + intros it Hit. apply mock_invoice_items in Hit as (index & Hi & _ & H2).
      now exists index.
    + intros Hc it Hit. apply mock_invoice_items in Hit as (index & _ & _ & ->).
      cbn [mock_invoice inv_row inv_id]. now rewrite Hc.
Qed.

Lemma createInvoice_demo_round_trip_witness :
  steady_clock env2 /\
  exists inv : Invoice,
    createInvoice env2 "mock-1" [sample_item; sample_item] sample_insert admin_world =
    (Returned (Some inv), set_invoices (inv :: invoices admin_world) admin_world) /\
    inv_id inv = "mock-inv-2" /\
    map item_invoice_id (invoice_items inv) = ["mock-inv-2"; "mock-inv-2"] /\
    (forall it : InvoiceItemRow, In it (invoice_items inv) ->
       item_invoice_id it = inv_id inv).
Proof.
  assert (Hc : steady_clock env2) by (intro k; reflexivity).
  split; [exact Hc |].
  destruct (createInvoice_demo_round_trip env2 "mock-1" [sample_item; sample_item]
              sample_insert admin_world "admin@invoicepro.com" eq_refl eq_refl)
    as (inv & Hcreate & _ & _ & _ & _ & _ & _ & Hid & _ & Hatt).
  exists inv. split; [exact Hcreate |]. split; [exact Hid |].
  split; [| exact (Hatt Hc)].
  injection Hcreate as Hinv _. now rewrite <- Hinv.
Defined.

(** Where the clock ticks after the first reading, the item does not
    reference the invoice it is attached to. *)
Example createInvoice_demo_tick :
  map (fun inv : Invoice => (inv_id inv, map item_invoice_id (invoice_items inv)))
    (invoices (snd (createInvoice env_tick "mock-1" [sample_item] sample_insert admin_world)))
  = [("mock-inv-1000", ["mock-inv-1001"]); ("mock-inv-1", ["mock-inv-1"])].
Proof. reflexivity. Qed.

(** ** Creating an invoice in the store *)

Lemma insert_invoice_accepted (fail : bool) (uid : option string) (r r' : InvoiceRow)
    (s s' : Store) :
  insert_invoice fail uid r s = Some (r', s') ->
  fail = false /\ uid = Some (inv_user_id r) /\ r' = r /\
  existsb (has_id (inv_id r)) (invoices_table s) = false /\
  invoices_table s' = (invoices_table s ++ [r])%list /\
  invoice_items_table s' = invoice_items_table s.
Proof.
  unfold insert_invoice. destruct fail; [discriminate |].
  destruct uid as [u|]; [| discriminate].
  destruct (String.eqb_spec (inv_user_id r) u) as [Ho | Ho];
    unfold owned_by; [| rewrite (proj2 (String.eqb_neq _ _) Ho); discriminate].
  rewrite (proj2 (String.eqb_eq _ _) Ho). cbn [andb].
  destruct (existsb (has_id (inv_id r)) (invoices_table s)) eqn:Hnew; cbn [negb andb];
    [discriminate |].
  destruct (existsb (fun r0 => inv_invoice_number r0 =? inv_invoice_number r)
              (invoices_table s)); cbn [negb]; [discriminate |].
  intro Heq. injection Heq as <- <-. subst u. repeat split.
Qed.

Lemma insert_items_accepted (fail : bool) (uid : option string) (rows : list InvoiceItemRow)
    (s s' : Store) :
  insert_items fail uid rows s = Some s' ->
  invoices_table s' = invoices_table s /\
  invoice_items_table s' = (invoice_items_table s ++ rows)%list.
Proof.
  unfold insert_items. destruct fail; [discriminate |].
  destruct uid as [u|]; [| discriminate].
  destruct (_ && _); [| discriminate].
  intros [= <-]. split; reflexivity.
Qed.

(** No item of a well-formed store references an id no row has. *)
Lemma no_item_of_new_id (s : Store) (i : string) :
  store_ok s -> existsb (has_id i) (invoices_table s) = false ->
  forall it : InvoiceItemRow, In it (invoice_items_table s) -> item_invoice_id it <> i.
Proof.
  intros [_ Hfk] Hnew it Hit Hid. destruct (Hfk it Hit) as (r & Hr & Hrid).
  assert (existsb (has_id i) (invoices_table s) = true); [| congruence].
  apply existsb_exists. exists r. split; [exact Hr |].
  unfold has_id. apply String.eqb_eq. congruence.
Qed.

(** X9.  For a remote user whose collection lists rows of the store,
    [createInvoice] never returns the invoice it created: it looks the new id
    up in the [invoices] of the call, where it cannot be, and returns
    [undefined]. *)
Theorem createInvoice_remote_returns_nothing (e : Env) (clientId : string)
    (items : list InvoiceItemInsert) (d : InvoiceInsert) (w : World)
    (found : option Invoice) :
  isMockUser w = false -> listed_in_store w ->
  fst (createInvoice e clientId items d w) = Returned found -> found = None.
Proof.
  intros Hm Hl. unfold createInvoice. destruct (user w) as [u|]; [| discriminate].
  rewrite Hm.
  destruct (insert_invoice _ _ _ _) as [[invoice s1]|] eqn:E1; [| discriminate].
  destruct (insert_items _ _ _ s1) as [s2|]; [| discriminate].
  cbn [fst]. intros [= <-].
  apply insert_invoice_accepted in E1 as (_ & _ & -> & Hnew & _ & _).
  destruct (find _ (invoices w)) as [inv|] eqn:F; [exfalso | reflexivity].
  apply find_some in F as [Hin Hid]. apply String.eqb_eq in Hid.
  destruct (Hl inv Hin) as (r0 & Hr0 & Hid0).
  assert (Hex : existsb (has_id (inv_id (inserted_row e u clientId
                                           (generateInvoiceNumber e w) d)))
                  (invoices_table (store w)) = true); [| congruence].
  apply existsb_exists. exists r0. split; [exact Hr0 |].
  unfold has_id. apply String.eqb_eq. congruence.
Qed.

Lemma remote_world_listed : listed_in_store remote_world.
Proof.
  assert (Hrows : exists r1 r2 : InvoiceRow,
            invoices_table (store remote_world) = [r1; r2] /\
            inv_id r1 = "00000000-0000-4000-8000-100000000000" /\
            inv_id r2 = "00000000-0000-4000-8000-200000000000").
  { vm_compute. do 2 eexists. repeat split. }
  destruct Hrows as (r1 & r2 & Hr & H1 & H2).
  intros inv Hin. rewrite Hr. vm_compute in Hin. destruct Hin as [<- | [<- | []]].
  - exists r2. split; [right; now left | exact H2].
  - exists r1. split; [now left | exact H1].
Qed.

Lemma createInvoice_remote_returns_nothing_witness :
  fst (createInvoice env3 "client-1" [sample_item] sample_insert remote_world) =
  Returned None.
Proof.
  assert (H : exists found : option Invoice,
            fst (createInvoice env3 "client-1" [sample_item] sample_insert remote_world) =
            Returned found).
  { eexists. vm_compute. reflexivity. }
  destruct H as (found & H). rewrite H. f_equal.
  exact (createInvoice_remote_returns_nothing env3 "client-1" [sample_item] sample_insert
           remote_world found eq_refl remote_world_listed H).
Defined.



Lemma filter_none {A : Type} (f : A -> bool) (l : list A) :
  (forall x : A, In x l -> f x = false) -> filter f l = [].
Proof.
  induction l as [|x l IH]; intro H; [reflexivity |].
  cbn [filter]. rewrite (H x (or_introl eq_refl)). apply IH.
  intros y Hy. apply H. now right.
Qed.




(** X11.  When the store takes the invoice row and refuses the items,
    [createInvoice] throws and undoes nothing: the row stays in the store
    with no item referencing it, and the collection is as it was. *)
Theorem createInvoice_partial_failure (e : Env) (clientId : string)
    (items : list InvoiceItemInsert) (d : InvoiceInsert) (w : World) (u : string)
    (r : InvoiceRow) (s1 : Store) :
  user w = Some u -> isMockUser w = false -> store_ok (store w) ->
  insert_invoice (refused e 1) (Some u)
    (inserted_row e u clientId (generateInvoiceNumber e w) d) (store w) = Some (r, s1) ->
  insert_items (refused e 2) (Some u) (mapi (inserted_item e (inv_id r)) items) s1 = None ->
  createInvoice e clientId items d w = (Thrown StoreError, set_store s1 w) /\
  In r (invoices_table s1) /\
  (forall it : InvoiceItemRow, In it (invoice_items_table s1) ->
     item_invoice_id it <> inv_id r) /\
  invoices (snd (createInvoice e clientId items d w)) = invoices w.
Proof.
  intros Hu Hm Hs E1 E2.
  assert (Hc : createInvoice e clientId items d w = (Thrown StoreError, set_store s1 w)).
  { unfold createInvoice. now rewrite Hu, Hm, E1, E2. }
  rewrite Hc. split; [reflexivity |].
  apply insert_invoice_accepted in E1 as (_ & _ & -> & Hnew & Hrows1 & Hitems1).
  split; [rewrite Hrows1; apply in_or_app; right; now left |].
  split; [| reflexivity].
  rewrite Hitems1. now apply no_item_of_new_id.
Qed.

Lemma createInvoice_partial_failure_witness :
  let w := mounted "user-1" empty_store in
  let r := inserted_row env_items_refused "user-1" "client-1"
             (generateInvoiceNumber env_items_refused w) sample_insert in
  let s1 := {| invoices_table := [r]; invoice_items_table := [] |} in
  createInvoice env_items_refused "client-1" [sample_item] sample_insert w =
  (Thrown StoreError, set_store s1 w) /\
  In r (invoices_table s1) /\
  (forall it : InvoiceItemRow, In it (invoice_items_table s1) ->
     item_invoice_id it <> inv_id r) /\
  invoices (snd (createInvoice env_items_refused "client-1" [sample_item] sample_insert w))
  = invoices w.
Proof.
  assert (Hs : store_ok (store (mounted "user-1" empty_store))).
  { split; [constructor | intros it []]. }
  exact (createInvoice_partial_failure env_items_refused "client-1" [sample_item]
           sample_insert (mounted "user-1" empty_store) "user-1" _ _
           eq_refl eq_refl Hs eq_refl eq_refl).
Defined.

(** ** What the operations leave alone *)

Lemma filter_owned_other_patched (e : Env) (t u other id : string) (p : InvoiceUpdate)
    (rows : list InvoiceRow) :
  other <> u ->
  filter (owned_by other) (patched_rows e t u id p rows) = filter (owned_by other) rows.
Proof.
  intro Hne. unfold patched_rows. induction rows as [|r rows IH]; [reflexivity |].
  cbn [map filter]. rewrite IH.
  destruct (has_id id r && owned_by u r) eqn:Hhit; [| reflexivity].
  apply andb_true_iff in Hhit as [_ Ho]. apply String.eqb_eq in Ho.
  unfold owned_by. cbn [inv_user_id set_updated_at stored_update].
  rewrite Ho. now rewrite (proj2 (String.eqb_neq u other)) by congruence.
Qed.

Lemma filter_owned_other_deleted (u other id : string) (rows : list InvoiceRow) :
  other <> u ->
  filter (owned_by other) (filter (fun r => negb (has_id id r && owned_by u r)) rows) =
  filter (owned_by other) rows.
Proof.
  intro Hne. induction rows as [|r rows IH]; [reflexivity |].
  cbn [filter].
  destruct (has_id id r && owned_by u r) eqn:Hhit; cbn [negb filter]; rewrite IH;
    [| reflexivity].
  apply andb_true_iff in Hhit as [_ Ho]. apply String.eqb_eq in Ho.
  unfold owned_by. rewrite Ho. now rewrite (proj2 (String.eqb_neq u other)) by congruence.
Qed.

Lemma updateInvoice_other_rows (e : Env) (id : string) (p : InvoiceUpdate) (w : World)
    (other : string) :
  user w <> Some other ->
  filter (owned_by other) (invoices_table (store (snd (updateInvoice e id p w)))) =
  filter (owned_by other) (invoices_table (store w)).
Proof.
  intro Hne. unfold updateInvoice. destruct (isMockUser w); [reflexivity |].
  destruct (update_invoices _ _ _ _ _ _ _) as [s'|] eqn:E; cbn [snd]; [| reflexivity].
  rewrite fetchInvoices_store. world_simpl.
  apply update_invoices_rows in E as (u & Hu & -> & _).
  apply filter_owned_other_patched. congruence.
Qed.

(** X12.  No operation of the hook touches the invoice rows of another user:
    whatever the signed-in user fetches, creates, updates, deletes, pays or
    sends, the rows of the store owned by anyone else are the same rows in
    the same order. *)
Theorem other_users_rows_untouched (e : Env) (op : Operation) (w : World) (other : string) :
  user w <> Some other ->
  filter (owned_by other) (invoices_table (store (run_operation e op w))) =
  filter (owned_by other) (invoices_table (store w)).
Proof.
  intro Hne. destruct op as [| clientId items d | id p | id | id | id]; cbn [run_operation].
  - now rewrite fetchInvoices_store.
  - unfold createInvoice. destruct (user w) as [u|] eqn:Hu; [| reflexivity].
    destruct (isMockUser w); [reflexivity |].
    destruct (insert_invoice _ _ _ _) as [[invoice s1]|] eqn:E1; [| reflexivity].
    apply insert_invoice_accepted in E1 as (_ & _ & -> & _ & Hrows1 & _).
    assert (H1 : filter (owned_by other) (invoices_table s1) =
                 filter (owned_by other) (invoices_table (store w))).
    { rewrite Hrows1, filter_app. cbn [filter]. unfold owned_by at 2.
      cbn [inv_user_id inserted_row].
      rewrite (proj2 (String.eqb_neq u other)) by congruence. apply app_nil_r. }
    destruct (insert_items _ _ _ s1) as [s2|] eqn:E2; cbn [snd]; [| exact H1].
    rewrite fetchInvoices_store. world_simpl.
    apply insert_items_accepted in E2 as (-> & _). exact H1.
  - now apply updateInvoice_other_rows.
  - unfold deleteInvoice. destruct (isMockUser w); [reflexivity |].
    destruct (delete_invoices _ _ _ _) as [s'|] eqn:E; cbn [snd]; [| reflexivity].
    world_simpl. apply delete_invoices_rows in E as (u & Hu & -> & _).
    apply filter_owned_other_deleted. congruence.
  - now apply updateInvoice_other_rows.
  - now apply updateInvoice_other_rows.
Qed.

(** A store with a row of another user: the signed-in user ["user-1"] sends
    the id of that row and the row stays as it is. *)
Lemma other_users_rows_untouched_witness :
  let foreign := inserted_row env1 "user-2" "client-9" "INV-2026-0001" sample_insert in
  let w := mounted "user-1" {| invoices_table := [foreign]; invoice_items_table := [] |} in
  filter (owned_by "user-2")
    (invoices_table (store (run_operation env2 (OpSend (inv_id foreign)) w))) = [foreign].
Proof.
  intros foreign w.
  rewrite (other_users_rows_untouched env2 (OpSend (inv_id foreign)) w "user-2");
    [reflexivity | discriminate].
Defined.

(** ** Invariants of the operations *)

Lemma updateInvoice_user (e : Env) (id : string) (p : InvoiceUpdate) (w : World) :
  user (snd (updateInvoice e id p w)) = user w.
Proof.
  unfold updateInvoice. destruct (isMockUser w); [reflexivity |].
  destruct (update_invoices _ _ _ _ _ _ _); cbn [snd]; [| reflexivity].
  now rewrite fetchInvoices_user.
Qed.

Lemma run_operation_user (e : Env) (op : Operation) (w : World) :
  user (run_operation e op w) = user w.
Proof.
  destruct op as [| clientId items d | id p | id | id | id]; cbn [run_operation].
  - apply fetchInvoices_user.
  - unfold createInvoice. destruct (user w) as [u|] eqn:Hu; [| exact Hu].
    destruct (isMockUser w); [exact Hu |].
    destruct (insert_invoice _ _ _ _) as [[invoice s1]|]; [| exact Hu].
    destruct (insert_items _ _ _ s1); cbn [snd]; [| exact Hu].
    now rewrite fetchInvoices_user.
  - apply updateInvoice_user.
  - unfold deleteInvoice. destruct (isMockUser w); [reflexivity |].
    now destruct (delete_invoices _ _ _ _).
  - apply updateInvoice_user.
  - apply updateInvoice_user.
Qed.

Lemma run_operations_user (ops : list (Env * Operation)) (w : World) :
  user (run_operations ops w) = user w.
Proof.
  revert w. induction ops as [| [e op] ops IH]; intro w; cbn [run_operations];
    [reflexivity |].
  now rewrite IH, run_operation_user.
Qed.

Lemma run_operation_store_ok (e : Env) (op : Operation) (w : World) :
  store_ok (store w) -> store_ok (store (run_operation e op w)).
Proof.
  intro Hs. destruct op as [| clientId items d | id p | id | id | id]; cbn [run_operation].
  - now rewrite fetchInvoices_store.
  - now apply createInvoice_store_ok.
  - now apply updateInvoice_store_ok.
  - now apply deleteInvoice_store_ok.
  - now apply updateInvoice_store_ok.
  - now apply updateInvoice_store_ok.
Qed.

Lemma run_operation_attached (e : Env) (op : Operation) (w : World) :
  isMockUser w = false \/ steady_clock e ->
  items_attached (invoices w) -> items_attached (invoices (run_operation e op w)).
Proof.
  intros Hc Ha. destruct op as [| clientId items d | id p | id | id | id]; cbn [run_operation].
  - now apply fetchInvoices_attached.
  - now apply createInvoice_attached.
  - now apply updateInvoice_attached.
  - now apply deleteInvoice_attached.
  - now apply updateInvoice_attached.
  - now apply updateInvoice_attached.
Qed.

(** X13.  The operations keep the store well-formed, whatever it answers or
    refuses: after any sequence of fetches, creations, updates, deletions,
    payments and sendings the invoice ids of the store are pairwise
    different and every item row references an invoice row; the signed-in
    user is the same.  The items attached to the invoices of the hook's
    collection keep referencing their invoice for a remote user, and for a
    demo user as long as the clock does not tick within a call. *)
Theorem operations_keep_world_ok (ops : list (Env * Operation)) (w : World) :
  (store_ok (store w) -> store_ok (store (run_operations ops w))) /\
  user (run_operations ops w) = user w /\
  (isMockUser w = false \/ Forall (fun eo => steady_clock (fst eo)) ops ->
   world_ok w -> world_ok (run_operations ops w)).
Proof.
  split; [| split; [apply run_operations_user |]].
  - revert w. induction ops as [| [e op] ops IH]; intros w Hs; cbn [run_operations];
      [exact Hs |].
    apply IH. now apply run_operation_store_ok.
  - revert w. induction ops as [| [e op] ops IH]; intros w Hc Hw; cbn [run_operations];
      [exact Hw |].
    assert (Hc1 : isMockUser w = false \/ steady_clock e).
    { destruct Hc as [Hc | Hc]; [now left | right]. now inversion Hc. }
    apply IH.
    + destruct Hc as [Hc | Hc]; [left | right; now inversion Hc].
      rewrite <- Hc. apply isMockUser_user. apply run_operation_user.
    + destruct Hw as [Ha Hs].
      split; [now apply run_operation_attached | now apply run_operation_store_ok].
Qed.

Lemma operations_keep_world_ok_witness :
  let ops := [(env1, OpCreate "client-1" [sample_item; sample_item] sample_insert);
              (env2, OpSend "00000000-0000-4000-8000-100000000000");
              (env_items_refused, OpCreate "client-1" [sample_item] sample_insert);
              (env3, OpMarkAsPaid "00000000-0000-4000-8000-100000000000");
              (env4, OpDelete "id-0")] in
  world_ok (run_operations ops (mounted "user-1" empty_store)) /\
  world_ok (snd (createInvoice env2 "mock-1" [sample_item] sample_insert admin_world)).
Proof.
  intro ops.
  assert (Hs : store_ok empty_store) by (split; [constructor | intros it []]).
  split.
  - apply (proj2 (proj2 (operations_keep_world_ok ops (mounted "user-1" empty_store))));
      [left; reflexivity | now apply mounted_ok].
  - apply (proj2 (proj2 (operations_keep_world_ok
                           [(env2, OpCreate "mock-1" [sample_item] sample_insert)]
                           admin_world))).
    + right. constructor; [intro k; reflexivity | constructor].
    + split; [| exact Hs].
      intros inv [<- | []] it [<- | []]. reflexivity.
Defined.

(** X14.  For a demo user a fetch brings the demo data back, whatever was
    created, updated or deleted before: the collection is again the demo
    invoices of the user, which are none for [demo@invoicepro.com]. *)
Theorem fetchInvoices_demo_resets (e : Env) (k : nat) (ops : list (Env * Operation))
    (w : World) (u : string) :
  user w = Some u -> isMockUser w = true ->
  invoices (fetchInvoices e k (run_operations ops w)) =
  filter (fun invoice : Invoice => inv_user_id invoice =? u) mockInvoices /\
  (u = "demo@invoicepro.com" -> invoices (fetchInvoices e k (run_operations ops w)) = []).
Proof.
  intros Hu Hm.
  assert (Hu' : user (run_operations ops w) = Some u) by now rewrite run_operations_user.
  assert (Hm' : isMockUser (run_operations ops w) = true).
  { rewrite <- Hm. apply isMockUser_user. congruence. }
  assert (H : invoices (fetchInvoices e k (run_operations ops w)) =
              filter (fun invoice : Invoice => inv_user_id invoice =? u) mockInvoices).
  { unfold fetchInvoices. now rewrite Hu', Hm'. }
  split; [exact H |]. intros ->. rewrite H. reflexivity.
Qed.

Lemma fetchInvoices_demo_resets_witness :
  let ops := [(env2, OpCreate "mock-1" [sample_item] sample_insert);
              (env3, OpDelete "mock-inv-1")] in
  map (fun inv : Invoice => inv_id inv) (invoices (run_operations ops admin_world))
  = ["mock-inv-2"] /\
  map (fun inv : Invoice => inv_id inv)
    (invoices (fetchInvoices env4 0 (run_operations ops admin_world))) = ["mock-inv-1"].
Proof.
  intro ops. split; [reflexivity |].
  rewrite (proj1 (fetchInvoices_demo_resets env4 0 ops admin_world "admin@invoicepro.com"
                    eq_refl eq_refl)).
  reflexivity.
Defined.

(** ** Updating *)

Lemma patched_rows_user_ids (e : Env) (t u id : string) (p : InvoiceUpdate)
    (rows : list InvoiceRow) :
  map inv_user_id (patched_rows e t u id p rows) = map inv_user_id rows.
Proof.
  unfold patched_rows. rewrite map_map. apply map_ext. intro r.
  now destruct (has_id id r && owned_by u r).
Qed.

(** What a stamped map leaves alone. *)
Lemma map_map_stamped {A B : Type} (g : A -> B) (hit : A -> bool) (f : string -> A -> A)
    (stamp : nat -> string) (k : nat) (l : list A) :
  (forall (t : string) (x : A), g (f t x) = g x) ->
  map g (map_stamped hit f stamp k l) = map g l.
Proof.
  intro Hg. revert k. induction l as [|x l IH]; intro k; [reflexivity |].
  cbn [map_stamped]. destruct (hit x); cbn [map]; now rewrite ?Hg, IH.
Qed.

(** X15.  [updateInvoice], whatever its patch and whether it returns or
    throws, changes no id, no owner and no item: the store has the same
    invoice ids and owners in the same order and the same item rows, and
    a demo user's collection has the same ids with the same items. *)
Theorem updateInvoice_frame (e : Env) (id : string) (p : InvoiceUpdate) (w : World) :
  map inv_id (invoices_table (store (snd (updateInvoice e id p w)))) =
  map inv_id (invoices_table (store w)) /\
  map inv_user_id (invoices_table (store (snd (updateInvoice e id p w)))) =
  map inv_user_id (invoices_table (store w)) /\
  invoice_items_table (store (snd (updateInvoice e id p w))) =
  invoice_items_table (store w) /\
  (isMockUser w = true ->
   invoice_ids (snd (updateInvoice e id p w)) = invoice_ids w /\
   map invoice_items (invoices (snd (updateInvoice e id p w))) =
   map invoice_items (invoices w)).
Proof.
  unfold updateInvoice. destruct (isMockUser w) eqn:Hm; cbn [snd].
  - repeat split; unfold invoice_ids; world_simpl.
    + apply (map_map_stamped (fun inv : Invoice => inv_id inv)). reflexivity.
    + apply (map_map_stamped invoice_items). reflexivity.
  - destruct (update_invoices _ _ _ _ _ _ _) as [s'|] eqn:E; cbn [snd].
    + rewrite fetchInvoices_store. world_simpl.
      apply update_invoices_rows in E as (u & _ & -> & ->).
      split; [apply patched_rows_ids |]. split; [apply patched_rows_user_ids |].
      split; [reflexivity | discriminate].
    + repeat split; discriminate.
Qed.

(** ** Numbers that come back *)

Lemma length_filter_negb {A : Type} (f : A -> bool) (l : list A) :
  (List.length (filter f l) + List.length (filter (fun x => negb (f x)) l) =
   List.length l)%nat.
Proof.
  induction l as [|x l IH]; [reflexivity |].
  cbn [filter]. destruct (f x); cbn [negb List.length]; lia.
Qed.

(** X16.  The invoice number counts the invoices held, so a deletion makes
    it come back: when a demo user creates an invoice and then deletes
    another one, the next generated number (in the same year) is the number
    the created invoice already carries. *)
Theorem generateInvoiceNumber_reuses_number (e1 e2 e3 : Env) (clientId : string)
    (items : list InvoiceItemInsert) (d : InvoiceInsert) (id0 : string) (w : World)
    (u : string) :
  user w = Some u -> isMockUser w = true ->
  full_year e3 = full_year e1 ->
  List.length (filter (fun inv : Invoice => inv_id inv =? id0) (invoices w)) = 1%nat ->
  id0 <> "mock-inv-" ++ toString (now_ms e1 0) ->
  let w1 := snd (createInvoice e1 clientId items d w) in
  let w2 := snd (deleteInvoice e2 id0 w1) in
  exists inv : Invoice,
    In inv (invoices w2) /\
    inv_invoice_number inv = generateInvoiceNumber e3 w2.
Proof.
  intros Hu Hm Hy Hone Hid0 w1 w2.
  exists (mock_invoice e1 u clientId (generateInvoiceNumber e1 w) items d).
  assert (Hw1 : w1 = set_invoices
                       (mock_invoice e1 u clientId (generateInvoiceNumber e1 w) items d
                        :: invoices w) w).
  { subst w1. unfold createInvoice. now rewrite Hu, Hm. }
  assert (Hkeep : negb (inv_id (mock_invoice e1 u clientId (generateInvoiceNumber e1 w)
                                  items d) =? id0) = true).
  { apply negb_true_iff, String.eqb_neq. cbn [mock_invoice inv_row inv_id]. congruence. }
  assert (Hw2 : invoices w2 =
                mock_invoice e1 u clientId (generateInvoiceNumber e1 w) items d
                :: filter (fun invoice : Invoice => negb (inv_id invoice =? id0)) (invoices w)).
  { subst w2. rewrite Hw1. unfold deleteInvoice.
    rewrite isMockUser_set_invoices, Hm. cbn [snd]. world_simpl.
    cbn [filter]. now rewrite Hkeep. }
  split; [rewrite Hw2; now left |].
  assert (Hm2 : isMockUser w2 = true).
  { subst w2. rewrite Hw1. unfold deleteInvoice.
    rewrite isMockUser_set_invoices, Hm. exact Hm. }
  unfold generateInvoiceNumber at 2. rewrite Hm2, Hw2. cbn [List.length].
  pose proof (length_filter_negb (fun inv : Invoice => inv_id inv =? id0) (invoices w)) as Hl.
  rewrite Hone in Hl.
  replace (List.length (filter (fun invoice : Invoice => negb (inv_id invoice =? id0))
                          (invoices w)))
    with (List.length (invoices w) - 1)%nat by lia.
  replace (S (List.length (invoices w) - 1)) with (List.length (invoices w)) by lia.
  cbn [mock_invoice inv_row inv_invoice_number].
  unfold generateInvoiceNumber. now rewrite Hm, Hy.
Qed.

Lemma generateInvoiceNumber_reuses_number_witness :
  let w1 := snd (createInvoice env2 "mock-1" [sample_item] sample_insert admin_world) in
  let w2 := snd (deleteInvoice env3 "mock-inv-1" w1) in
  exists inv : Invoice,
    In inv (invoices w2) /\
    inv_invoice_number inv = generateInvoiceNumber env4 w2.
Proof.
  apply (generateInvoiceNumber_reuses_number env2 env3 env4 "mock-1" [sample_item]
           sample_insert "mock-inv-1" admin_world "admin@invoicepro.com");
    try reflexivity.
  discriminate.
Defined.

(** ** Statuses and the figures of the pages *)

Lemma status_is_known (status : string) (inv : Invoice) :
  status_is status inv = true ->
  exists s : Status, status = status_string s /\ inv_status inv = Some s.
Proof.
  unfold status_is. destruct (inv_status inv) as [s|]; [| discriminate].
  intro H. apply String.eqb_eq in H. now exists s.
Qed.

Lemma status_is_one (status status' : string) (inv : Invoice) :
  status_is status inv = true -> status_is status' inv = true -> status = status'.
Proof.
  intros H H'.
  apply status_is_known in H as (s & -> & Hs).
  apply status_is_known in H' as (s' & -> & Hs'). congruence.
Qed.

(** X17.  [getInvoicesByStatus] of a string that is none of [draft], [sent],
    [paid] and [overdue] returns the empty list, and no invoice is returned
    for two different strings. *)
Theorem getInvoicesByStatus_unknown (status : string) (w : World) :
  ((forall s : Status, status <> status_string s) ->
   getInvoicesByStatus status w = []) /\
  (forall (status' : string) (inv : Invoice),
     In inv (getInvoicesByStatus status w) ->
     In inv (getInvoicesByStatus status' w) -> status = status').
Proof.
  unfold getInvoicesByStatus. split.
  - intro Hs. apply filter_none. intros inv _.
    destruct (status_is status inv) eqn:E; [| reflexivity].
    apply status_is_known in E as (s & -> & _). now destruct (Hs s).
  - intros status' inv H H'.
    apply filter_In in H as [_ H]. apply filter_In in H' as [_ H'].
    now apply (status_is_one status status' inv).
Qed.

Lemma getInvoicesByStatus_unknown_witness :
  getInvoicesByStatus "Paid" paid_world = [] /\
  List.length (getInvoicesByStatus "paid" paid_world) = 1%nat.
Proof.
  split; [| reflexivity].
  apply (proj1 (getInvoicesByStatus_unknown "Paid" paid_world)).
  intros []; discriminate.
Defined.

(** X18.  The [stats] of the invoices page split the collection: every
    invoice is counted once, as paid, as pending ([sent]), as overdue, or,
    when it is a draft or has no status, in the total only; the counts are
    those of [getInvoicesByStatus]. *)
Theorem invoices_stats_partition (w : World) :
  stats_total (invoices_stats w) =
  (stats_paid (invoices_stats w) + stats_pending (invoices_stats w)
   + stats_overdue (invoices_stats w)
   + List.length (filter uncounted (invoices w)))%nat /\
  stats_paid (invoices_stats w) = List.length (getInvoicesByStatus "paid" w) /\
  stats_pending (invoices_stats w) = List.length (getInvoicesByStatus "sent" w) /\
  stats_overdue (invoices_stats w) = List.length (getInvoicesByStatus "overdue" w).
Proof.
  split; [| repeat split].
  unfold invoices_stats. cbn [stats_total stats_paid stats_pending stats_overdue].
  induction (invoices w) as [|inv l IH]; [reflexivity |].
  cbn [filter List.length].
  assert (H : exists b1 b2 b3 b4 : bool,
            status_is "paid" inv = b1 /\ status_is "sent" inv = b2 /\
            status_is "overdue" inv = b3 /\ uncounted inv = b4 /\
            ((if b1 then 1 else 0) + (if b2 then 1 else 0) + (if b3 then 1 else 0)
             + (if b4 then 1 else 0) = 1)%nat).
  { unfold status_is, uncounted.
    destruct (inv_status inv) as [[| | |]|]; do 4 eexists; repeat split. }
  destruct H as (b1 & b2 & b3 & b4 & -> & -> & -> & -> & Hsum).
  destruct b1, b2, b3, b4; cbn [List.length] in *; lia.
Qed.

Lemma length_filter_le {A : Type} (f g : A -> bool) (l : list A) :
  (forall x : A, f x = true -> g x = true) ->
  (List.length (filter f l) <= List.length (filter g l))%nat.
Proof.
  intro H. induction l as [|x l IH]; [apply le_n |].
  cbn [filter]. destruct (f x) eqn:E.
  - rewrite (H x E). cbn [List.length]. lia.
  - destruct (g x); cbn [List.length]; lia.
Qed.

(** X19.  What the dashboard counts as overdue are invoices stored as [sent]:
    each of them is counted as pending too, so the overdue count never
    exceeds the pending count, and an invoice whose stored status is
    [overdue] is never among them, whatever its due date. *)
Theorem dashboard_overdue_is_sent (before_now : string -> bool) (w : World) :
  incl (dashboard_overdue before_now w) (getInvoicesByStatus "sent" w) /\
  (dash_overdueInvoices (dashboard_counts before_now w)
   <= dash_pendingInvoices (dashboard_counts before_now w))%nat /\
  (forall inv : Invoice,
     In inv (getInvoicesByStatus "overdue" w) ->
     ~ In inv (dashboard_overdue before_now w)) /\
  dash_paidInvoices (dashboard_counts before_now w) = stats_paid (invoices_stats w) /\
  dash_pendingInvoices (dashboard_counts before_now w) = stats_pending (invoices_stats w).
Proof.
  split; [| split; [| split; [| split; reflexivity]]].
  - intros inv H. unfold dashboard_overdue, getInvoicesByStatus in *.
    apply filter_In in H as [Hin H]. apply andb_true_iff in H as [H _].
    apply filter_In. now split.
  - unfold dashboard_counts, dashboard_overdue.
    cbn [dash_overdueInvoices dash_pendingInvoices].
    apply length_filter_le. intros inv H. now apply andb_true_iff in H as [H _].
  - intros inv Ho Hd. unfold dashboard_overdue, getInvoicesByStatus in *.
    apply filter_In in Hd as [_ H]. apply andb_true_iff in H as [H _].
    apply filter_In in Ho as [_ Ho].
    pose proof (status_is_one "overdue" "sent" inv Ho H). discriminate.
Qed.

(** ** Paying a sent invoice *)

Lemma paid_after_sent_row (t1 t2 link : string) (r : InvoiceRow) :
  inv_status (set_updated_at t2 (spread_update (marked_sent t1 link r) (status_patch paid)))
  = Some paid /\
  inv_payment_link (set_updated_at t2 (spread_update (marked_sent t1 link r)
                                         (status_patch paid)))
  = Some link.
Proof. split; reflexivity. Qed.

Lemma paid_after_sent_stored (e1 e2 : Env) (t1 t2 link : string) (r : InvoiceRow) :
  inv_status (set_updated_at t2
                (stored_update e2 (set_updated_at t1 (stored_update e1 r (sent_patch link)))
                   (status_patch paid)))
  = Some paid /\
  inv_payment_link (set_updated_at t2
                      (stored_update e2
                         (set_updated_at t1 (stored_update e1 r (sent_patch link)))
                         (status_patch paid)))
  = Some link.
Proof. split; reflexivity. Qed.

(** X20.  [markAsPaid] keeps the payment link: after [sendInvoice(id)] and
    then [markAsPaid(id)] every invoice with this id is [paid] and still
    carries the link [<origin>/invoice/<id>] of the sending, in a demo user's
    collection and, when the two updates are answered, in the rows of the
    store the remote user owns. *)
Theorem markAsPaid_keeps_payment_link (e1 e2 : Env) (id : string) (w : World) :
  let link := origin e1 ++ "/invoice/" ++ id in
  let w2 := snd (markAsPaid e2 id (snd (sendInvoice e1 id w))) in
  (isMockUser w = true ->
   forall inv : Invoice, In inv (invoices w2) -> inv_id inv = id ->
     inv_status inv = Some paid /\ inv_payment_link inv = Some link) /\
  (forall u : string,
     user w = Some u -> isMockUser w = false ->
     refused e1 0 = false -> refused e2 0 = false ->
     forall r : InvoiceRow, In r (invoices_table (store w2)) ->
       inv_id r = id -> inv_user_id r = u ->
       inv_status r = Some paid /\ inv_payment_link r = Some link).
Proof.
  intros link w2. subst w2. unfold markAsPaid, sendInvoice. fold link. split.
  - intro Hm. rewrite (updateInvoice_demo e1 id (sent_patch link) w Hm). cbn [snd].
    rewrite (updateInvoice_demo e2 id (status_patch paid) _
               (eq_trans (isMockUser_set_invoices _ w) Hm)).
    cbn [snd]. world_simpl. intros inv Hin Hid.
    apply in_patched_invoices in Hin as (inv1 & Hin1 & [[Hne ->] | [Hid1 (t2 & ->)]]).
    + apply in_patched_invoices in Hin1 as (inv0 & _ & [[Hne0 ->] | [Hid0 (t1 & ->)]]);
        contradiction.
    + apply in_patched_invoices in Hin1 as (inv0 & _ & [[Hne0 ->] | [Hid0 (t1 & ->)]]);
        [contradiction |].
      cbn [inv_row patched_invoice]. rewrite sent_patch_row. apply paid_after_sent_row.
  - intros u Hu Hm Hok1 Hok2.
    rewrite (updateInvoice_remote e1 u id (sent_patch link) w Hu Hm eq_refl Hok1). cbn [snd].
    set (w1 := fetchInvoices e1 1 _).
    assert (Hu1 : user w1 = Some u) by (subst w1; now rewrite fetchInvoices_user).
    assert (Hm1 : isMockUser w1 = false).
    { rewrite <- Hm. apply isMockUser_user. now rewrite Hu1, Hu. }
    rewrite (updateInvoice_remote e2 u id (status_patch paid) w1 Hu1 Hm1 eq_refl Hok2).
    cbn [snd]. rewrite fetchInvoices_store. world_simpl.
    subst w1. rewrite fetchInvoices_store. world_simpl.
    intros r Hin Hid Hown.
    apply in_patched_rows in Hin as (r1 & Hin1 & [[Hne ->] | (Hid1 & Hown1 & ->)]).
    + destruct Hne; contradiction.
    + apply in_patched_rows in Hin1 as (r0 & _ & [[Hne0 ->] | (Hid0 & Hown0 & ->)]).
      * destruct Hne0; contradiction.
      * apply paid_after_sent_stored.
Qed.

Lemma markAsPaid_keeps_payment_link_witness :
  let w2 := snd (markAsPaid env3 "mock-inv-1" (snd (sendInvoice env2 "mock-inv-1" admin_world))) in
  isMockUser admin_world = true /\
  exists inv : Invoice,
    In inv (invoices w2) /\ inv_id inv = "mock-inv-1" /\
    inv_status inv = Some paid /\
    inv_payment_link inv = Some (origin env2 ++ "/invoice/" ++ "mock-inv-1").
Proof.
  intro w2. split; [reflexivity |].
  assert (Hin : exists inv : Invoice, In inv (invoices w2) /\ inv_id inv = "mock-inv-1").
  { eexists. split; [left; reflexivity | reflexivity]. }
  destruct Hin as (inv & Hin & Hid). exists inv.
  destruct (proj1 (markAsPaid_keeps_payment_link env2 env3 "mock-inv-1" admin_world)
              eq_refl inv Hin Hid) as [Hs Hl].
  now repeat split.
Defined.

(** ** Submitting the form *)

Lemma forallb_item_schema (items : list InvoiceFormItem) :
  forallb item_schema_valid items = true ->
  Forall (fun it =>
            form_item_name it <> "" /\
            PrimFloat.leb 1 (form_item_quantity it) = true /\
            PrimFloat.leb 0 (form_item_price it) = true /\
            PrimFloat.leb 0 (form_item_discount it) = true /\
            PrimFloat.leb (form_item_discount it) 100 = true) items.
Proof.
  intro H. apply Forall_forall. intros it Hit.
  rewrite forallb_forall in H. specialize (H it Hit).
  unfold item_schema_valid, required, in_range in H.
  apply andb_true_iff in H as [H Hd]. apply andb_true_iff in Hd as [Hd0 Hd100].
  apply andb_true_iff in H as [H Hp]. apply andb_true_iff in H as [Hn Hq].
  apply negb_true_iff, String.eqb_neq in Hn.
  split; [exact Hn |]. split; [exact Hq |]. split; [exact Hp |]. now split.
Qed.

(** X21.  For a demo user, [handleSubmit] either changes nothing (the form
    fails [invoiceSchema]) or puts one new invoice at the head of the
    collection: it has the requested status, one item per item of the form and
    at least one, every item with a name, a quantity of at least 1, a price of
    at least 0 and a discount in [0, 100].  The amounts it stores are those of
    the [calculations] memo the handler closes over, whatever the data are;
    when the memo is up to date with the data they are the page's subtotal
    of the items and [calculateInvoiceTotal] of it. *)
Theorem handleSubmit_demo (e : Env) (calculations : Calculations) (data : InvoiceFormData)
    (status : Status) (w : World) (u : string) :
  user w = Some u -> isMockUser w = true ->
  (invoiceSchema_valid data = false /\ handleSubmit e calculations data status w = w) \/
  (invoiceSchema_valid data = true /\
   exists inv : Invoice,
     handleSubmit e calculations data status w = set_invoices (inv :: invoices w) w /\
     inv_status inv = Some status /\
     List.length (invoice_items inv) = List.length (form_items data) /\
     (1 <= List.length (invoice_items inv))%nat /\
     Forall (fun it =>
               form_item_name it <> "" /\
               PrimFloat.leb 1 (form_item_quantity it) = true /\
               PrimFloat.leb 0 (form_item_price it) = true /\
               PrimFloat.leb 0 (form_item_discount it) = true /\
               PrimFloat.leb (form_item_discount it) 100 = true) (form_items data) /\
     inv_subtotal inv = Some (calc_subtotal calculations) /\
     inv_discount inv = Some (calc_discountAmount calculations) /\
     inv_tax_amount inv = Some (calc_taxAmount calculations) /\
     inv_total inv = calc_total calculations /\
     (memo_fresh calculations data ->
      inv_subtotal inv = Some (form_subtotal (form_items data)) /\
      inv_total inv =
      total (calculateInvoiceTotal (form_subtotal (form_items data))
               (or_zero (form_discount data)) (or_zero (form_tax_rate data))))).
Proof.
  intros Hu Hm. unfold handleSubmit.
  destruct (invoiceSchema_valid data) eqn:Hv; [right | left; now split].
  split; [reflexivity |].
  unfold onSubmit, createInvoice. rewrite Hu, Hm. cbn [snd].
  eexists. split; [reflexivity |].
  unfold invoiceSchema_valid in Hv.
  apply andb_true_iff in Hv as [Hv _]. apply andb_true_iff in Hv as [Hv _].
  apply andb_true_iff in Hv as [Hv Hlen]. apply andb_true_iff in Hv as [_ Hitems].
  cbn [mock_invoice inv_row inv_status invoice_items inv_subtotal inv_total
       inv_discount inv_tax_amount
       ins_status ins_subtotal ins_total ins_discount ins_tax_amount].
  unfold mapi. rewrite length_mapi_from, length_map.
  split; [reflexivity |]. split; [reflexivity |].
  split; [now apply Nat.leb_le |].
  split; [now apply forallb_item_schema |].
  do 4 (split; [reflexivity |]).
  intros ->. split; reflexivity.
Qed.

(** X22.  [onSubmit], which the preview buttons call without the resolver,
    checks nothing: for a demo user it adds an invoice for every form data,
    also data [invoiceSchema] rejects, with one item per item of the form. *)
Theorem onSubmit_unchecked (e : Env) (calculations : Calculations) (data : InvoiceFormData)
    (status : Status) (w : World) (u : string) :
  user w = Some u -> isMockUser w = true ->
  exists inv : Invoice,
    onSubmit e calculations data status w = set_invoices (inv :: invoices w) w /\
    inv_status inv = Some status /\
    List.length (invoice_items inv) = List.length (form_items data).
Proof.
  intros Hu Hm. unfold onSubmit, createInvoice. rewrite Hu, Hm. cbn [snd].
  eexists. split; [reflexivity |]. split; [reflexivity |].
  cbn [mock_invoice invoice_items]. unfold mapi. now rewrite length_mapi_from, length_map.
Qed.

Lemma handleSubmit_demo_witness :
  invoiceSchema_valid sample_form = true /\
  memo_fresh sample_calculations sample_form /\
  exists inv : Invoice,
    handleSubmit env2 sample_calculations sample_form sent admin_world =
    set_invoices (inv :: invoices admin_world) admin_world /\
    inv_status inv = Some sent /\
    inv_subtotal inv = Some 180%float /\
    inv_subtotal inv = Some (form_subtotal (form_items sample_form)) /\
    inv_total inv =
    total (calculateInvoiceTotal (form_subtotal (form_items sample_form))
             (or_zero (form_discount sample_form)) (or_zero (form_tax_rate sample_form))).
Proof.
  split; [reflexivity |]. split; [reflexivity |].
  destruct (handleSubmit_demo env2 sample_calculations sample_form sent admin_world
              "admin@invoicepro.com" eq_refl eq_refl)
    as [[Hv _] | (_ & inv & Hh & Hs & _ & _ & _ & Hsub & _ & _ & _ & Hfresh)];
    [discriminate Hv |].
  exists inv. destruct (Hfresh eq_refl) as [H1 H2].
  split; [exact Hh |]. split; [exact Hs |]. split; [exact Hsub |]. now split.
Defined.

(** With a memo that is not up to date the invoice carries its amounts all
    the same: the form holds an item of 2 x 100 with a discount of 10, the
    memo is the one of the blank form, and the stored subtotal is 0. *)
Example handleSubmit_stale_memo :
  form_subtotal (form_items sample_form) = 180%float /\
  map (fun inv : Invoice => (inv_subtotal inv, inv_total inv))
    (invoices (handleSubmit env2 initial_calculations sample_form sent admin_world))
  = [(Some 0%float, 0%float); (Some 2500%float, 2712.5%float)].
Proof. split; reflexivity. Qed.

Lemma onSubmit_unchecked_witness :
  invoiceSchema_valid unfilled_form = false /\
  exists inv : Invoice,
    onSubmit env2 initial_calculations unfilled_form draft admin_world =
    set_invoices (inv :: invoices admin_world) admin_world /\
    inv_status inv = Some draft /\
    List.length (invoice_items inv) = List.length (form_items unfilled_form).
Proof.
  split; [reflexivity |].
  exact (onSubmit_unchecked env2 initial_calculations unfilled_form draft admin_world
           "admin@invoicepro.com" eq_refl eq_refl).
Defined.

Lemma getInvoice_lookup_witness :
  getInvoice "mock-inv-9" admin_world = None /\
  exists inv : Invoice, getInvoice "mock-inv-1" admin_world = Some inv /\
                        In inv (invoices admin_world) /\ inv_id inv = "mock-inv-1".
Proof.
  split.
  - apply (proj1 (getInvoice_lookup "mock-inv-9" admin_world)).
    intros inv [<- | []]. discriminate.
  - eexists. split; [reflexivity |].
    destruct (proj2 (getInvoice_lookup "mock-inv-1" admin_world) _ eq_refl) as (H1 & H2 & _).
    now split.
Defined.

Lemma deleteInvoice_then_getInvoice_witness :
  getInvoice "mock-inv-1" (snd (deleteInvoice env2 "mock-inv-1" admin_world)) = None /\
  getInvoice "mock-inv-1" (snd (deleteInvoice env2 "mock-inv-7" admin_world)) =
  getInvoice "mock-inv-1" admin_world.
Proof.
  split.
  - exact (proj1 (proj1 (deleteInvoice_then_getInvoice env2 "mock-inv-1" admin_world)
                    eq_refl)).
  - apply (proj2 (proj1 (deleteInvoice_then_getInvoice env2 "mock-inv-7" admin_world)
                    eq_refl)).
    discriminate.
Defined.

Lemma updateInvoice_frame_witness :
  invoice_ids (snd (updateInvoice env2 "mock-inv-1" (status_patch overdue) admin_world)) =
  invoice_ids admin_world /\
  map invoice_items
    (invoices (snd (updateInvoice env2 "mock-inv-1" (status_patch overdue) admin_world))) =
  map invoice_items (invoices admin_world).
Proof.
  exact (proj2 (proj2 (proj2 (updateInvoice_frame env2 "mock-inv-1" (status_patch overdue)
                                admin_world))) eq_refl).
Defined.

(** The demo invoice stored as [overdue]: the invoices page counts it as
    overdue, the dashboard does not, whatever the date. *)
Lemma dashboard_overdue_is_sent_witness :
  let w := snd (updateInvoice env2 "mock-inv-1" (status_patch overdue) admin_world) in
  stats_overdue (invoices_stats w) = 1%nat /\
  exists inv : Invoice,
    In inv (getInvoicesByStatus "overdue" w) /\
    ~ In inv (dashboard_overdue (fun _ => true) w).
Proof.
  intro w. split; [reflexivity |].
  assert (Hin : exists inv : Invoice, In inv (getInvoicesByStatus "overdue" w)).
  { eexists. left. reflexivity. }
  destruct Hin as (inv & Hin). exists inv. split; [exact Hin |].
  exact (proj1 (proj2 (proj2 (dashboard_overdue_is_sent (fun _ => true) w))) inv Hin).
Defined.

